(** * A cognitive agent's memory engine: working memory, emotional state,
      sleep cycle and long-term pattern store.

    Shallow embedding of the TypeScript sources
      - implementations/working-memory  (class [LRUWorkingMemory])
      - interfaces/memory               (abstract [WorkingMemory], metrics)
      - implementations/emotional-memory (class [SupabaseEmotionalMemory])
      - services/emotional              (class [EmotionalService])
      - index                           (class [CognitiveSystem])
      - implementations/long-term-memory (class [SupabaseLongTermMemory])

    Numbers.  A JavaScript [number] is modelled by an exact number: a
    canonical rational [Qc] in the working memory and the emotional state
    (only [+ * / < min max] occur there), a real [R] in the long-term memory
    (which calls [Math.exp]).  Rounding is not modelled, so the theorems
    state only what holds of the exact operations and of the rounded ones
    alike: order, bounds and the values that are computed exactly.  The
    infinities are outside the model, except for the [-Infinity] that
    [Math.max()] of no argument returns.  [NaN] is outside the model for
    the arguments of the calls; the one [NaN] that the code makes out of
    numbers, the mean [0 / 0] over an empty emotional context, is the value
    [Number.NaN] of the weight of a pattern.

    Objects.  Facts are JavaScript objects that the working memory stores by
    reference and mutates in place ([consolidate]); they live in an object
    store indexed by references [loc]. *)

From Stdlib Require Import ZArith QArith Qcanon Reals Psatz.
From stdpp Require Import base numbers option list sorting functions gmap strings fin_maps.

Local Open Scope Qc_scope.

(** ** Shared data model (types.ts) *)

Inductive SensoryInputType :=
  | read_text | hear_text | feel_text | smell_text | taste_text.

Record EmotionalQuadrant (A : Type) := mkQuadrant {
  joy : A;
  calm : A;
  anger : A;
  sadness : A
}.
Arguments mkQuadrant {A} _ _ _ _.
Arguments joy {A} _.
Arguments calm {A} _.
Arguments anger {A} _.
Arguments sadness {A} _.

Module Fact.
Record t := mk {
  id : string;
  content : string;
  source : SensoryInputType;
  timestamp : Z;
  embedding : list Qc;
  emotionalImpact : EmotionalQuadrant Qc;
  weight : Qc
}.

(** [fact.weight = w] as a new value of the object. *)
Definition set_weight (w : Qc) (f : t) : t :=
  mk (id f) (content f) (source f) (timestamp f) (embedding f)
     (emotionalImpact f) w.
End Fact.

(** [Math.min] and [Math.max] of two numbers. *)
Definition Math_min (x y : Qc) : Qc := if decide (x ≤ y) then x else y.
Definition Math_max (x y : Qc) : Qc := if decide (x ≤ y) then y else x.

(** [Math.max(...ws)]: [None] stands for the [-Infinity] of an empty
    argument list. *)
Definition Math_max_list (ws : list Qc) : option Qc :=
  foldl (λ acc w, match acc with
                  | None => Some w
                  | Some m => Some (Math_max m w)
                  end) None ws.

(** ** implementations/working-memory: LRUWorkingMemory *)

Module LRUWorkingMemory.

(** A reference to a fact object. *)
Abbreviation loc := nat.

Inductive EvictionStrategy := Lru | Weight.

(** [WorkingMemoryMetrics] without the two clock readings
    ([avgAccessTime], [lastUpdated]). *)
Record Metrics := mkMetrics {
  hits : nat;
  misses : nat;
  evictions : nat
}.

(** The object: [heap] is the store of fact objects, [facts] is
    [factBuffer.facts] (an array of references), [factMap] the id index. *)
Record t := mk {
  heap : loc → Fact.t;
  factMap : gmap string loc;
  facts : list loc;
  maxSize : Z;
  evictionStrategy : EvictionStrategy;
  metrics : Metrics
}.

Definition set_heap (h : loc → Fact.t) (s : t) : t :=
  mk h (factMap s) (facts s) (maxSize s) (evictionStrategy s) (metrics s).
Definition set_factMap (m : gmap string loc) (s : t) : t :=
  mk (heap s) m (facts s) (maxSize s) (evictionStrategy s) (metrics s).
Definition set_facts (fs : list loc) (s : t) : t :=
  mk (heap s) (factMap s) fs (maxSize s) (evictionStrategy s) (metrics s).
Definition set_metrics (m : Metrics) (s : t) : t :=
  mk (heap s) (factMap s) (facts s) (maxSize s) (evictionStrategy s) m.

(** [new LRUWorkingMemory(name, capacity, evictionStrategy)] over the
    object store [h]. *)
Definition new (h : loc → Fact.t) (capacity : Z) (strategy : EvictionStrategy) : t :=
  mk h ∅ [] capacity strategy (mkMetrics 0 0 0).

(** [WorkingMemory.updateMetrics(accessTime, isHit)]. *)
Definition updateMetrics (isHit : bool) (s : t) : t :=
  let m := metrics s in
  set_metrics (if isHit then mkMetrics (S (hits m)) (misses m) (evictions m)
               else mkMetrics (hits m) (S (misses m)) (evictions m)) s.

Definition count_eviction (s : t) : t :=
  let m := metrics s in
  set_metrics (mkMetrics (hits m) (misses m) (S (evictions m))) s.

(** [getFacts()]: a copy of the array of references. *)
Definition getFacts (s : t) : list loc := facts s.

(** [retrieve(id)]. *)
Definition retrieve (k : string) (s : t) : option loc * t :=
  let fact := factMap s !! k in
  (fact, updateMetrics (bool_decide (is_Some fact)) s).

(** [evictOldest()]: [facts.shift()] and [factMap.delete(evicted.id)]. *)
Definition evictOldest (s : t) : t :=
  match facts s with
  | [] => s
  | evicted :: rest =>
      count_eviction
        (set_factMap (delete (Fact.id (heap s evicted)) (factMap s))
           (set_facts rest s))
  end.

(** The scan of [evictByWeight]:
    [let minWeightIndex = 0;
     for (let i = 1; i < facts.length; i++)
       if (facts[i].weight < facts[minWeightIndex].weight) minWeightIndex = i;] *)
Definition minWeightIndex (h : loc → Fact.t) (fs : list loc) : nat :=
  foldl (λ minIdx i,
           if decide (Fact.weight (h (fs !!! i)) < Fact.weight (h (fs !!! minIdx)))
           then i else minIdx)
        0%nat (seq 1 (length fs - 1)).

(** [evictByWeight()]: [facts.splice(minWeightIndex, 1)] and
    [factMap.delete(evicted.id)]. *)
Definition evictByWeight (s : t) : t :=
  match facts s with
  | [] => s
  | _ :: _ =>
      let i := minWeightIndex (heap s) (facts s) in
      let evicted := facts s !!! i in
      count_eviction
        (set_factMap (delete (Fact.id (heap s evicted)) (factMap s))
           (set_facts (delete i (facts s)) s))
  end.

(** The eviction step of [addFact], taken when
    [facts.length >= maxSize]. *)
Definition evictIfFull (s : t) : t :=
  if decide (maxSize s ≤ Z.of_nat (length (facts s)))%Z then
    match evictionStrategy s with
    | Lru => evictOldest s
    | Weight => evictByWeight s
    end
  else s.

(** [addFact(fact)]. *)
Definition addFact (fact : loc) (s : t) : t :=
  let s1 := evictIfFull s in
  updateMetrics true
    (set_facts (facts s1 ++ [fact])
       (set_factMap (<[Fact.id (heap s1 fact) := fact]> (factMap s1)) s1)).

(** [delete(id)]. *)
Definition delete_ (k : string) (s : t) : t :=
  let isHit := bool_decide (is_Some (factMap s !! k)) in
  updateMetrics isHit
    (set_facts (filter (λ f, Fact.id (heap s f) ≠ k) (facts s))
       (set_factMap (delete k (factMap s)) s)).

(** [facts.findIndex(f => f.id === id)]; [None] is the [-1]. *)
Fixpoint findIndex (h : loc → Fact.t) (k : string) (fs : list loc) : option nat :=
  match fs with
  | [] => None
  | f :: fs' => if decide (Fact.id (h f) = k) then Some 0%nat
                else S <$> findIndex h k fs'
  end.

(** [update(id, item)]; the result is [inl] of the state when the call
    throws ("Fact with id ... not found"), [inr] when it returns. *)
Definition update (k : string) (item : loc) (s : t) : t + t :=
  match factMap s !! k with
  | Some _ =>
      let s1 := set_factMap (<[k := item]> (factMap s)) s in
      let s2 :=
        match findIndex (heap s) k (facts s) with
        | Some index =>
            match evictionStrategy s with
            | Lru => set_facts (delete index (<[index := item]> (facts s)) ++ [item]) s1
            | Weight => set_facts (<[index := item]> (facts s)) s1
            end
        | None => s1
        end in
      inr (updateMetrics true s2)
  | None => inl (updateMetrics false s)
  end.

(** [clear()]. *)
Definition clear (s : t) : t := set_facts [] (set_factMap ∅ s).

(** One callback of the [forEach] of [consolidate]:
    [fact.weight = fact.weight / maxWeight; factMap.set(fact.id, fact)].
    The quotient is exact here.  The rounded quotient of the code is, like
    it, monotone in the weight, 1 for the maximum and unchanged by a
    maximum of 1, but it can give one value to two weights that are close;
    no theorem rests on the quotients of distinct weights being distinct. *)
Definition normalize (maxWeight : Qc) (s : t) (fact : loc) : t :=
  let f := heap s fact in
  set_factMap (<[Fact.id f := fact]> (factMap s))
    (set_heap (<[fact := Fact.set_weight (Fact.weight f / maxWeight) f]> (heap s)) s).

(** [consolidate()]. *)
Definition consolidate (s : t) : t :=
  match Math_max_list ((λ f, Fact.weight (heap s f)) <$> facts s) with
  | Some maxWeight =>
      if decide (0 < maxWeight) then foldl (normalize maxWeight) s (facts s)
      else s
  | None => s
  end.

(** Stable sort by descending weight:
    [[...facts].sort((a, b) => b.weight - a.weight)]. *)
Fixpoint insert_desc (h : loc → Fact.t) (x : loc) (sorted : list loc) : list loc :=
  match sorted with
  | [] => [x]
  | y :: ys => if decide (Fact.weight (h x) < Fact.weight (h y))
               then y :: insert_desc h x ys
               else x :: y :: ys
  end.

Definition sort_desc (h : loc → Fact.t) (fs : list loc) : list loc :=
  foldr (insert_desc h) [] fs.

(** [getSampleByWeight(sampleSize)]. *)
Definition getSampleByWeight (sampleSize : nat) (s : t) : list loc :=
  take sampleSize (sort_desc (heap s) (facts s)).

End LRUWorkingMemory.

(** ** Calls that may throw

    An [async] method either returns or throws, and in both cases leaves the
    object in the state it reached.  [M S A] is the state monad over [S]
    with that completion. *)

Inductive completion (A : Type) :=
  | Returned (a : A)
  | Thrown (e : string).
Arguments Returned {A} _.
Arguments Thrown {A} _.

Definition M (S A : Type) : Type := S → completion A * S.

Definition ret {S A} (a : A) : M S A := λ s, (Returned a, s).
Definition throw {S A} (e : string) : M S A := λ s, (Thrown e, s).
Definition bind {S A B} (c : M S A) (k : A → M S B) : M S B :=
  λ s, match c s with
       | (Returned a, s') => k a s'
       | (Thrown e, s') => (Thrown e, s')
       end.
Definition modify {S} (f : S → S) : M S unit := λ s, (Returned tt, f s).
Definition gets {S A} (f : S → A) : M S A := λ s, (Returned (f s), s).

#[global] Instance M_bind {S} : MBind (M S) := λ A B k c, bind c k.
#[global] Instance M_ret {S} : MRet (M S) := λ A a, ret a.

(** [for (const x of xs) { await body(x); }] *)
Fixpoint for_of {S A} (xs : list A) (body : A → M S unit) : M S unit :=
  match xs with
  | [] => ret tt
  | x :: xs' => bind (body x) (λ _, for_of xs' body)
  end.

(** Run a call on a component [get s] of a larger object. *)
Definition zoom {S T A} (get : S → T) (set : T → S → S) (c : M T A) : M S A :=
  λ s, let '(r, t') := c (get s) in (r, set t' s).

(** ** config.ts *)

Module config.
Definition sleepCycleFactCount : nat := 10.
Definition contextRetentionSize : Z := 10.
(** [emotionalDecayRate: 0.1] *)
Definition emotionalDecayRate : Qc := Q2Qc (1 # 10).
(** [maxQuadrantValue: 1.0], [minQuadrantValue: -1.0] *)
Definition maxQuadrantValue : Qc := 1.
Definition minQuadrantValue : Qc := -1.
End config.

(** The remote table [emotional_states]: the rows inserted so far, and the
    number of requests sent.  Whether a request is rejected is decided by
    the environment: [rejects n] tells it for the [n]-th request. *)
Record RemoteTable (Row : Type) := mkRemote {
  rows : list Row;
  requests : nat
}.
Arguments mkRemote {Row} _ _.
Arguments rows {Row} _.
Arguments requests {Row} _.

(** An insert whose response is checked: [if (error) throw error]. *)
Definition remote_insert {Row} (rejects : nat → bool) (row : Row)
    : M (RemoteTable Row) unit :=
  λ db, if rejects (requests db)
        then (Thrown "StoreError", mkRemote (rows db) (S (requests db)))
        else (Returned tt, mkRemote (rows db ++ [row]) (S (requests db))).

(** [await supabase.from(table).insert(row)]: the client does not throw, it
    resolves to a response [{error}]; the value returned here tells whether
    the response holds an error. *)
Definition remote_response {Row} (rejects : nat → bool) (row : Row)
    : M (RemoteTable Row) bool :=
  λ db, if rejects (requests db)
        then (Returned true, mkRemote (rows db) (S (requests db)))
        else (Returned false, mkRemote (rows db ++ [row]) (S (requests db))).

(** ** implementations/emotional-memory: SupabaseEmotionalMemory *)

Module SupabaseEmotionalMemory.

Record t := mk {
  currentState : EmotionalQuadrant Qc;
  supabase : RemoteTable (EmotionalQuadrant Qc)
}.

Definition set_currentState (q : EmotionalQuadrant Qc) (s : t) : t :=
  mk q (supabase s).
Definition set_supabase (db : RemoteTable (EmotionalQuadrant Qc)) (s : t) : t :=
  mk (currentState s) db.

Definition new : t := mk (mkQuadrant 0 0 0 0) (mkRemote [] 0).

(** [clampValue(value)]:
    [Math.max(minQuadrantValue, Math.min(maxQuadrantValue, value))]. *)
Definition clampValue (value : Qc) : Qc :=
  Math_max config.minQuadrantValue (Math_min config.maxQuadrantValue value).

Section Calls.
Variable rejects : nat → bool.

(** [store(item)]: the inserted row is reduced to its quadrant (the
    intensity column is a square root of it).  The insert is awaited and
    its response is not read: a rejected insert goes unnoticed.
    ([validateItem] accepts every quadrant.) *)
Definition store (item : EmotionalQuadrant Qc) : M t unit :=
  zoom supabase set_supabase (remote_response rejects item) ;;
  mret tt.

(** [getCurrentState()]. *)
Definition getCurrentState : M t (EmotionalQuadrant Qc) := gets currentState.

(** [updateState(impact)]. *)
Definition updateState (impact : EmotionalQuadrant Qc) : M t unit :=
  modify (λ s, set_currentState
    (mkQuadrant
       (clampValue (joy (currentState s) + joy impact))
       (clampValue (calm (currentState s) + calm impact))
       (clampValue (anger (currentState s) + anger impact))
       (clampValue (sadness (currentState s) + sadness impact))) s) ;;
  st ← gets currentState;
  store st.

(** [decayEmotions(rate)]. *)
Definition decayEmotions (rate : Qc) : M t unit :=
  modify (λ s, set_currentState
    (mkQuadrant
       (joy (currentState s) * rate)
       (calm (currentState s) * rate)
       (anger (currentState s) * rate)
       (sadness (currentState s) * rate)) s) ;;
  st ← gets currentState;
  store st.
End Calls.

End SupabaseEmotionalMemory.

(** ** services/emotional: EmotionalService *)

Module EmotionalService.

(** [EmotionalState] reduced to its quadrant: [intensity] is the square
    root of the sum of the squares of the quadrant, [lastUpdated] a clock
    reading. *)
Record t := mk {
  currentState : EmotionalQuadrant Qc;
  dbService : RemoteTable (EmotionalQuadrant Qc)
}.

Definition set_currentState (q : EmotionalQuadrant Qc) (s : t) : t :=
  mk q (dbService s).
Definition set_dbService (db : RemoteTable (EmotionalQuadrant Qc)) (s : t) : t :=
  mk (currentState s) db.

Definition new : t := mk (mkQuadrant 0 0 0 0) (mkRemote [] 0).

(** [clampValue(value)]: [Math.max(-1, Math.min(1, value))]. *)
Definition clampValue (value : Qc) : Qc := Math_max (-1) (Math_min 1 value).

(** [calculateNewState(impact)]. *)
Definition calculateNewState (impact : EmotionalQuadrant Qc) (s : t)
    : EmotionalQuadrant Qc :=
  mkQuadrant
    (clampValue (joy (currentState s) + joy impact))
    (clampValue (calm (currentState s) + calm impact))
    (clampValue (anger (currentState s) + anger impact))
    (clampValue (sadness (currentState s) + sadness impact)).

Section Calls.
Variable rejects : nat → bool.

(** [processFact(fact)], for a fact that carries its [emotionalImpact]:
    the new state is computed, sent to the database, and only then
    assigned. *)
Definition processFact (fact : Fact.t) : M t (EmotionalQuadrant Qc) :=
  newState ← gets (calculateNewState (Fact.emotionalImpact fact));
  zoom dbService set_dbService (remote_insert rejects newState) ;;
  modify (set_currentState newState) ;;
  ret newState.

(** [applyEmotionalDecay(decayRate)]. *)
Definition applyEmotionalDecay (decayRate : Qc) : M t (EmotionalQuadrant Qc) :=
  decayedQuadrant ← gets (λ s, mkQuadrant
    (joy (currentState s) * (1 - decayRate))
    (calm (currentState s) * (1 - decayRate))
    (anger (currentState s) * (1 - decayRate))
    (sadness (currentState s) * (1 - decayRate)));
  newState ← gets (calculateNewState decayedQuadrant);
  modify (set_currentState newState) ;;
  ret newState.
End Calls.

End EmotionalService.

(** ** index: CognitiveSystem *)

Module CognitiveSystem.

Record t := mk {
  workingMemory : LRUWorkingMemory.t;
  emotionalMemory : SupabaseEmotionalMemory.t
}.

Definition set_workingMemory (w : LRUWorkingMemory.t) (s : t) : t :=
  mk w (emotionalMemory s).
Definition set_emotionalMemory (e : SupabaseEmotionalMemory.t) (s : t) : t :=
  mk (workingMemory s) e.

(** [reduceEmotionalImpact(impact)]. *)
Definition reduceEmotionalImpact (impact : EmotionalQuadrant Qc)
    : EmotionalQuadrant Qc :=
  mkQuadrant
    (joy impact * config.emotionalDecayRate)
    (calm impact * config.emotionalDecayRate)
    (anger impact * config.emotionalDecayRate)
    (sadness impact * config.emotionalDecayRate).

Section Calls.
Variable rejects : nat → bool.

(** [processSleepCycle()]. *)
Definition processSleepCycle : M t unit :=
  shortTermSample ← gets (λ s,
    LRUWorkingMemory.getSampleByWeight config.sleepCycleFactCount
      (workingMemory s));
  for_of shortTermSample (λ fact,
    impact ← gets (λ s, Fact.emotionalImpact
                          (LRUWorkingMemory.heap (workingMemory s) fact));
    zoom emotionalMemory set_emotionalMemory
      (SupabaseEmotionalMemory.updateState rejects
         (reduceEmotionalImpact impact))) ;;
  modify (λ s, set_workingMemory
                 (LRUWorkingMemory.consolidate (workingMemory s)) s).
End Calls.

End CognitiveSystem.

(** ** implementations/long-term-memory: SupabaseLongTermMemory *)

(** A number that may be [NaN]: a real, or the [NaN] that [0 / 0] makes.
    [NaN] spreads through [+], [*] and [Math.min], and every comparison
    with it is false. *)
Module Number.
Inductive t := Num (x : R) | NaN.

Definition add (a b : t) : t :=
  match a, b with Num x, Num y => Num (x + y) | _, _ => NaN end.

Definition mul (a b : t) : t :=
  match a, b with Num x, Num y => Num (x * y) | _, _ => NaN end.

(** [Math.min(a, b)]. *)
Definition min (a b : t) : t :=
  match a, b with Num x, Num y => Num (Rmin x y) | _, _ => NaN end.

(** [a <= b]. *)
Definition le (a b : t) : Prop :=
  match a, b with Num x, Num y => (x <= y)%R | _, _ => False end.

#[global] Instance le_dec : RelDecision le :=
  λ a b, match a, b return Decision (le a b) with
         | Num x, Num y => Rle_dec x y
         | Num _, NaN | NaN, _ => right (λ H : False, H)
         end.
End Number.

Module Pattern.
Record t := mk {
  id : string;
  facts : list string;
  weight : Number.t;
  emotionalSignature : EmotionalQuadrant R;
  lastAccessed : Z          (* milliseconds since the epoch *)
}.

Definition set_weight (w : Number.t) (p : t) : t :=
  mk (id p) (facts p) w (emotionalSignature p) (lastAccessed p).
Definition set_emotionalSignature (q : EmotionalQuadrant R) (p : t) : t :=
  mk (id p) (facts p) (weight p) q (lastAccessed p).
Definition set_lastAccessed (d : Z) (p : t) : t :=
  mk (id p) (facts p) (weight p) (emotionalSignature p) d.
End Pattern.

(** services/database: the part of [DatabaseService] the long-term memory
    calls.  [patterns] are the rows of the table [patterns];
    [find_similar_facts] is the SQL function of that name, reduced to the
    ids of the facts it returns (nothing else of them is used). *)
Module DatabaseService.

Record t := mk {
  patterns : list Pattern.t;
  find_similar_facts : list R → R → nat → list string;
  requests : nat
}.

Definition set_patterns (ps : list Pattern.t) (db : t) : t :=
  mk ps (find_similar_facts db) (requests db).

Section Calls.
Variable rejects : nat → bool.

(** One request to the remote store: it is counted, and it throws when
    the environment rejects it. *)
Definition request {A} (answer : t → A) (effect : t → t) : M t A :=
  λ db, let db' := mk (patterns db) (find_similar_facts db) (S (requests db)) in
        if rejects (requests db) then (Thrown "StoreError", db')
        else (Returned (answer db), effect db').

(** [loadPatterns()]: [select *]. *)
Definition loadPatterns : M t (list Pattern.t) :=
  request patterns (λ db, db).

(** [findSimilarFacts(embedding, limit, threshold)]. *)
Definition findSimilarFacts (embedding : list R) (limit : nat) (threshold : R)
    : M t (list string) :=
  request (λ db, find_similar_facts db embedding threshold limit) (λ db, db).

(** [findPatternsWithFacts(factIds)]: [.contains('facts', factIds)],
    the rows whose array [facts] contains every element of [factIds]. *)
Definition findPatternsWithFacts (factIds : list string) : M t (list Pattern.t) :=
  request (λ db, filter (λ row, factIds ⊆ Pattern.facts row) (patterns db))
          (λ db, db).

(** [updatePattern(pattern)]: [update ... where id = pattern.id]. *)
Definition updatePattern (pattern : Pattern.t) : M t unit :=
  request (λ _, tt)
    (λ db, set_patterns
       ((λ row, if decide (Pattern.id row = Pattern.id pattern)
                then pattern else row) <$> patterns db) db).

(** [storePattern(pattern)]: [upsert], which answers the stored row. *)
Definition storePattern (pattern : Pattern.t) : M t Pattern.t :=
  request (λ _, pattern)
    (λ db, set_patterns
       (if decide (Pattern.id pattern ∈ Pattern.id <$> patterns db)
        then (λ row, if decide (Pattern.id row = Pattern.id pattern)
                     then pattern else row) <$> patterns db
        else patterns db ++ [pattern]) db).
End Calls.

End DatabaseService.

Module SupabaseLongTermMemory.

Inductive EmotionalDimension := Joy | Calm | Anger | Sadness.

(** [quadrant[dimension]] and [{...quadrant, [dimension]: v}]. *)
Definition get (d : EmotionalDimension) (q : EmotionalQuadrant R) : R :=
  match d with
  | Joy => joy q | Calm => calm q | Anger => anger q | Sadness => sadness q
  end.
Definition set (d : EmotionalDimension) (v : R) (q : EmotionalQuadrant R)
    : EmotionalQuadrant R :=
  match d with
  | Joy => mkQuadrant v (calm q) (anger q) (sadness q)
  | Calm => mkQuadrant (joy q) v (anger q) (sadness q)
  | Anger => mkQuadrant (joy q) (calm q) v (sadness q)
  | Sadness => mkQuadrant (joy q) (calm q) (anger q) v
  end.

(** An [emotionalContext] as [Object.entries] lists it. *)
Abbreviation EmotionalContext := (list (EmotionalDimension * R)).

(** [Object.entries(quadrant)] of a full quadrant. *)
Definition entries (q : EmotionalQuadrant R) : EmotionalContext :=
  [(Joy, joy q); (Calm, calm q); (Anger, anger q); (Sadness, sadness q)].

(** The object: [patterns] is the in-process [Map] of patterns. *)
Record t := mk {
  patterns : gmap string Pattern.t;
  initialized : bool;
  dbService : DatabaseService.t
}.

Definition set_patterns (m : gmap string Pattern.t) (s : t) : t :=
  mk m (initialized s) (dbService s).
Definition set_initialized (b : bool) (s : t) : t :=
  mk (patterns s) b (dbService s).
Definition set_dbService (db : DatabaseService.t) (s : t) : t :=
  mk (patterns s) (initialized s) db.

Definition new (db : DatabaseService.t) : t := mk ∅ false db.

(** [ps.forEach(pattern => this.patterns.set(pattern.id, pattern))]. *)
Definition cache_all (ps : list Pattern.t) (m : gmap string Pattern.t)
    : gmap string Pattern.t :=
  foldl (λ m pattern, <[Pattern.id pattern := pattern]> m) m ps.

(** [calculateEmotionalSimilarity(emotionalContext, pattern)]: the sum
    of the products divided by the number of entries.  For a context with
    no entry the sum is 0 and the quotient [0 / 0] is [NaN]. *)
Definition calculateEmotionalSimilarity
    (emotionalContext : EmotionalContext) (pattern : Pattern.t) : Number.t :=
  let sum :=
    foldl (λ sum '(emotion, value),
             (sum + value * get emotion (Pattern.emotionalSignature pattern))%R)
          0%R emotionalContext in
  match length emotionalContext with
  | O => Number.NaN
  | S _ => Number.Num (sum / INR (length emotionalContext))
  end.

(** [updateEmotionalSignature(signature, context)]. *)
Definition updateEmotionalSignature
    (signature : EmotionalQuadrant R) (context : EmotionalContext)
    : EmotionalQuadrant R :=
  foldl (λ updated '(emotion, value),
           set emotion ((get emotion signature + value) / 2)%R updated)
        signature context.

(** The rescaling of [findSimilarPatterns]:
    [{...pattern, weight: pattern.weight * (1 + emotionalSimilarity)}]. *)
Definition rescale (emotionalContext : EmotionalContext) (pattern : Pattern.t)
    : Pattern.t :=
  Pattern.set_weight
    (Number.mul (Pattern.weight pattern)
       (Number.add (Number.Num 1)
          (calculateEmotionalSimilarity emotionalContext pattern)))
    pattern.

(** The half-life of [strengthenPattern] in milliseconds:
    [30 * 24 * 60 * 60 * 1000]. *)
Definition halfLifeMillis : Z := 30 * 24 * 60 * 60 * 1000.

Section Calls.
Variable rejects : nat → bool.

Definition db {A} (c : M DatabaseService.t A) : M t A :=
  zoom dbService set_dbService c.

(** [ensureInitialized()]. *)
Definition ensureInitialized : M t unit :=
  init ← gets initialized;
  if init : bool then mret tt
  else
    storedPatterns ← db (DatabaseService.loadPatterns rejects);
    modify (λ s, set_initialized true
                   (set_patterns (cache_all storedPatterns (patterns s)) s)).

(** [storePattern(pattern)]. *)
Definition storePattern (pattern : Pattern.t) : M t unit :=
  ensureInitialized ;;
  storedPattern ← db (DatabaseService.storePattern rejects pattern);
  modify (λ s, set_patterns
                 (<[Pattern.id storedPattern := storedPattern]> (patterns s)) s).

(** [findSimilarPatterns(embedding, threshold, emotionalContext?)]. *)
Definition findSimilarPatterns (embedding : list R) (threshold : R)
    (emotionalContext : option EmotionalContext) : M t (list Pattern.t) :=
  ensureInitialized ;;
  similarFacts ← db (DatabaseService.findSimilarFacts rejects embedding 5 threshold);
  relatedPatterns ← db (DatabaseService.findPatternsWithFacts rejects similarFacts);
  let weightedPatterns :=
    match emotionalContext with
    | Some context => rescale context <$> relatedPatterns
    | None => relatedPatterns
    end in
  modify (λ s, set_patterns (cache_all weightedPatterns (patterns s)) s) ;;
  mret weightedPatterns.

(** The new value of the pattern object in [strengthenPattern]; [now] is
    the reading of the clock (the two readings of one call are taken
    equal). *)
Definition strengthened (now : Z) (amount : R)
    (emotionalContext : option EmotionalContext) (pattern : Pattern.t)
    : Pattern.t :=
  let timeSinceLastAccess := (now - Pattern.lastAccessed pattern)%Z in
  let decayFactor := exp (- IZR timeSinceLastAccess / IZR halfLifeMillis) in
  let decayed := Pattern.set_weight
                   (Number.mul (Pattern.weight pattern) (Number.Num decayFactor))
                   pattern in
  let emotionalReinforcement :=
    match emotionalContext with
    | Some context =>
        Number.add (Number.Num 1) (calculateEmotionalSimilarity context decayed)
    | None => Number.Num 1
    end in
  let p1 := Pattern.set_weight
              (Number.min (Number.Num 1)
                 (Number.add (Pattern.weight decayed)
                    (Number.mul (Number.Num amount) emotionalReinforcement)))
              decayed in
  let p2 := Pattern.set_lastAccessed now p1 in
  match emotionalContext with
  | Some context =>
      Pattern.set_emotionalSignature
        (updateEmotionalSignature (Pattern.emotionalSignature p2) context) p2
  | None => p2
  end.

(** [strengthenPattern(patternId, amount, emotionalContext?)]: the
    pattern object of the map is changed in place, then sent to the
    database; an unknown id is logged and nothing happens. *)
Definition strengthenPattern (now : Z) (patternId : string) (amount : R)
    (emotionalContext : option EmotionalContext) : M t unit :=
  ensureInitialized ;;
  found ← gets (λ s, patterns s !! patternId);
  match found with
  | Some pattern =>
      let pattern' := strengthened now amount emotionalContext pattern in
      modify (λ s, set_patterns (<[patternId := pattern']> (patterns s)) s) ;;
      db (DatabaseService.updatePattern rejects pattern')
  | None => mret tt
  end.
End Calls.

End SupabaseLongTermMemory.

(** ** Vocabulary of the properties *)

(** A sequence of [addFact] calls. *)
Definition addFacts (fs : list nat) (s : LRUWorkingMemory.t) : LRUWorkingMemory.t :=
  foldl (λ s fact, LRUWorkingMemory.addFact fact s) s fs.

(** One step of the scan of [evictByWeight] over weights [w]. *)
Definition scan_step (w : nat → Qc) (minIdx i : nat) : nat :=
  if decide (w i < w minIdx) then i else minIdx.

(** [m] is the lowest index of a minimal weight among the indices below [a]. *)
Definition first_min (w : nat → Qc) (a m : nat) : Prop :=
  (m < a)%nat ∧ (∀ j, (j < a)%nat → w m ≤ w j) ∧ (∀ j, (j < m)%nat → w m < w j).

(** Sample facts: only the id and the weight vary. *)
Definition sample_fact (k : string) (w : Qc) : Fact.t :=
  Fact.mk k "" read_text 0 [] (mkQuadrant 0 0 0 0) w.

(** Object store with fact ["A"] of weight 1/2 at reference 0 and fact ["B"]
    of weight 1/10 everywhere else. *)
Definition heap_AB : nat → Fact.t :=
  λ l, match l with
       | 0%nat => sample_fact "A" (Q2Qc (1 # 2))
       | _ => sample_fact "B" (Q2Qc (1 # 10))
       end.

(** Two distinct fact objects with the same id ["A"], of weights 1/2 (at
    reference 0) and 1/10 (elsewhere). *)
Definition heap_same_id : nat → Fact.t :=
  λ l, match l with
       | 0%nat => sample_fact "A" (Q2Qc (1 # 2))
       | _ => sample_fact "A" (Q2Qc (1 # 10))
       end.

(** The ids of the facts in the buffer [fs], read in the object store [h]. *)
Definition ids_of (h : nat → Fact.t) (fs : list nat) : list string :=
  (λ l, Fact.id (h l)) <$> fs.

(** [factMap] and [factBuffer.facts] contain exactly the same facts, as the
    claim words it: every fact in the buffer is in the map under its id, and
    every map entry's fact is in the buffer. *)
Definition same_facts (s : LRUWorkingMemory.t) : Prop :=
  (∀ l, l ∈ LRUWorkingMemory.facts s →
        LRUWorkingMemory.factMap s !! Fact.id (LRUWorkingMemory.heap s l) = Some l)
  ∧ (∀ k l, LRUWorkingMemory.factMap s !! k = Some l → l ∈ LRUWorkingMemory.facts s).

(** The invariant that the operations preserve: the ids in the buffer are
    pairwise distinct, and the map sends [k] to [l] exactly when [l] is in
    the buffer and has id [k]. *)
Definition consistent_on (h : nat → Fact.t) (m : gmap string nat) (fs : list nat) : Prop :=
  NoDup (ids_of h fs)
  ∧ ∀ k l, m !! k = Some l ↔ l ∈ fs ∧ Fact.id (h l) = k.

Definition consistent (s : LRUWorkingMemory.t) : Prop :=
  consistent_on (LRUWorkingMemory.heap s) (LRUWorkingMemory.factMap s)
                (LRUWorkingMemory.facts s).

(** The calls on a working memory, and the state a call leaves (for
    [update], whether it returns or throws). *)
Inductive call :=
  | AddFact (fact : nat)
  | Update (k : string) (item : nat)
  | Delete (k : string)
  | EvictOldest
  | EvictByWeight
  | Clear
  | Consolidate.

Definition run_call (c : call) (s : LRUWorkingMemory.t) : LRUWorkingMemory.t :=
  match c with
  | AddFact fact => LRUWorkingMemory.addFact fact s
  | Update k item =>
      match LRUWorkingMemory.update k item s with inl s' | inr s' => s' end
  | Delete k => LRUWorkingMemory.delete_ k s
  | EvictOldest => LRUWorkingMemory.evictOldest s
  | EvictByWeight => LRUWorkingMemory.evictByWeight s
  | Clear => LRUWorkingMemory.clear s
  | Consolidate => LRUWorkingMemory.consolidate s
  end.

(** Calls that respect the identity of facts: [addFact] of a fact whose id
    is the id of no fact in the buffer, [update(id, item)] with
    [item.id = id]. *)
Definition admissible (c : call) (s : LRUWorkingMemory.t) : Prop :=
  match c with
  | AddFact fact =>
      Fact.id (LRUWorkingMemory.heap s fact)
        ∉ ids_of (LRUWorkingMemory.heap s) (LRUWorkingMemory.facts s)
  | Update k item => Fact.id (LRUWorkingMemory.heap s item) = k
  | _ => True
  end.

(** The states reached from a new working memory by admissible calls. *)
Inductive reachable : LRUWorkingMemory.t → Prop :=
  | reachable_new h capacity strategy :
      reachable (LRUWorkingMemory.new h capacity strategy)
  | reachable_call s c :
      reachable s → admissible c s → reachable (run_call c s).

(** The weights of the facts in the buffer, in buffer order. *)
Definition weights (s : LRUWorkingMemory.t) : list Qc :=
  (λ l, Fact.weight (LRUWorkingMemory.heap s l)) <$> LRUWorkingMemory.facts s.

(** What [consolidate] does to one fact object visited once. *)
Definition normalized (maxWeight : Qc) (f : Fact.t) : Fact.t :=
  Fact.set_weight (Fact.weight f / maxWeight) f.

(** A component, and a quadrant, within [-1, 1]. *)
Definition within_bounds (x : Qc) : Prop := -1 ≤ x ∧ x ≤ 1.

Definition in_range (q : EmotionalQuadrant Qc) : Prop :=
  within_bounds (joy q) ∧ within_bounds (calm q)
  ∧ within_bounds (anger q) ∧ within_bounds (sadness q).

(** The update and decay calls on the two holders of the emotional state,
    and the state a sequence of calls leaves (whether the calls return or
    throw). *)
Inductive memory_call :=
  | UpdateState (impact : EmotionalQuadrant Qc)
  | DecayEmotions (rate : Qc).

Inductive service_call :=
  | ProcessFact (fact : Fact.t)
  | ApplyEmotionalDecay (decayRate : Qc).

Definition run_memory_call (rejects : nat → bool) (c : memory_call)
    (s : SupabaseEmotionalMemory.t) : SupabaseEmotionalMemory.t :=
  match c with
  | UpdateState impact => (SupabaseEmotionalMemory.updateState rejects impact s).2
  | DecayEmotions rate => (SupabaseEmotionalMemory.decayEmotions rejects rate s).2
  end.

Definition run_service_call (rejects : nat → bool) (c : service_call)
    (s : EmotionalService.t) : EmotionalService.t :=
  match c with
  | ProcessFact fact => (EmotionalService.processFact rejects fact s).2
  | ApplyEmotionalDecay decayRate =>
      (EmotionalService.applyEmotionalDecay decayRate s).2
  end.

Definition run_memory_calls (rejects : nat → bool) (cs : list memory_call)
    : SupabaseEmotionalMemory.t :=
  foldl (λ s c, run_memory_call rejects c s) SupabaseEmotionalMemory.new cs.

Definition run_service_calls (rejects : nat → bool) (cs : list service_call)
    : EmotionalService.t :=
  foldl (λ s c, run_service_call rejects c s) EmotionalService.new cs.

(** The rates of the decay calls of a sequence. *)
Definition decay_rates (cs : list memory_call) : list Qc :=
  omap (λ c, match c with DecayEmotions rate => Some rate | _ => None end) cs.

(** An environment that rejects no request, and one that rejects only the
    first. *)
Definition accepts_all : nat → bool := λ _, false.
Definition rejects_first : nat → bool := λ n, bool_decide (n = 0%nat).

(** [impact] added to [q] componentwise, each component clamped to
    [-1, 1]. *)
Definition absorbed (q impact : EmotionalQuadrant Qc) : EmotionalQuadrant Qc :=
  mkQuadrant
    (Math_max (-1) (Math_min 1 (joy q + joy impact)))
    (Math_max (-1) (Math_min 1 (calm q + calm impact)))
    (Math_max (-1) (Math_min 1 (anger q + anger impact)))
    (Math_max (-1) (Math_min 1 (sadness q + sadness impact))).

(** Each component of [q] multiplied by [rate]. *)
Definition scaled (q : EmotionalQuadrant Qc) (rate : Qc) : EmotionalQuadrant Qc :=
  mkQuadrant (joy q * rate) (calm q * rate) (anger q * rate) (sadness q * rate).

(** Object store with a joyful fact ["A"] of weight 1/2 at reference 0 and
    an angry fact ["B"] of weight 1/10 everywhere else. *)
Definition heap_moods : nat → Fact.t :=
  λ l, match l with
       | 0%nat => Fact.mk "A" "" read_text 0 [] (mkQuadrant 1 0 0 0) (Q2Qc (1 # 2))
       | _ => Fact.mk "B" "" read_text 0 [] (mkQuadrant 0 0 1 0) (Q2Qc (1 # 10))
       end.

(** A cognitive system whose working memory holds the two facts of
    [heap_moods]. *)
Definition two_moods : CognitiveSystem.t :=
  CognitiveSystem.mk
    (addFacts [0; 1]%nat
       (LRUWorkingMemory.new heap_moods config.contextRetentionSize
          LRUWorkingMemory.Lru))
    SupabaseEmotionalMemory.new.

(** Of the rows sent by the requests numbered [r], [r + 1], ..., those
    that the environment accepts. *)
Fixpoint accepted {Row} (rejects : nat → bool) (r : nat) (sent : list Row)
    : list Row :=
  match sent with
  | [] => []
  | row :: sent' =>
      if rejects r then accepted rejects (S r) sent'
      else row :: accepted rejects (S r) sent'
  end.

(** The emotional states that the reduced impacts of the facts [sample]
    take [q] through, one state per fact. *)
Fixpoint replayed_states (h : nat → Fact.t) (q : EmotionalQuadrant Qc)
    (sample : list nat) : list (EmotionalQuadrant Qc) :=
  match sample with
  | [] => []
  | fact :: sample' =>
      let q' := absorbed q (CognitiveSystem.reduceEmotionalImpact
                              (Fact.emotionalImpact (h fact))) in
      q' :: replayed_states h q' sample'
  end.

(** The emotional state after the reduced impacts of the facts [sample]
    were applied to [q], in order. *)
Definition replayed (h : nat → Fact.t) (q : EmotionalQuadrant Qc)
    (sample : list nat) : EmotionalQuadrant Qc :=
  foldl (λ q fact,
           absorbed q (CognitiveSystem.reduceEmotionalImpact
                         (Fact.emotionalImpact (h fact))))
        q sample.

(** A stored pattern of weight 1/2 with a joyful signature, last accessed at
    time 0, and a database that holds it and answers every similarity
    search with its one fact. *)
Definition joyful_pattern : Pattern.t :=
  Pattern.mk "p" ["f"] (Number.Num (1 / 2)) (mkQuadrant 1 0 0 0)%R 0.

Definition joyful_db : DatabaseService.t :=
  DatabaseService.mk [joyful_pattern] (λ _ _ _, ["f"]) 0.

(** A joyful emotional context. *)
Definition joyful_context : list (SupabaseLongTermMemory.EmotionalDimension * R) :=
  SupabaseLongTermMemory.entries (mkQuadrant 1 0 0 0)%R.

(** The facts of the eviction scenarios: A (weight 0.1) at reference 0,
    B (0.9) at 1, C (0.2) at 2 and D (0.5) everywhere else. *)
Definition heap_ABCD : nat → Fact.t :=
  λ l, match l with
       | 0%nat => sample_fact "A" (Q2Qc (1 # 10))
       | 1%nat => sample_fact "B" (Q2Qc (9 # 10))
       | 2%nat => sample_fact "C" (Q2Qc (2 # 10))
       | _ => sample_fact "D" (Q2Qc (5 # 10))
       end.

(** ** index: CognitiveSystem, the sleep-cycle timer

    [startSleepCycle] and [stopSleepCycle].  [sleepCycle] is the field of
    that name (a timer handle or [null]); [intervals] are the interval
    timers active in the runtime, each with its period in milliseconds;
    [setInterval] answers a handle never used before. *)

Module CognitiveSystemTimer.

Record t := mk {
  sleepCycle : option nat;
  intervals : gmap nat Z;
  next_handle : nat
}.

Definition new : t := mk None ∅ 0.

(** [startSleepCycle(intervalHours)]. *)
Definition startSleepCycle (intervalHours : Z) (s : t) : t :=
  match sleepCycle s with
  | Some _ => s
  | None =>
      let intervalMs := (intervalHours * 60 * 60 * 1000)%Z in
      mk (Some (next_handle s))
         (<[next_handle s := intervalMs]> (intervals s))
         (S (next_handle s))
  end.

(** [stopSleepCycle()]. *)
Definition stopSleepCycle (s : t) : t :=
  match sleepCycle s with
  | Some handle => mk None (delete handle (intervals s)) (next_handle s)
  | None => s
  end.

End CognitiveSystemTimer.

(** ** index: CognitiveSystem, weights and signature keys *)

Module CognitiveSystemScoring.

(** [calculateFactWeight(impact)]:
    [Math.min(1, Math.sqrt(joy ** 2 + calm ** 2 + anger ** 2 + sadness ** 2))].
    Squares, sum and root are exact here and rounded in the code; the
    theorems use only that they are monotone and not negative, and their
    values at 0 and 1. *)
Definition calculateFactWeight (impact : EmotionalQuadrant R) : R :=
  let distance := sqrt (joy impact ^ 2 + calm impact ^ 2
                        + anger impact ^ 2 + sadness impact ^ 2)%R in
  Rmin 1 distance.

(** [config.emotional.neutralThreshold]: 0.1. *)
Definition neutralThreshold : Qc := Q2Qc (1 # 10).

(** [parts.join(sep)]. *)
Fixpoint join (sep : string) (parts : list string) : string :=
  match parts with
  | [] => ""
  | [p] => p
  | p :: ps => p +:+ sep +:+ join sep ps
  end.

(** [getEmotionalSignatureKey(signature)]: the names of the components above
    the threshold, joined by ["-"], or ["neutral"] when there is none. *)
Definition getEmotionalSignatureKey (signature : EmotionalQuadrant Qc) : string :=
  let threshold := neutralThreshold in
  let parts :=
    [ if decide (threshold < joy signature) then "joy" else "";
      if decide (threshold < calm signature) then "calm" else "";
      if decide (threshold < anger signature) then "anger" else "";
      if decide (threshold < sadness signature) then "sadness" else "" ] in
  let key := join "-" (filter (λ p, p ≠ "") parts) in
  if decide (key = "") then "neutral" else key.

End CognitiveSystemScoring.

(** ** services/emotional: EmotionalService, intensity and confidence *)

Module EmotionalServiceScoring.

(** [calculateIntensity(quadrant)]. *)
Definition calculateIntensity (quadrant : EmotionalQuadrant R) : R :=
  sqrt (joy quadrant ^ 2 + calm quadrant ^ 2
        + anger quadrant ^ 2 + sadness quadrant ^ 2)%R.

(** [calculateConfidence(impact)]: [0.5 + Math.min(0.5, intensity)].
    Of the arithmetic the theorems use only monotonicity and the values
    that are computed exactly ([0.5 * 0.5], [0.5 + 0.5], the root of 0 and
    of 0.25). *)
Definition calculateConfidence (impact : EmotionalQuadrant R) : R :=
  let intensity := calculateIntensity impact in
  (5 / 10 + Rmin (5 / 10) intensity)%R.

End EmotionalServiceScoring.

(** ** services/emotional: EmotionalService, several facts at once *)

Module EmotionalServiceAggregate.

(** [calculateAggregateImpact(impacts)]: the sum of the impacts, each
    component divided by [impacts.length].  Sum and quotient are exact
    here and rounded in the code; the theorems use only that they are
    monotone, and that [(0 + x) / 1] is [x].  For an empty list the code
    gives [0 / 0]: the theorems are about lists that are not empty. *)
Definition calculateAggregateImpact (impacts : list (EmotionalQuadrant Qc))
    : EmotionalQuadrant Qc :=
  let sum := foldl (λ acc impact,
                      mkQuadrant (joy acc + joy impact) (calm acc + calm impact)
                                 (anger acc + anger impact)
                                 (sadness acc + sadness impact))
                   (mkQuadrant 0 0 0 0) impacts in
  let count := Q2Qc (inject_Z (Z.of_nat (length impacts))) in
  mkQuadrant (joy sum / count) (calm sum / count)
             (anger sum / count) (sadness sum / count).

(** [processFacts(facts)], for facts that carry their [emotionalImpact]. *)
Definition processFacts (rejects : nat → bool) (facts : list Fact.t)
    : M EmotionalService.t (EmotionalQuadrant Qc) :=
  let impacts := Fact.emotionalImpact <$> facts in
  let aggregateImpact := calculateAggregateImpact impacts in
  newState ← gets (EmotionalService.calculateNewState aggregateImpact);
  zoom EmotionalService.dbService EmotionalService.set_dbService
       (remote_insert rejects newState) ;;
  modify (EmotionalService.set_currentState newState) ;;
  ret newState.

End EmotionalServiceAggregate.

(** ** implementations/long-term-memory: SupabaseLongTermMemory.consolidate *)

Module LongTermConsolidation.

(** services/database [removePatterns(patternIds)]:
    [delete ... where id in patternIds]. *)
Definition removePatterns (rejects : nat → bool) (patternIds : list string)
    : M DatabaseService.t unit :=
  DatabaseService.request rejects (λ _, tt)
    (λ db, DatabaseService.set_patterns
             (filter (λ row, Pattern.id row ∉ patternIds)
                     (DatabaseService.patterns db)) db).

(** The ids of the weak patterns:
    [Array.from(this.patterns.values()).filter(p => p.weight <= 0.2).map(p => p.id)]. *)
Definition patternsToRemove (patterns : gmap string Pattern.t) : list string :=
  Pattern.id <$> filter (λ pattern, Number.le (Pattern.weight pattern)
                                              (Number.Num (2 / 10)))
                        (map_to_list patterns).*2.

(** [consolidate()]. *)
Definition consolidate (rejects : nat → bool) : M SupabaseLongTermMemory.t unit :=
  SupabaseLongTermMemory.ensureInitialized rejects ;;
  toRemove ← gets (λ s, patternsToRemove (SupabaseLongTermMemory.patterns s));
  (if decide (0 < length toRemove)%nat
   then SupabaseLongTermMemory.db (removePatterns rejects toRemove)
   else mret tt) ;;
  modify (λ s, SupabaseLongTermMemory.set_patterns
                 (foldl (λ m k, delete k m) (SupabaseLongTermMemory.patterns s)
                        toRemove) s).

End LongTermConsolidation.

(** ** implementations/sensory-memory: SensoryContextMemory

    The in-process part: the context of one input type.  Facts are held by
    reference; [h] is the object store at the time of the call, [now] the
    reading of the clock in [cleanExpiredFacts] and [updated] the reading
    that [lastUpdated] gets. *)

Module SensoryContextMemory.

Record SensoryContext := mkContext {
  type : SensoryInputType;
  recentFacts : list nat;
  contextualMemory : list nat;
  lastUpdated : Z
}.

Record t := mk {
  retentionTime : Z;
  context : SensoryContext
}.

(** [new SensoryContextMemory(name, type, retentionTime)] at time [now]. *)
Definition new (type : SensoryInputType) (retentionTime now : Z) : t :=
  mk retentionTime (mkContext type [] [] now).

(** [cleanExpiredFacts()]. *)
Definition cleanExpiredFacts (h : nat → Fact.t) (now : Z) (s : t) : t :=
  let c := context s in
  mk (retentionTime s)
     (mkContext (type c)
        (filter (λ fact, (now - Fact.timestamp (h fact) < retentionTime s)%Z)
                (recentFacts c))
        (filter (λ fact, (now - Fact.timestamp (h fact) < retentionTime s * 2)%Z)
                (contextualMemory c))
        (lastUpdated c)).

(** [getContext()]: the context after the expired facts are dropped. *)
Definition getContext (h : nat → Fact.t) (now : Z) (s : t) : SensoryContext * t :=
  let s' := cleanExpiredFacts h now s in (context s', s').

(** [updateContext(fact)]. *)
Definition updateContext (h : nat → Fact.t) (updated now : Z) (fact : nat) (s : t)
    : t :=
  let c := context s in
  let contextual :=
    if decide (Q2Qc (5 # 10) < Fact.weight (h fact))
    then contextualMemory c ++ [fact] else contextualMemory c in
  cleanExpiredFacts h now
    (mk (retentionTime s)
        (mkContext (type c) (recentFacts c ++ [fact]) contextual updated)).

(** [clearContext()]. *)
Definition clearContext (updated : Z) (s : t) : t :=
  mk (retentionTime s) (mkContext (type (context s)) [] [] updated).

End SensoryContextMemory.

(** ** Vocabulary of the further properties *)

(** A real quadrant within [-1, 1]. *)
Definition Rwithin_bounds (x : R) : Prop := (-1 <= x <= 1)%R.

Definition Rin_range (q : EmotionalQuadrant R) : Prop :=
  Rwithin_bounds (joy q) ∧ Rwithin_bounds (calm q)
  ∧ Rwithin_bounds (anger q) ∧ Rwithin_bounds (sadness q).

(** A sequence of calls of any kind on a working memory. *)
Definition run_calls (cs : list call) (s : LRUWorkingMemory.t) : LRUWorkingMemory.t :=
  foldl (λ s c, run_call c s) s cs.

(** [fs] is in descending order of weight: each fact weighs at least as
    much as every fact after it. *)
Definition descending (h : nat → Fact.t) (fs : list nat) : Prop :=
  StronglySorted (λ x y, Fact.weight (h y) ≤ Fact.weight (h x)) fs.

(** The calls on the sleep-cycle timer. *)
Inductive timer_call := Start (intervalHours : Z) | Stop.

Definition run_timer_call (c : timer_call) (s : CognitiveSystemTimer.t)
    : CognitiveSystemTimer.t :=
  match c with
  | Start intervalHours => CognitiveSystemTimer.startSleepCycle intervalHours s
  | Stop => CognitiveSystemTimer.stopSleepCycle s
  end.

(** The only interval timer active, if any, is the one the field
    [sleepCycle] holds. *)
Definition timer_held (s : CognitiveSystemTimer.t) : Prop :=
  match CognitiveSystemTimer.sleepCycle s with
  | Some handle => ∃ period, CognitiveSystemTimer.intervals s = {[ handle := period ]}
  | None => CognitiveSystemTimer.intervals s = ∅
  end.

(** The sum of the squares of the components of a quadrant. *)
Definition sum_of_squares (q : EmotionalQuadrant R) : R :=
  (joy q ^ 2 + calm q ^ 2 + anger q ^ 2 + sadness q ^ 2)%R.

(** The key that belongs to the components above the threshold, in the
    order joy, calm, anger, sadness. *)
Definition key_of (above : list bool) : string :=
  let names := zip_with (λ (b : bool) name, if b then [name] else [])
                        above ["joy"; "calm"; "anger"; "sadness"] in
  match concat names with
  | [] => "neutral"
  | parts => CognitiveSystemScoring.join "-" parts
  end.

(** The sum of two quadrants, the step of the aggregate. *)
Definition sum_step (acc impact : EmotionalQuadrant Qc) : EmotionalQuadrant Qc :=
  mkQuadrant (joy acc + joy impact) (calm acc + calm impact)
             (anger acc + anger impact) (sadness acc + sadness impact).

(** Every pattern of the map is held under its own id. *)
Definition keyed (m : gmap string Pattern.t) : Prop :=
  ∀ k pattern, m !! k = Some pattern → Pattern.id pattern = k.

(** The calls on the patterns of a long-term memory. *)
Inductive pattern_call :=
  | StorePattern (pattern : Pattern.t)
  | FindSimilarPatterns (embedding : list R) (threshold : R)
      (emotionalContext : option SupabaseLongTermMemory.EmotionalContext)
  | StrengthenPattern (now : Z) (patternId : string) (amount : R)
      (emotionalContext : option SupabaseLongTermMemory.EmotionalContext)
  | ConsolidatePatterns.

Definition run_pattern_call (rejects : nat → bool) (c : pattern_call)
    : M SupabaseLongTermMemory.t unit :=
  match c with
  | StorePattern pattern => SupabaseLongTermMemory.storePattern rejects pattern
  | FindSimilarPatterns embedding threshold emotionalContext =>
      SupabaseLongTermMemory.findSimilarPatterns rejects embedding threshold
        emotionalContext ;; mret tt
  | StrengthenPattern now patternId amount emotionalContext =>
      SupabaseLongTermMemory.strengthenPattern rejects now patternId amount
        emotionalContext
  | ConsolidatePatterns => LongTermConsolidation.consolidate rejects
  end.

(** The weights that [consolidate] removes, 0.2 or less, and those it
    keeps: a number above 0.2, or [NaN], which fails the comparison. *)
Definition weak_weight (w : Number.t) : Prop := Number.le w (Number.Num (2 / 10)).

Definition kept_weight (w : Number.t) : Prop :=
  match w with
  | Number.Num x => (2 / 10 < x)%R
  | Number.NaN => True
  end.

(** The values of an emotional context are within [-1, 1]. *)
Definition context_in_range (context : SupabaseLongTermMemory.EmotionalContext) : Prop :=
  Forall (λ entry, Rwithin_bounds entry.2) context.

(** A pattern of weight 0.1 and one of weight 0.9, both with a joyful
    signature, and a memory that holds them in its map and its database. *)
Definition weak_pattern : Pattern.t :=
  Pattern.mk "weak" ["f"] (Number.Num (1 / 10)) (mkQuadrant 1 0 0 0)%R 0.

Definition strong_pattern : Pattern.t :=
  Pattern.mk "strong" ["f"] (Number.Num (9 / 10)) (mkQuadrant 1 0 0 0)%R 0.

Definition two_patterns : SupabaseLongTermMemory.t :=
  SupabaseLongTermMemory.mk
    (<["weak" := weak_pattern]> {[ "strong" := strong_pattern ]}) true
    (DatabaseService.mk [weak_pattern; strong_pattern] (λ _ _ _, ["f"]) 0).

(** The components of a signature that are above the neutral threshold. *)
Definition above_threshold (signature : EmotionalQuadrant Qc) : list bool :=
  [ bool_decide (CognitiveSystemScoring.neutralThreshold < joy signature);
    bool_decide (CognitiveSystemScoring.neutralThreshold < calm signature);
    bool_decide (CognitiveSystemScoring.neutralThreshold < anger signature);
    bool_decide (CognitiveSystemScoring.neutralThreshold < sadness signature) ].

(** The calls on a sensory context memory that keep its context (all but
    [addContext]), each with the reading of the clock. *)
Inductive context_call :=
  | GetContext (now : Z)
  | UpdateContext (updated now : Z) (fact : nat)
  | ClearContext (updated : Z).

Definition run_context_call (h : nat → Fact.t) (c : context_call)
    (s : SensoryContextMemory.t) : SensoryContextMemory.t :=
  match c with
  | GetContext now => (SensoryContextMemory.getContext h now s).2
  | UpdateContext updated now fact =>
      SensoryContextMemory.updateContext h updated now fact s
  | ClearContext updated => SensoryContextMemory.clearContext updated s
  end.

(** The context holds only heavy facts in its contextual memory, and every
    heavy recent fact is in the contextual memory. *)
Definition heavy (h : nat → Fact.t) (fact : nat) : Prop :=
  Q2Qc (5 # 10) < Fact.weight (h fact).

Definition heavy_kept (h : nat → Fact.t) (s : SensoryContextMemory.t) : Prop :=
  (∀ fact, fact ∈ SensoryContextMemory.contextualMemory (SensoryContextMemory.context s) →
           heavy h fact)
  ∧ (∀ fact, fact ∈ SensoryContextMemory.recentFacts (SensoryContextMemory.context s) →
             heavy h fact →
             fact ∈ SensoryContextMemory.contextualMemory (SensoryContextMemory.context s)).

(** Facts with a time stamp: reference [n] was made at time [100 * n] and
    weighs 0.9. *)
Definition heap_timed : nat → Fact.t :=
  λ n, Fact.mk "f" "" read_text (100 * Z.of_nat n) [] (mkQuadrant 0 0 0 0)
         (Q2Qc (9 # 10)).

(** Every recent fact is younger than the retention time and every fact of
    the contextual memory younger than twice that, at time [now]. *)
Definition fresh_at (h : nat → Fact.t) (now : Z) (s : SensoryContextMemory.t) : Prop :=
  (∀ fact, fact ∈ SensoryContextMemory.recentFacts (SensoryContextMemory.context s) →
           (now - Fact.timestamp (h fact) < SensoryContextMemory.retentionTime s)%Z)
  ∧ (∀ fact, fact ∈ SensoryContextMemory.contextualMemory (SensoryContextMemory.context s) →
             (now - Fact.timestamp (h fact) < SensoryContextMemory.retentionTime s * 2)%Z).

(** [x'] is [x] or farther from zero on the same side; [x'] is between zero
    and [x]. *)
Definition away_from_zero (x x' : Qc) : Prop :=
  (0 ≤ x → x ≤ x') ∧ (x ≤ 0 → x' ≤ x).

Definition toward_zero (x x' : Qc) : Prop :=
  (0 ≤ x → 0 ≤ x' ∧ x' ≤ x) ∧ (x ≤ 0 → x ≤ x' ∧ x' ≤ 0).

(** A relation that holds of each component of two quadrants. *)
Definition componentwise (P : Qc → Qc → Prop) (q q' : EmotionalQuadrant Qc) : Prop :=
  P (joy q) (joy q') ∧ P (calm q) (calm q')
  ∧ P (anger q) (anger q') ∧ P (sadness q) (sadness q').

(** * Properties *)

(** ** Working memory *)

Section WorkingMemory.
Import LRUWorkingMemory.

Lemma facts_evictOldest s :
  facts (evictOldest s) = drop 1 (facts s).
Proof. unfold evictOldest. by destruct (facts s) eqn:E. Qed.

Lemma facts_evictByWeight s :
  facts (evictByWeight s) = delete (minWeightIndex (heap s) (facts s)) (facts s).
Proof.
  unfold evictByWeight. destruct (facts s) eqn:E; simpl; [by rewrite E|done].
Qed.

Lemma heap_evictIfFull s : heap (evictIfFull s) = heap s.
Proof.
  unfold evictIfFull, evictOldest, evictByWeight.
  case_decide; [|done].
  by destruct (evictionStrategy s) eqn:?, (facts s) eqn:?.
Qed.

Lemma maxSize_evictIfFull s : maxSize (evictIfFull s) = maxSize s.
Proof.
  unfold evictIfFull, evictOldest, evictByWeight.
  case_decide; [|done].
  by destruct (evictionStrategy s) eqn:?, (facts s) eqn:?.
Qed.

Lemma evictionStrategy_evictIfFull s :
  evictionStrategy (evictIfFull s) = evictionStrategy s.
Proof.
  unfold evictIfFull, evictOldest, evictByWeight.
  case_decide; [|done].
  by destruct (evictionStrategy s) eqn:?, (facts s) eqn:?.
Qed.

Lemma facts_addFact fact s :
  facts (addFact fact s) = facts (evictIfFull s) ++ [fact].
Proof. done. Qed.

(** The scan returns the lowest index of a minimal weight. *)
Lemma scan_first_min (w : nat → Qc) n : ∀ a m,
  first_min w a m → first_min w (a + n) (foldl (scan_step w) m (seq a n)).
Proof.
  induction n as [|n IH]; intros a m (Hlt & Hmin & Hfirst); simpl.
  { replace (a + 0)%nat with a by lia. done. }
  replace (a + S n)%nat with (S a + n)%nat by lia.
  apply IH. unfold scan_step. case_decide as Hw.
  - split; [lia|]. split.
    + intros j Hj. destruct (decide (j = a)) as [->|]; [done|].
      apply Qclt_le_weak, Qclt_le_trans with (w m); [done|]. apply Hmin. lia.
    + intros j Hj. apply Qclt_le_trans with (w m); [done|]. by apply Hmin.
  - split; [lia|]. split; [|done].
    intros j Hj. destruct (decide (j = a)) as [->|].
    + by apply Qcnot_lt_le.
    + apply Hmin. lia.
Qed.

Lemma minWeightIndex_spec h (fs : list loc) :
  fs ≠ [] →
  first_min (λ j, Fact.weight (h (fs !!! j))) (length fs) (minWeightIndex h fs).
Proof.
  intros Hne. unfold minWeightIndex.
  pose proof (scan_first_min (λ j, Fact.weight (h (fs !!! j)))
                (length fs - 1) 1 0) as H.
  destruct fs as [|f fs]; [done|]. simpl in *.
  replace (length fs - 0)%nat with (length fs) in * by lia.
  apply H. split; [lia|]. split.
  - intros j Hj. by replace j with 0%nat by lia.
  - intros j Hj. lia.
Qed.

Lemma length_facts_evictIfFull s :
  (maxSize s ≤ Z.of_nat (length (facts s)))%Z →
  length (facts (evictIfFull s)) = (length (facts s) - 1)%nat.
Proof.
  intros Hfull. unfold evictIfFull. rewrite decide_True by done.
  destruct (evictionStrategy s).
  - rewrite facts_evictOldest, length_drop. done.
  - rewrite facts_evictByWeight.
    destruct (facts s) as [|f fs] eqn:E; [done|].
    pose proof (minWeightIndex_spec (heap s) (f :: fs)) as (Hi & _); [done|].
    rewrite length_delete; [done|]. by apply lookup_lt_is_Some_2.
Qed.

Lemma evictIfFull_sublist s : facts (evictIfFull s) `sublist_of` facts s.
Proof.
  unfold evictIfFull. case_decide; [|done].
  destruct (evictionStrategy s).
  - rewrite facts_evictOldest. apply sublist_drop.
  - rewrite facts_evictByWeight. apply sublist_delete.
Qed.

Lemma addFact_step_capacity fact s :
  (1 ≤ maxSize s)%Z →
  (Z.of_nat (length (facts s)) ≤ maxSize s)%Z →
  (Z.of_nat (length (facts (addFact fact s))) ≤ maxSize s)%Z.
Proof.
  intros Hpos Hinv. rewrite facts_addFact, length_app. simpl.
  destruct (decide (maxSize s ≤ Z.of_nat (length (facts s)))%Z) as [Hfull|Hfree].
  - rewrite length_facts_evictIfFull by done. lia.
  - unfold evictIfFull. rewrite decide_False by done. lia.
Qed.

Lemma maxSize_addFact fact s : maxSize (addFact fact s) = maxSize s.
Proof. unfold addFact. simpl. apply maxSize_evictIfFull. Qed.

Lemma maxSize_addFacts fs s : maxSize (addFacts fs s) = maxSize s.
Proof.
  unfold addFacts. revert s. induction fs as [|f fs IH]; intros s; [done|].
  simpl. by rewrite IH, maxSize_addFact.
Qed.

Lemma addFacts_capacity fs s :
  (1 ≤ maxSize s)%Z →
  (Z.of_nat (length (facts s)) ≤ maxSize s)%Z →
  (Z.of_nat (length (facts (addFacts fs s))) ≤ maxSize s)%Z.
Proof.
  unfold addFacts. revert s.
  induction fs as [|f fs IH]; intros s Hpos Hinv; [done|].
  simpl. rewrite <-(maxSize_addFact f s).
  apply IH; rewrite maxSize_addFact; [done|].
  by apply addFact_step_capacity.
Qed.

Lemma heap_addFact fact s : heap (addFact fact s) = heap s.
Proof. unfold addFact. simpl. apply heap_evictIfFull. Qed.

Lemma evictionStrategy_addFact fact s :
  evictionStrategy (addFact fact s) = evictionStrategy s.
Proof. unfold addFact. simpl. apply evictionStrategy_evictIfFull. Qed.

(** Below the capacity nothing is evicted. *)
Lemma addFacts_below_capacity fs : ∀ s,
  (Z.of_nat (length (facts s) + length fs) ≤ maxSize s)%Z →
  facts (addFacts fs s) = facts s ++ fs
  ∧ heap (addFacts fs s) = heap s
  ∧ maxSize (addFacts fs s) = maxSize s
  ∧ evictionStrategy (addFacts fs s) = evictionStrategy s.
Proof.
  unfold addFacts. induction fs as [|f fs IH]; intros s Hlen; simpl.
  { by rewrite app_nil_r. }
  simpl in Hlen.
  assert (facts (addFact f s) = facts s ++ [f]) as Hf.
  { rewrite facts_addFact. unfold evictIfFull. rewrite decide_False; [done|lia]. }
  destruct (IH (addFact f s)) as (-> & -> & -> & ->).
  { rewrite Hf, length_app, maxSize_addFact. simpl. lia. }
  rewrite Hf, <-app_assoc, heap_addFact, maxSize_addFact, evictionStrategy_addFact.
  done.
Qed.

Lemma addFacts_app fs gs s : addFacts (fs ++ gs) s = addFacts gs (addFacts fs s).
Proof. unfold addFacts. apply foldl_app. Qed.

Lemma NoDup_lookup_delete (l : list loc) i x :
  NoDup l → l !! i = Some x →
  (x ∉ delete i l) ∧ (∀ y, y ∈ l → y ≠ x → y ∈ delete i l).
Proof.
  intros Hnd Hi. rewrite delete_take_drop.
  rewrite <-(take_drop_middle l i x Hi) in Hnd.
  apply NoDup_app in Hnd as (_ & Hdisj & Hnd).
  apply NoDup_cons in Hnd as (Hx & _). split.
  - rewrite elem_of_app. intros [Hin|Hin]; [|done].
    apply (Hdisj x Hin). left.
  - intros y Hy Hne. rewrite <-(take_drop_middle l i x Hi) in Hy.
    rewrite elem_of_app, elem_of_cons in Hy. rewrite elem_of_app.
    destruct Hy as [?|[?|?]]; [by left|done|by right].
Qed.
End WorkingMemory.

(** *** The id index and the buffer *)

Section Consistency.
Import LRUWorkingMemory.

Lemma NoDup_fmap_inj_on {A B} (f : A → B) (l : list A) x y :
  NoDup (f <$> l) → x ∈ l → y ∈ l → f x = f y → x = y.
Proof.
  induction l as [|a l IH]; simpl; intros Hnd Hx Hy Heq.
  { by apply not_elem_of_nil in Hx. }
  apply NoDup_cons in Hnd as (Ha & Hnd).
  apply elem_of_cons in Hx as [->|Hx], Hy as [->|Hy]; [done| | |by apply IH].
  - exfalso. apply Ha. rewrite Heq. by apply list_elem_of_fmap_2.
  - exfalso. apply Ha. rewrite <-Heq. by apply list_elem_of_fmap_2.
Qed.

Lemma consistent_on_nil h : consistent_on h ∅ [].
Proof.
  split; [constructor|]. intros k l. rewrite lookup_empty. split; [done|].
  intros [Hl _]. by apply not_elem_of_nil in Hl.
Qed.

(** The invariant reads the object store through the ids only. *)
Lemma consistent_on_ids h h' m fs :
  (∀ l, Fact.id (h' l) = Fact.id (h l)) →
  consistent_on h m fs → consistent_on h' m fs.
Proof.
  intros Hid (Hnd & Hm). split.
  - unfold ids_of in *. erewrite list_fmap_ext; [exact Hnd|].
    intros _ l _. apply Hid.
  - intros k l. rewrite Hid. apply Hm.
Qed.

Lemma consistent_on_Permutation h m fs fs' :
  fs ≡ₚ fs' → consistent_on h m fs → consistent_on h m fs'.
Proof.
  intros Hp (Hnd & Hm). split.
  - unfold ids_of in *. by rewrite <-Hp.
  - intros k l. rewrite <-Hp. apply Hm.
Qed.

(** Removing one fact from the buffer and its id from the map. *)
Lemma consistent_on_remove h m l1 x l2 :
  consistent_on h m (l1 ++ x :: l2) →
  consistent_on h (delete (Fact.id (h x)) m) (l1 ++ l2).
Proof.
  intros Hc.
  apply (consistent_on_Permutation _ _ _ (x :: l1 ++ l2)) in Hc;
    [|by rewrite Permutation_middle].
  destruct Hc as (Hnd & Hm). unfold ids_of in Hnd. simpl in Hnd.
  apply NoDup_cons in Hnd as (Hx & Hnd). split; [done|].
  intros k l. rewrite lookup_delete_Some, Hm, elem_of_cons. split.
  - intros (Hne & [->|Hl] & Hk); [done|done].
  - intros (Hl & Hk). split; [|by split; [right|]].
    intros <-. apply Hx. rewrite <-Hk. by apply list_elem_of_fmap_2' with l.
Qed.

(** Appending a fact whose id is new and indexing it. *)
Lemma consistent_on_append h m fs x :
  Fact.id (h x) ∉ ids_of h fs →
  consistent_on h m fs →
  consistent_on h (<[Fact.id (h x) := x]> m) (fs ++ [x]).
Proof.
  intros Hx (Hnd & Hm).
  apply (consistent_on_Permutation _ _ (x :: fs)); [by rewrite Permutation_cons_append|].
  split.
  - unfold ids_of. simpl. by apply NoDup_cons.
  - intros k l. rewrite lookup_insert_Some, Hm, elem_of_cons. split.
    + intros [(<- & <-)|(Hne & Hl & Hk)]; [by split; [left|]|by split; [right|]].
    + intros ([->|Hl] & Hk); [by left|]. right. split; [|done].
      intros Heq. apply Hx. rewrite Heq, <-Hk. by apply list_elem_of_fmap_2' with l.
Qed.

Lemma consistent_on_filter h m fs k :
  consistent_on h m fs →
  consistent_on h (delete k m) (filter (λ f, Fact.id (h f) ≠ k) fs).
Proof.
  intros (Hnd & Hm). split.
  - unfold ids_of in *. apply NoDup_fmap_2_strong.
    + intros x y Hx%list_elem_of_filter Hy%list_elem_of_filter Heq.
      destruct Hx as [_ Hx], Hy as [_ Hy].
      by apply (NoDup_fmap_inj_on (λ l, Fact.id (h l)) fs).
    + apply NoDup_filter. by apply NoDup_fmap_1 in Hnd.
  - intros k' l. rewrite lookup_delete_Some, Hm, list_elem_of_filter. split.
    + intros (Hne & Hl & Hk). split; [|done]. split; [|done]. congruence.
    + intros ((Hne & Hl) & Hk). split; [congruence|done].
Qed.

Lemma consistent_evictOldest s : consistent s → consistent (evictOldest s).
Proof.
  unfold consistent, evictOldest. intros Hc.
  destruct (facts s) as [|e rest] eqn:E; [by rewrite E|]. simpl.
  by apply (consistent_on_remove _ _ [] e rest).
Qed.

Lemma consistent_evictByWeight s : consistent s → consistent (evictByWeight s).
Proof.
  unfold consistent, evictByWeight. intros Hc.
  destruct (facts s) as [|f fs] eqn:E; [by rewrite E|]. simpl.
  destruct (minWeightIndex_spec (heap s) (f :: fs)) as (Hi & _); [done|].
  set (i := minWeightIndex (heap s) (f :: fs)) in *.
  assert ((f :: fs) !! i = Some ((f :: fs) !!! i)) as Hlook.
  { by apply list_lookup_lookup_total_lt. }
  change (consistent_on (heap s) (delete (Fact.id (heap s ((f :: fs) !!! i))) (factMap s))
            (delete i (f :: fs))).
  rewrite delete_take_drop. apply consistent_on_remove.
  by rewrite (take_drop_middle _ _ _ Hlook).
Qed.

Lemma consistent_evictIfFull s : consistent s → consistent (evictIfFull s).
Proof.
  intros Hc. unfold evictIfFull. case_decide; [|done].
  destruct (evictionStrategy s);
    [by apply consistent_evictOldest|by apply consistent_evictByWeight].
Qed.

Lemma consistent_addFact fact s :
  consistent s →
  Fact.id (heap s fact) ∉ ids_of (heap s) (facts s) →
  consistent (addFact fact s).
Proof.
  intros Hc Hfresh. apply consistent_evictIfFull in Hc.
  unfold consistent, addFact in *. simpl.
  apply consistent_on_append; [|done].
  rewrite heap_evictIfFull. intros Hin. apply Hfresh.
  unfold ids_of in *. eapply elem_of_sublist; [exact Hin|].
  apply fmap_sublist, evictIfFull_sublist.
Qed.

Lemma consistent_delete k s : consistent s → consistent (delete_ k s).
Proof. unfold consistent, delete_. simpl. apply consistent_on_filter. Qed.

Lemma consistent_clear s : consistent (clear s).
Proof. unfold consistent, clear. simpl. apply consistent_on_nil. Qed.

(** [findIndex] finds the first fact of the given id. *)
Lemma findIndex_Some h k fs i :
  findIndex h k fs = Some i →
  ∃ l1 x l2, fs = l1 ++ x :: l2 ∧ length l1 = i ∧ Fact.id (h x) = k.
Proof.
  revert i. induction fs as [|f fs IH]; intros i; simpl; [done|].
  case_decide as Hf.
  - intros [= <-]. by exists [], f, fs.
  - destruct (findIndex h k fs) as [j|]; [|done]. intros [= <-].
    destruct (IH j eq_refl) as (l1 & x & l2 & -> & <- & Hx).
    by exists (f :: l1), x, l2.
Qed.

Lemma findIndex_None h k fs :
  findIndex h k fs = None → k ∉ ids_of h fs.
Proof.
  induction fs as [|f fs IH]; simpl; [intros _; apply not_elem_of_nil|].
  case_decide as Hf; [done|].
  destruct (findIndex h k fs); [done|]. intros _.
  unfold ids_of in *. simpl. rewrite elem_of_cons. intros [?|?]; [done|by apply IH].
Qed.

Lemma consistent_update k item s :
  consistent s →
  Fact.id (heap s item) = k →
  consistent (match update k item s with inl s' | inr s' => s' end).
Proof.
  intros Hc Hid. unfold update.
  destruct (factMap s !! k) as [old|] eqn:Hold; [|done].
  destruct Hc as (Hnd & Hm).
  destruct (findIndex (heap s) k (facts s)) as [index|] eqn:Hfind.
  2: { apply findIndex_None in Hfind. apply Hm in Hold as (Hin & Hk).
       exfalso. apply Hfind. rewrite <-Hk. by apply list_elem_of_fmap_2' with old. }
  apply findIndex_Some in Hfind as (l1 & x & l2 & Hfs & Hlen & Hx).
  assert (consistent_on (heap s) (<[k := item]> (factMap s)) ((l1 ++ l2) ++ [item]))
    as Hnew.
  { replace (<[k := item]> (factMap s))
      with (<[Fact.id (heap s item) := item]>
              (delete (Fact.id (heap s x)) (factMap s)))
      by (rewrite Hid, Hx; apply insert_delete_eq).
    apply consistent_on_append.
    - rewrite Hid, <-Hx. rewrite Hfs in Hnd.
      unfold ids_of in *. rewrite fmap_app, fmap_cons in Hnd.
      apply NoDup_app in Hnd as (_ & Hdisj & Hnd2).
      apply NoDup_cons in Hnd2 as (Hx2 & _).
      rewrite fmap_app, elem_of_app. intros [Hin|Hin]; [|done].
      apply (Hdisj _ Hin). left.
    - apply consistent_on_remove. rewrite <-Hfs. by split. }
  assert (<[index := item]> (facts s) = l1 ++ item :: l2) as Hins.
  { rewrite Hfs, <-Hlen. rewrite insert_app_r_alt by lia.
    by replace (length l1 - length l1)%nat with 0%nat by lia. }
  unfold consistent. destruct (evictionStrategy s); simpl; rewrite Hins.
  - rewrite <-Hlen, delete_middle. done.
  - eapply consistent_on_Permutation; [|exact Hnew].
    by rewrite <-(Permutation_middle l1 l2 item), <-Permutation_cons_append.
Qed.

(** The [forEach] of [consolidate] keeps the buffer and the ids; it
    leaves the map as it is when the map indexes the facts visited. *)
Lemma normalize_fold mw ls : ∀ s,
  facts (foldl (normalize mw) s ls) = facts s
  ∧ (∀ l, Fact.id (heap (foldl (normalize mw) s ls) l) = Fact.id (heap s l))
  ∧ ((∀ l, l ∈ ls → factMap s !! Fact.id (heap s l) = Some l) →
     factMap (foldl (normalize mw) s ls) = factMap s).
Proof.
  induction ls as [|x ls IH]; intros s; simpl; [done|].
  destruct (IH (normalize mw s x)) as (Hf & Hid & Hmap).
  assert (∀ l, Fact.id (heap (normalize mw s x) l) = Fact.id (heap s l)) as Hid1.
  { intros l. unfold normalize. simpl.
    destruct (decide (x = l)) as [->|Hne].
    - by rewrite fn_lookup_insert.
    - by rewrite fn_lookup_insert_ne. }
  split; [by rewrite Hf|]. split.
  { intros l. by rewrite Hid, Hid1. }
  intros Hin. rewrite Hmap.
  - unfold normalize. simpl. apply insert_id, Hin. left.
  - intros l Hl. rewrite Hid1. unfold normalize at 1. simpl.
    rewrite insert_id; [apply Hin; by right|apply Hin; left].
Qed.

Lemma consistent_consolidate s : consistent s → consistent (consolidate s).
Proof.
  intros Hc. unfold consolidate.
  destruct (Math_max_list _) as [mw|]; [|done].
  case_decide; [|done].
  destruct (normalize_fold mw (facts s) s) as (Hf & Hid & Hmap).
  unfold consistent. rewrite Hf, Hmap.
  - by apply (consistent_on_ids (heap s)).
  - intros l Hl. by apply Hc.
Qed.

Lemma consistent_same_facts s : consistent s → same_facts s.
Proof.
  intros (_ & Hm). split.
  - intros l Hl. by apply Hm.
  - intros k l Hk. by apply Hm in Hk as (? & _).
Qed.

Lemma consistent_run_call c s :
  consistent s → admissible c s → consistent (run_call c s).
Proof.
  intros Hc Ha. destruct c; simpl in *.
  - by apply consistent_addFact.
  - by apply consistent_update.
  - by apply consistent_delete.
  - by apply consistent_evictOldest.
  - by apply consistent_evictByWeight.
  - apply consistent_clear.
  - by apply consistent_consolidate.
Qed.

Lemma reachable_consistent s : reachable s → consistent s.
Proof.
  induction 1 as [h capacity strategy|s c _ IH Ha].
  - apply consistent_on_nil.
  - by apply consistent_run_call.
Qed.
End Consistency.

(** *** Normalisation of the weights *)

Section Consolidate.
Import LRUWorkingMemory.

Lemma Math_max_le_l x y : x ≤ Math_max x y.
Proof. unfold Math_max. case_decide; [done|apply Qcle_refl]. Qed.

Lemma Math_max_le_r x y : y ≤ Math_max x y.
Proof.
  unfold Math_max. case_decide as H; [apply Qcle_refl|].
  by apply Qclt_le_weak, Qcnot_le_lt.
Qed.

Lemma Math_max_cases x y : Math_max x y = x ∨ Math_max x y = y.
Proof. unfold Math_max. case_decide; auto. Qed.

Lemma Math_max_list_fold ws : ∀ a,
  ∃ m, foldl (λ acc w, match acc with
                       | None => Some w
                       | Some m => Some (Math_max m w)
                       end) (Some a) ws = Some m
       ∧ (m = a ∨ m ∈ ws) ∧ a ≤ m ∧ ∀ w, w ∈ ws → w ≤ m.
Proof.
  induction ws as [|w ws IH]; intros a; simpl.
  { exists a. split; [done|]. split; [by left|]. split; [apply Qcle_refl|].
    intros w Hw. by apply not_elem_of_nil in Hw. }
  destruct (IH (Math_max a w)) as (m & Hm & Hin & Hle & Hall).
  exists m. split; [done|]. split; [|split].
  - destruct Hin as [->|Hin]; [|by right; right].
    destruct (Math_max_cases a w) as [->| ->]; [by left|right; left].
  - eapply Qcle_trans; [apply Math_max_le_l|done].
  - intros w' [->|Hw']%elem_of_cons; [|by apply Hall].
    eapply Qcle_trans; [apply Math_max_le_r|done].
Qed.

(** [Math.max(...ws)] is the greatest element of a non-empty [ws]. *)
Lemma Math_max_list_Some ws m :
  Math_max_list ws = Some m ↔ m ∈ ws ∧ ∀ w, w ∈ ws → w ≤ m.
Proof.
  unfold Math_max_list. destruct ws as [|a ws]; simpl.
  { split; [done|]. intros [H _]. by apply not_elem_of_nil in H. }
  destruct (Math_max_list_fold ws a) as (m' & -> & Hin & Hle & Hall).
  split.
  - intros [= <-]. split.
    + destruct Hin as [->|?]; [left|by right].
    + intros w [->|?]%elem_of_cons; [done|by apply Hall].
  - intros (Hm & Hmax). f_equal. apply Qcle_antisym.
    + apply Hmax. destruct Hin as [->|?]; [left|by right].
    + apply elem_of_cons in Hm as [->|Hm]; [done|by apply Hall].
Qed.

Lemma Math_max_list_None ws : Math_max_list ws = None ↔ ws = [].
Proof.
  unfold Math_max_list. destruct ws as [|a ws]; simpl; [done|].
  destruct (Math_max_list_fold ws a) as (m' & -> & _). done.
Qed.

Lemma consolidate_unfold s :
  consolidate s
  = match Math_max_list (weights s) with
    | Some maxWeight =>
        if decide (0 < maxWeight)
        then foldl (normalize maxWeight) s (facts s) else s
    | None => s
    end.
Proof. done. Qed.

Lemma Qcdiv_le_mono x y d : 0 < d → x ≤ y → x / d ≤ y / d.
Proof.
  intros Hd Hxy. unfold Qcdiv.
  by apply Qcmult_le_mono_pos_r; [apply Qcinv_pos|].
Qed.

Lemma Qcdiv_diag d : 0 < d → d / d = 1.
Proof.
  intros Hd. unfold Qcdiv. apply Qcmult_inv_r.
  intros ->. by apply Qclt_not_eq in Hd.
Qed.

(** Dividing all the weights by their positive maximum makes 1 the
    maximum. *)
Lemma Math_max_list_div ws m :
  Math_max_list ws = Some m → 0 < m →
  Math_max_list ((λ w, w / m) <$> ws) = Some 1.
Proof.
  intros (Hin & Hmax)%Math_max_list_Some Hpos.
  apply Math_max_list_Some. split.
  - rewrite <-(Qcdiv_diag m Hpos). by apply (list_elem_of_fmap_2 (λ w, w / m)).
  - intros w (w' & -> & Hw')%list_elem_of_fmap.
    rewrite <-(Qcdiv_diag m Hpos). apply Qcdiv_le_mono; [done|by apply Hmax].
Qed.

Lemma normalized_1 f : normalized 1 f = f.
Proof.
  unfold normalized, Fact.set_weight. destruct f; simpl.
  by rewrite (right_id 1 Qcdiv).
Qed.

(** When no object is visited twice, the [forEach] of [consolidate]
    divides the weight of each visited object once. *)
Lemma normalize_fold_heap mw ls : ∀ s,
  NoDup ls →
  ∀ l, heap (foldl (normalize mw) s ls) l
       = if decide (l ∈ ls) then normalized mw (heap s l) else heap s l.
Proof.
  induction ls as [|x ls IH]; intros s Hnd l.
  { rewrite decide_False; [done|apply not_elem_of_nil]. }
  change (foldl (normalize mw) s (x :: ls))
    with (foldl (normalize mw) (normalize mw s x) ls).
  apply NoDup_cons in Hnd as (Hx & Hnd). rewrite (IH _ Hnd).
  assert (heap (normalize mw s x) = <[x := normalized mw (heap s x)]> (heap s))
    as -> by done.
  destruct (decide (l = x)) as [->|Hne].
  - rewrite (decide_False (P := x ∈ ls)) by done.
    rewrite (decide_True (P := x ∈ x :: ls)) by left.
    by rewrite fn_lookup_insert.
  - rewrite fn_lookup_insert_ne by done.
    destruct (decide (l ∈ ls)) as [Hl|Hl].
    + rewrite decide_True; [done|by right].
    + rewrite decide_False; [done|]. by intros [?|?]%elem_of_cons.
Qed.

Lemma weights_normalize_fold mw s :
  NoDup (facts s) →
  weights (foldl (normalize mw) s (facts s)) = (λ w, w / mw) <$> weights s.
Proof.
  intros Hnd. unfold weights.
  destruct (normalize_fold mw (facts s) s) as (-> & _).
  rewrite <-list_fmap_compose. apply list_fmap_ext. intros i l Hl. simpl.
  rewrite normalize_fold_heap by done.
  rewrite decide_True; [done|]. by eapply list_elem_of_lookup_2.
Qed.
End Consolidate.

Section WorkingMemoryClaims.
Import LRUWorkingMemory.

(** The eviction scenarios: capacity 3, facts A, B, C, D inserted in
    order.  Under either strategy A is evicted (it is the oldest, and the
    lightest of A, B, C). *)
Example scenario_recency :
  getFacts (addFacts [0; 1; 2; 3]%nat (new heap_ABCD 3 Lru)) = [1; 2; 3]%nat.
Proof. reflexivity. Qed.

Example scenario_weight :
  getFacts (addFacts [0; 1; 2; 3]%nat (new heap_ABCD 3 Weight)) = [1; 2; 3]%nat.
Proof. reflexivity. Qed.

Example scenario_retrieve :
  let s := addFacts [0; 1; 2; 3]%nat (new heap_ABCD 3 Weight) in
  (retrieve "A" s).1 = None ∧ (retrieve "D" s).1 = Some 3%nat.
Proof. split; reflexivity. Qed.

(** The two heaviest facts, heaviest first. *)
Example scenario_sample :
  getSampleByWeight 2 (addFacts [0; 1; 2; 3]%nat (new heap_ABCD 4 Lru))
  = [1; 3]%nat.
Proof. reflexivity. Qed.

(** C9.  Immediately after [addFact(f)] the fact [f] is a member of
    [getFacts()], under either strategy and whatever its weight: the
    buffer is what eviction kept of the facts present before the call,
    followed by [f]. *)
Theorem addFact_member (s : t) (fact : loc) :
  fact ∈ getFacts (addFact fact s)
  ∧ ∃ kept, getFacts (addFact fact s) = kept ++ [fact]
            ∧ kept `sublist_of` getFacts s.
Proof.
  unfold getFacts. rewrite facts_addFact. split.
  - apply elem_of_app. right. apply list_elem_of_singleton. done.
  - exists (facts (evictIfFull s)). split; [done|]. apply evictIfFull_sublist.
Qed.

(** C1, as stated, fails for a memory constructed with capacity 0: the
    eviction finds nothing to remove and the fact is appended. *)
Lemma capacity_zero_exceeded :
  ¬ (Z.of_nat (length (getFacts (addFacts [0%nat] (new heap_AB 0 Lru)))) ≤ 0)%Z.
Proof. simpl. lia. Qed.

(** C1 (amended).  For a capacity of at least 1, after every prefix of a
    sequence of [addFact] calls the buffer holds at most [capacity]
    facts; and when the buffer is at capacity, one fact is evicted and
    the new fact is appended to what is left. *)
Theorem addFact_capacity (h : loc → Fact.t) (capacity : Z)
    (strategy : EvictionStrategy) (fs : list loc) :
  (1 ≤ capacity)%Z →
  (∀ n, (Z.of_nat (length (getFacts
           (addFacts (take n fs) (new h capacity strategy)))) ≤ capacity)%Z)
  ∧ (∀ fact,
       let s := addFacts fs (new h capacity strategy) in
       (capacity ≤ Z.of_nat (length (getFacts s)))%Z →
       S (length (facts (evictIfFull s))) = length (getFacts s)
       ∧ evictions (metrics (evictIfFull s)) = S (evictions (metrics s))
       ∧ getFacts (addFact fact s) = facts (evictIfFull s) ++ [fact]).
Proof.
  intros Hpos. split.
  - intros n. unfold getFacts.
    pose proof (addFacts_capacity (take n fs) (new h capacity strategy)) as H.
    simpl in H. apply H; lia.
  - intros fact s Hfull. unfold getFacts in *.
    assert (maxSize s = capacity) as Hmax by apply maxSize_addFacts.
    split; [|split; [|done]].
    + rewrite length_facts_evictIfFull by lia. lia.
    + unfold evictIfFull. rewrite decide_True by lia.
      unfold evictOldest, evictByWeight.
      destruct (facts s) eqn:E; [simpl in Hfull; lia|].
      by destruct (evictionStrategy s).
Qed.

Lemma addFact_capacity_witness :
  (1 ≤ 2)%Z
  ∧ ∀ n, (Z.of_nat (length (getFacts
            (addFacts (take n [0; 1; 2]%nat) (new heap_AB 2 Weight)))) ≤ 2)%Z.
Proof.
  split; [lia|].
  apply (addFact_capacity heap_AB 2 Weight [0; 1; 2]%nat). lia.
Defined.

(** C2, as stated, fails when the last inserted fact is the lightest: with
    capacity 1, inserting A (weight 1/2) then B (weight 1/10) evicts A and
    the buffer holds B, the minimum of all the inserted facts. *)
Lemma lightest_fact_inserted_last_stays :
  let s := addFacts [0; 1]%nat (new heap_AB 1 Weight) in
  Fact.weight (heap_AB 1) < Fact.weight (heap_AB 0)
  ∧ (1%nat ∈ getFacts s)
  ∧ (0%nat ∉ getFacts s).
Proof.
  split; [done|]. split.
  - apply list_elem_of_singleton. done.
  - intros ?%list_elem_of_singleton. done.
Qed.

(** C2 (amended).  For a capacity [c ≥ 1] and [c + 1] pairwise distinct
    facts inserted under strategy weight: the fact evicted is the one of
    minimum weight among the first [c] inserted facts, at the lowest
    index among equals; it is absent after the last insertion, and the
    other [c] facts, the last one included, are present. *)
Theorem evictByWeight_on_overflow (h : loc → Fact.t) (first : list loc) (last : loc) :
  first ≠ [] →
  NoDup (first ++ [last]) →
  let s := addFacts (first ++ [last])
             (new h (Z.of_nat (length first)) Weight) in
  let i := minWeightIndex h first in
  first_min (λ j, Fact.weight (h (first !!! j))) (length first) i
  ∧ getFacts s = delete i first ++ [last]
  ∧ (first !!! i ∉ getFacts s)
  ∧ (∀ f, f ∈ first ++ [last] → f ≠ first !!! i → f ∈ getFacts s).
Proof.
  intros Hne Hnd s i.
  pose proof (minWeightIndex_spec h first Hne) as Hmin.
  split; [done|].
  assert (getFacts s = delete i first ++ [last]) as Hs.
  { destruct (addFacts_below_capacity first (new h (Z.of_nat (length first)) Weight))
      as (Hf & Hh & Hm & He); [simpl; lia|].
    simpl in Hf, Hh, Hm, He.
    unfold s, getFacts. rewrite addFacts_app.
    set (s1 := addFacts first _) in *.
    change (addFacts [last] s1) with (addFact last s1).
    rewrite facts_addFact. unfold evictIfFull.
    rewrite Hm, Hf, He, decide_True by lia.
    by rewrite facts_evictByWeight, Hh, Hf. }
  split; [done|]. rewrite Hs.
  destruct Hmin as (Hi & _).
  apply NoDup_app in Hnd as (Hnd & Hlast & _).
  assert (first !! i = Some (first !!! i)) as Hlook.
  { by apply list_lookup_lookup_total_lt. }
  destruct (NoDup_lookup_delete first i _ Hnd Hlook) as (Hout & Hin).
  split.
  - rewrite elem_of_app. intros [?|Hl%list_elem_of_singleton]; [done|].
    apply (Hlast (first !!! i)); [|rewrite Hl; left].
    by eapply list_elem_of_lookup_2.
  - intros f Hf Hfne. rewrite elem_of_app in *.
    destruct Hf as [Hf|Hf]; [left; by apply Hin|by right].
Qed.

Lemma evictByWeight_on_overflow_witness :
  let s := addFacts ([0; 1] ++ [2])%nat (new heap_AB 2 Weight) in
  [0; 1]%nat ≠ [] ∧ NoDup ([0; 1] ++ [2])%nat
  ∧ getFacts s = delete (minWeightIndex heap_AB [0; 1]%nat) [0; 1]%nat ++ [2%nat].
Proof.
  split; [done|]. split; [by apply (bool_decide_unpack _)|].
  apply (evictByWeight_on_overflow heap_AB [0; 1]%nat 2%nat); [done|].
  by apply (bool_decide_unpack _).
Defined.

(** C10, as stated, fails when [addFact] receives a fact whose id is
    already in the buffer: both facts stay in the buffer, and the map
    keeps only the second under the shared id. *)
Lemma duplicate_id_breaks_index :
  let s := addFact 0%nat (new heap_same_id 2 Lru) in
  same_facts s ∧ ¬ same_facts (addFact 1%nat s).
Proof.
  split.
  - split.
    + intros l ->%list_elem_of_singleton. done.
    + intros k l. simpl. rewrite lookup_insert_Some, lookup_empty.
      intros [(_ & <-)|(_ & ?)]; [|done]. by apply list_elem_of_singleton.
  - intros (Hbuf & _). specialize (Hbuf 0%nat). simpl in Hbuf.
    assert (0%nat ∈ [0; 1]%nat) as Hin by left.
    apply Hbuf in Hin. rewrite lookup_insert_eq in Hin. done.
Qed.

(** C10 (amended).  From a new working memory, as long as [addFact] is
    called with a fact whose id is the id of no fact in the buffer and
    [update(id, item)] with [item.id = id], every call ([addFact],
    [update], [delete], [evictOldest], [evictByWeight], [clear],
    [consolidate]) leaves the map and the buffer with exactly the same
    facts, each under its id, and [retrieve(id)] finds a fact exactly for
    the ids in the buffer. *)
Theorem factMap_matches_buffer (s : t) (c : call) :
  reachable s → admissible c s →
  let s' := run_call c s in
  same_facts s'
  ∧ (∀ k l, factMap s' !! k = Some l → Fact.id (heap s' l) = k)
  ∧ (∀ k, is_Some (retrieve k s').1 ↔ k ∈ ids_of (heap s') (facts s')).
Proof.
  intros Hr Ha s'.
  assert (consistent s') as Hc.
  { apply consistent_run_call; [by apply reachable_consistent|done]. }
  split; [by apply consistent_same_facts|].
  destruct Hc as (_ & Hm). split.
  - intros k l Hk. by apply Hm in Hk as (_ & ?).
  - intros k. simpl. split.
    + intros [l Hl]. apply Hm in Hl as (Hl & <-).
      by apply (list_elem_of_fmap_2 (λ l, Fact.id (heap s' l))).
    + intros (l & -> & Hl)%list_elem_of_fmap. exists l. by apply Hm.
Qed.

Lemma factMap_matches_buffer_witness :
  let s := new heap_AB 2 Lru in
  reachable s ∧ admissible (AddFact 0%nat) s
  ∧ same_facts (run_call (AddFact 0%nat) s).
Proof.
  assert (reachable (new heap_AB 2 Lru)) as Hr by constructor.
  assert (admissible (AddFact 0%nat) (new heap_AB 2 Lru)) as Ha
    by apply not_elem_of_nil.
  split; [done|]. split; [done|].
  apply (factMap_matches_buffer (new heap_AB 2 Lru) (AddFact 0%nat) Hr Ha).
Defined.

(** C7, as stated, fails when one fact object occupies two positions of
    the buffer: each call divides its weight twice.  With the fact of
    weight 1/2 added twice, the first call leaves the weight 2 and the
    second brings it back to 1/2. *)
Lemma consolidate_twice_same_object :
  let s := addFacts [0; 0]%nat (new heap_AB 2 Lru) in
  Fact.weight (heap (consolidate s) 0%nat) = Q2Qc 2
  ∧ Fact.weight (heap (consolidate (consolidate s)) 0%nat) = Q2Qc (1 # 2)
  ∧ Fact.weight (heap (consolidate (consolidate s)) 0%nat)
    ≠ Fact.weight (heap (consolidate s) 0%nat).
Proof.
  assert (Fact.weight (heap (consolidate (addFacts [0; 0]%nat
            (new heap_AB 2 Lru))) 0%nat) = Q2Qc 2) as H1.
  { apply Qc_is_canon. vm_compute. reflexivity. }
  assert (Fact.weight (heap (consolidate (consolidate (addFacts [0; 0]%nat
            (new heap_AB 2 Lru)))) 0%nat) = Q2Qc (1 # 2)) as H2.
  { apply Qc_is_canon. vm_compute. reflexivity. }
  split; [done|]. split; [done|]. rewrite H1, H2. done.
Qed.

(** C7 (amended).  When no fact object occurs twice in the buffer, a
    second [consolidate()] leaves every fact as the first call left it:
    the first call divides all the weights by their maximum when that
    is positive, after which the maximum is 1, and does nothing
    otherwise. *)
Theorem consolidate_twice (s : t) :
  NoDup (facts s) →
  (∀ l, heap (consolidate (consolidate s)) l = heap (consolidate s) l)
  ∧ facts (consolidate (consolidate s)) = facts (consolidate s)
  ∧ match Math_max_list (weights s) with
    | Some maxWeight =>
        if decide (0 < maxWeight)
        then weights (consolidate s) = (λ w, w / maxWeight) <$> weights s
             ∧ Math_max_list (weights (consolidate s)) = Some 1
        else consolidate s = s
    | None => consolidate s = s
    end.
Proof.
  intros Hnd.
  destruct (Math_max_list (weights s)) as [m|] eqn:Hmax.
  2: { assert (consolidate s = s) as ->
         by (rewrite consolidate_unfold; by rewrite Hmax).
       assert (consolidate s = s) as ->
         by (rewrite consolidate_unfold; by rewrite Hmax).
       done. }
  case_decide as Hpos.
  2: { assert (consolidate s = s) as ->
         by (rewrite consolidate_unfold; by rewrite Hmax, decide_False).
       assert (consolidate s = s) as ->
         by (rewrite consolidate_unfold; by rewrite Hmax, decide_False).
       done. }
  assert (consolidate s = foldl (normalize m) s (facts s)) as ->
    by (rewrite consolidate_unfold; by rewrite Hmax, decide_True).
  set (s1 := foldl (normalize m) s (facts s)).
  assert (facts s1 = facts s) as Hf by apply normalize_fold.
  assert (weights s1 = (λ w, w / m) <$> weights s) as Hw
    by by apply weights_normalize_fold.
  assert (Math_max_list (weights s1) = Some 1) as Hmax1.
  { rewrite Hw. by apply Math_max_list_div. }
  assert (consolidate s1 = foldl (normalize 1) s1 (facts s1)) as ->
    by (rewrite consolidate_unfold; by rewrite Hmax1, decide_True).
  split; [|split; [|done]].
  - intros l. rewrite normalize_fold_heap by (by rewrite Hf).
    case_decide; [apply normalized_1|done].
  - apply normalize_fold.
Qed.

Lemma consolidate_twice_witness :
  let s := addFacts [0; 1]%nat (new heap_AB 2 Lru) in
  NoDup (facts s)
  ∧ ∀ l, heap (consolidate (consolidate s)) l = heap (consolidate s) l.
Proof.
  assert (NoDup (facts (addFacts [0; 1]%nat (new heap_AB 2 Lru)))) as Hnd
    by by apply (bool_decide_unpack _).
  split; [done|].
  apply (consolidate_twice (addFacts [0; 1]%nat (new heap_AB 2 Lru)) Hnd).
Defined.
End WorkingMemoryClaims.

(** ** Emotional state *)

Section EmotionalClaims.

(** Unfolds the calls of the emotional memories down to the state
    function. *)
Ltac unfold_calls :=
  unfold SupabaseEmotionalMemory.updateState,
    SupabaseEmotionalMemory.decayEmotions, SupabaseEmotionalMemory.store,
    EmotionalService.processFact, EmotionalService.applyEmotionalDecay,
    mbind, M_bind, mret, M_ret, bind, ret, modify, gets, zoom, remote_insert,
    remote_response;
  simpl.

(** Three updates by a joy of 1/2 from the neutral state: the third is
    clamped at 1. *)
Example scenario_update_clamps :
  let half := UpdateState (mkQuadrant (Q2Qc (1 # 2)) 0 0 0) in
  joy (SupabaseEmotionalMemory.currentState
         (run_memory_calls accepts_all [half; half])) = 1
  ∧ joy (SupabaseEmotionalMemory.currentState
           (run_memory_calls accepts_all [half; half; half])) = 1.
Proof. split; apply Qc_is_canon; vm_compute; reflexivity. Qed.

Lemma Math_min_le_l x y : Math_min x y ≤ x.
Proof.
  unfold Math_min. case_decide as H; [apply Qcle_refl|].
  by apply Qclt_le_weak, Qcnot_le_lt.
Qed.

Lemma clamp_within_bounds v : within_bounds (Math_max (-1) (Math_min 1 v)).
Proof.
  split; [apply Math_max_le_l|].
  destruct (Math_max_cases (-1) (Math_min 1 v)) as [-> | ->];
    [done|apply Math_min_le_l].
Qed.

Lemma mult_within_bounds x r :
  within_bounds x → within_bounds r → within_bounds (x * r).
Proof.
  unfold within_bounds, Qcle. simpl. rewrite !Qred_correct.
  intros [? ?] [? ?]. split; nra.
Qed.

Lemma new_in_range : in_range (mkQuadrant 0 0 0 0).
Proof. by repeat split. Qed.

Lemma memory_call_in_range rejects c s :
  match c with
  | UpdateState _ => True
  | DecayEmotions rate => within_bounds rate
  end →
  in_range (SupabaseEmotionalMemory.currentState s) →
  in_range (SupabaseEmotionalMemory.currentState (run_memory_call rejects c s)).
Proof.
  intros Hc (Hj & Hc' & Ha & Hs).
  destruct c as [impact|rate]; simpl; unfold_calls;
    destruct (rejects _); simpl.
  1,2: repeat split; apply clamp_within_bounds.
  1,2: repeat split; by apply mult_within_bounds.
Qed.

Lemma service_call_in_range rejects c s :
  in_range (EmotionalService.currentState s) →
  in_range (EmotionalService.currentState (run_service_call rejects c s)).
Proof.
  intros Hs.
  destruct c as [fact|rate]; simpl; unfold_calls.
  - destruct (rejects _); simpl; [done|].
    repeat split; apply clamp_within_bounds.
  - repeat split; apply clamp_within_bounds.
Qed.

Lemma memory_calls_in_range rejects cs : ∀ s,
  Forall within_bounds (decay_rates cs) →
  in_range (SupabaseEmotionalMemory.currentState s) →
  in_range (SupabaseEmotionalMemory.currentState
              (foldl (λ s c, run_memory_call rejects c s) s cs)).
Proof.
  induction cs as [|c cs IH]; intros s Hrates Hs; [done|]. simpl.
  apply IH.
  - destruct c; [done|]. by apply Forall_cons in Hrates as [_ ?].
  - apply memory_call_in_range; [|done].
    destruct c; [done|]. by apply Forall_cons in Hrates as [? _].
Qed.

Lemma service_calls_in_range rejects cs : ∀ s,
  in_range (EmotionalService.currentState s) →
  in_range (EmotionalService.currentState
              (foldl (λ s c, run_service_call rejects c s) s cs)).
Proof.
  induction cs as [|c cs IH]; intros s Hs; [done|]. simpl.
  by apply IH, service_call_in_range.
Qed.

Lemma decay_rates_take n cs :
  Forall within_bounds (decay_rates cs) →
  Forall within_bounds (decay_rates (take n cs)).
Proof.
  rewrite !Forall_forall. intros H rate Hin. apply H.
  unfold decay_rates in *. apply list_elem_of_omap in Hin as (c & Hc & Hrate).
  apply list_elem_of_omap. exists c. split; [|done].
  eapply elem_of_sublist; [exact Hc|apply sublist_take].
Qed.

(** C3, as stated, fails for [decayEmotions]: it multiplies by the rate
    and does not clamp, so a rate of 2 takes a joy of 1 to 2. *)
Lemma decayEmotions_leaves_range :
  let s := run_memory_calls accepts_all
             [UpdateState (mkQuadrant 1 0 0 0); DecayEmotions (Q2Qc 2)] in
  joy (SupabaseEmotionalMemory.currentState s) = Q2Qc 2
  ∧ ¬ in_range (SupabaseEmotionalMemory.currentState s).
Proof.
  assert (joy (SupabaseEmotionalMemory.currentState (run_memory_calls accepts_all
            [UpdateState (mkQuadrant 1 0 0 0); DecayEmotions (Q2Qc 2)])) = Q2Qc 2)
    as Hjoy.
  { apply Qc_is_canon. vm_compute. reflexivity. }
  split; [done|]. intros ((_ & Hle) & _). rewrite Hjoy in Hle. done.
Qed.

(** C3 (amended).  [updateState] and [processFact] add the impact
    componentwise and clamp each component to [-1, 1];
    [decayEmotions(rate)] multiplies each component by [rate].  After
    every prefix of a sequence of such calls every component of the
    quadrant is in [-1, 1], provided the rates given to [decayEmotions]
    are themselves in [-1, 1]; the decay of [EmotionalService] passes
    through the clamp and needs no such condition. *)
Theorem quadrant_within_bounds (rejects : nat → bool)
    (cs : list memory_call) (cs' : list service_call) :
  Forall within_bounds (decay_rates cs) →
  (∀ n, in_range (SupabaseEmotionalMemory.currentState
                    (run_memory_calls rejects (take n cs))))
  ∧ (∀ n, in_range (EmotionalService.currentState
                      (run_service_calls rejects (take n cs'))))
  ∧ (∀ s impact,
       SupabaseEmotionalMemory.currentState
         (run_memory_call rejects (UpdateState impact) s)
       = absorbed (SupabaseEmotionalMemory.currentState s) impact)
  ∧ (∀ s rate,
       SupabaseEmotionalMemory.currentState
         (run_memory_call rejects (DecayEmotions rate) s)
       = scaled (SupabaseEmotionalMemory.currentState s) rate)
  ∧ (∀ s impact, EmotionalService.calculateNewState impact s
                 = absorbed (EmotionalService.currentState s) impact).
Proof.
  intros Hrates. split; [|split; [|split; [|split]]].
  - intros n. apply memory_calls_in_range;
      [by apply decay_rates_take|apply new_in_range].
  - intros n. apply service_calls_in_range, new_in_range.
  - intros s impact. simpl. unfold_calls. by destruct (rejects _).
  - intros s rate. simpl. unfold_calls. by destruct (rejects _).
  - done.
Qed.

Lemma quadrant_within_bounds_witness :
  let cs := [UpdateState (mkQuadrant 1 0 0 0); DecayEmotions (Q2Qc (1 # 10))] in
  Forall within_bounds (decay_rates cs)
  ∧ ∀ n, in_range (SupabaseEmotionalMemory.currentState
                     (run_memory_calls accepts_all (take n cs))).
Proof.
  assert (Forall within_bounds (decay_rates
            [UpdateState (mkQuadrant 1 0 0 0); DecayEmotions (Q2Qc (1 # 10))]))
    as Hrates by (apply Forall_cons; split; [by split|constructor]).
  split; [done|].
  apply (quadrant_within_bounds accepts_all _ [] Hrates).
Defined.
End EmotionalClaims.

(** ** Sleep cycle *)

Section SleepCycleClaims.
Import CognitiveSystem.

(** The body of the loop of [processSleepCycle]: it returns, whether the
    request is rejected or not. *)
Lemma replay_one rejects fact s :
  let q := absorbed (SupabaseEmotionalMemory.currentState (emotionalMemory s))
             (reduceEmotionalImpact
                (Fact.emotionalImpact
                   (LRUWorkingMemory.heap (workingMemory s) fact))) in
  let db := SupabaseEmotionalMemory.supabase (emotionalMemory s) in
  (impact ← gets (λ s, Fact.emotionalImpact
                         (LRUWorkingMemory.heap (workingMemory s) fact));
   zoom emotionalMemory set_emotionalMemory
     (SupabaseEmotionalMemory.updateState rejects
        (reduceEmotionalImpact impact))) s
  = (Returned tt,
     mk (workingMemory s)
        (SupabaseEmotionalMemory.mk q
           (mkRemote (rows db ++ accepted rejects (requests db) [q])
                     (S (requests db))))).
Proof.
  unfold SupabaseEmotionalMemory.updateState, SupabaseEmotionalMemory.store,
    mbind, M_bind, mret, M_ret, bind, ret, modify, gets, zoom, remote_response.
  simpl. destruct (rejects _); simpl; by rewrite ?app_nil_r.
Qed.

(** The loop applies every sampled impact and sends one request for each;
    the rows of the accepted requests are stored. *)
Lemma replay_all rejects sample : ∀ s,
  ∃ s', for_of sample (λ fact,
          impact ← gets (λ s, Fact.emotionalImpact
                                (LRUWorkingMemory.heap (workingMemory s) fact));
          zoom emotionalMemory set_emotionalMemory
            (SupabaseEmotionalMemory.updateState rejects
               (reduceEmotionalImpact impact))) s
        = (Returned tt, s')
    ∧ workingMemory s' = workingMemory s
    ∧ SupabaseEmotionalMemory.currentState (emotionalMemory s')
      = replayed (LRUWorkingMemory.heap (workingMemory s))
          (SupabaseEmotionalMemory.currentState (emotionalMemory s)) sample
    ∧ requests (SupabaseEmotionalMemory.supabase (emotionalMemory s'))
      = (requests (SupabaseEmotionalMemory.supabase (emotionalMemory s))
         + length sample)%nat
    ∧ rows (SupabaseEmotionalMemory.supabase (emotionalMemory s'))
      = rows (SupabaseEmotionalMemory.supabase (emotionalMemory s))
        ++ accepted rejects
             (requests (SupabaseEmotionalMemory.supabase (emotionalMemory s)))
             (replayed_states (LRUWorkingMemory.heap (workingMemory s))
                (SupabaseEmotionalMemory.currentState (emotionalMemory s))
                sample).
Proof.
  induction sample as [|fact sample IH]; intros s.
  { exists s. simpl. split; [done|]. split; [done|]. split; [done|].
    split; [lia|by rewrite app_nil_r]. }
  cbn [for_of]. unfold bind at 1. rewrite replay_one.
  match goal with |- context [for_of sample ?body ?s1] =>
    destruct (IH s1) as (s' & H1 & H2 & H3 & H4 & H5) end.
  exists s'. split; [done|]. simpl in *. rewrite H2, H3, H4, H5.
  split; [done|]. split; [done|]. split; [lia|].
  destruct (rejects _); simpl; by rewrite <-?app_assoc, ?app_nil_r.
Qed.

(** C5, as stated, fails: the routine reports nothing.  With two sampled
    facts and the first request rejected it returns the same result, and
    leaves the same emotional state, as when no request is rejected; the
    rejection shows only in the table, which lacks a row. *)
Lemma processSleepCycle_reports_nothing :
  let failed := processSleepCycle rejects_first two_moods in
  let clean := processSleepCycle accepts_all two_moods in
  length (LRUWorkingMemory.getSampleByWeight config.sleepCycleFactCount
            (workingMemory two_moods)) = 2%nat
  ∧ failed.1 = Returned tt
  ∧ clean.1 = Returned tt
  ∧ SupabaseEmotionalMemory.currentState (emotionalMemory failed.2)
    = SupabaseEmotionalMemory.currentState (emotionalMemory clean.2)
  ∧ length (rows (SupabaseEmotionalMemory.supabase (emotionalMemory failed.2)))
    = 1%nat
  ∧ length (rows (SupabaseEmotionalMemory.supabase (emotionalMemory clean.2)))
    = 2%nat.
Proof. by repeat split. Qed.

(** C5 (amended).  A rejected store of one sampled fact's reduced impact
    goes unnoticed.  Whatever requests are rejected, [processSleepCycle]
    returns: the reduced impact of every sampled fact has been applied to
    the emotional state in order, one request was sent for each fact, the
    table got the states of the accepted requests and no others, and the
    working memory is consolidated.  The result carries no count of
    failures. *)
Theorem processSleepCycle_ignores_rejection (rejects : nat → bool)
    (s : CognitiveSystem.t) :
  let sample := LRUWorkingMemory.getSampleByWeight config.sleepCycleFactCount
                  (workingMemory s) in
  let heap := LRUWorkingMemory.heap (workingMemory s) in
  let state := SupabaseEmotionalMemory.currentState (emotionalMemory s) in
  let table := SupabaseEmotionalMemory.supabase (emotionalMemory s) in
  let out := processSleepCycle rejects s in
  out.1 = Returned tt
  ∧ workingMemory out.2 = LRUWorkingMemory.consolidate (workingMemory s)
  ∧ SupabaseEmotionalMemory.currentState (emotionalMemory out.2)
    = replayed heap state sample
  ∧ requests (SupabaseEmotionalMemory.supabase (emotionalMemory out.2))
    = (requests table + length sample)%nat
  ∧ rows (SupabaseEmotionalMemory.supabase (emotionalMemory out.2))
    = rows table ++ accepted rejects (requests table)
                      (replayed_states heap state sample).
Proof.
  intros sample heap state table out.
  destruct (replay_all rejects sample s) as (s' & Hloop & H2 & H3 & H4 & H5).
  assert (out = (Returned tt,
                 set_workingMemory
                   (LRUWorkingMemory.consolidate (workingMemory s')) s')) as ->.
  { unfold out, processSleepCycle, mbind, M_bind. unfold bind at 1.
    unfold gets at 1. fold sample. unfold bind at 1.
    unfold mbind, M_bind in Hloop. by rewrite Hloop. }
  simpl. by rewrite H2.
Qed.
End SleepCycleClaims.

(** ** Long-term memory *)

Section ExpBounds.
Local Open Scope R_scope.

Lemma exp_double x : exp (2 * x) = exp x * exp x.
Proof. replace (2 * x) with (x + x) by lra. apply exp_plus. Qed.

(** Bounds on [exp x] give bounds on [exp (2 * x)]. *)
Lemma exp_doubled_bounds l u l' u' x :
  0 <= l → l <= exp x <= u → l' <= l * l → u * u <= u' →
  l' <= exp (2 * x) <= u'.
Proof. intros. rewrite exp_double. split; nra. Qed.

(** From [1 + x <= exp x] at [x = -1/65536] and [x = 1/65536]. *)
Lemma exp_small_bounds :
  65535 / 65536 <= exp (- / 65536) <= 65536 / 65537.
Proof.
  split.
  - pose proof (exp_ineq1_le (- / 65536)). lra.
  - rewrite exp_Ropp. pose proof (exp_ineq1_le (/ 65536)).
    pose proof (exp_pos (/ 65536)).
    apply Rmult_le_reg_r with (exp (/ 65536)); [assumption|].
    rewrite Rinv_l by lra. lra.
Qed.

(** Sixteen doublings, with the bounds rounded outwards to twelve
    decimals. *)
Lemma exp_minus_1_bounds :
  367876 / 1000000 < exp (-1) < 367883 / 1000000.
Proof.
  pose proof exp_small_bounds as H16.
  assert (999969482654 / 1000000000000 <= exp (- / 32768) <= 999969483121 / 1000000000000) as H15.
  { replace (- / 32768) with (2 * (- / 65536)) by lra.
    apply (exp_doubled_bounds (65535 / 65536) (65536 / 65537)); [lra|exact H16|lra|lra]. }
  assert (999938966239 / 1000000000000 <= exp (- / 16384) <= 999938967174 / 1000000000000) as H14.
  { replace (- / 16384) with (2 * (- / 32768)) by lra.
    apply (exp_doubled_bounds (999969482654 / 1000000000000) (999969483121 / 1000000000000)); [lra|exact H15|lra|lra]. }
  assert (999877936203 / 1000000000000 <= exp (- / 8192) <= 999877938074 / 1000000000000) as H13.
  { replace (- / 8192) with (2 * (- / 16384)) by lra.
    apply (exp_doubled_bounds (999938966239 / 1000000000000) (999938967174 / 1000000000000)); [lra|exact H14|lra|lra]. }
  assert (999755887305 / 1000000000000 <= exp (- / 4096) <= 999755891048 / 1000000000000) as H12.
  { replace (- / 4096) with (2 * (- / 8192)) by lra.
    apply (exp_doubled_bounds (999877936203 / 1000000000000) (999877938074 / 1000000000000)); [lra|exact H13|lra|lra]. }
  assert (999511834201 / 1000000000000 <= exp (- / 2048) <= 999511841686 / 1000000000000) as H11.
  { replace (- / 2048) with (2 * (- / 4096)) by lra.
    apply (exp_doubled_bounds (999755887305 / 1000000000000) (999755891048 / 1000000000000)); [lra|exact H12|lra|lra]. }
  assert (999023906707 / 1000000000000 <= exp (- / 1024) <= 999023921671 / 1000000000000) as H10.
  { replace (- / 1024) with (2 * (- / 2048)) by lra.
    apply (exp_doubled_bounds (999511834201 / 1000000000000) (999511841686 / 1000000000000)); [lra|exact H11|lra|lra]. }
  assert (998048766172 / 1000000000000 <= exp (- / 512) <= 998048796071 / 1000000000000) as H9.
  { replace (- / 512) with (2 * (- / 1024)) by lra.
    apply (exp_doubled_bounds (999023906707 / 1000000000000) (999023921671 / 1000000000000)); [lra|exact H10|lra|lra]. }
  assert (996101339657 / 1000000000000 <= exp (- / 256) <= 996101399339 / 1000000000000) as H8.
  { replace (- / 256) with (2 * (- / 512)) by lra.
    apply (exp_doubled_bounds (998048766172 / 1000000000000) (998048796071 / 1000000000000)); [lra|exact H9|lra|lra]. }
  assert (992217878866 / 1000000000000 <= exp (- / 128) <= 992217997766 / 1000000000000) as H7.
  { replace (- / 128) with (2 * (- / 256)) by lra.
    apply (exp_doubled_bounds (996101339657 / 1000000000000) (996101399339 / 1000000000000)); [lra|exact H8|lra|lra]. }
  assert (984496319141 / 1000000000000 <= exp (- / 64) <= 984496555091 / 1000000000000) as H6.
  { replace (- / 64) with (2 * (- / 128)) by lra.
    apply (exp_doubled_bounds (992217878866 / 1000000000000) (992217997766 / 1000000000000)); [lra|exact H7|lra|lra]. }
  assert (969233002402 / 1000000000000 <= exp (- / 32) <= 969233466987 / 1000000000000) as H5.
  { replace (- / 32) with (2 * (- / 64)) by lra.
    apply (exp_doubled_bounds (984496319141 / 1000000000000) (984496555091 / 1000000000000)); [lra|exact H6|lra|lra]. }
  assert (939412612945 / 1000000000000 <= exp (- / 16) <= 939413513528 / 1000000000000) as H4.
  { replace (- / 16) with (2 * (- / 32)) by lra.
    apply (exp_doubled_bounds (969233002402 / 1000000000000) (969233466987 / 1000000000000)); [lra|exact H5|lra|lra]. }
  assert (882496057360 / 1000000000000 <= exp (- / 8) <= 882497749400 / 1000000000000) as H3.
  { replace (- / 8) with (2 * (- / 16)) by lra.
    apply (exp_doubled_bounds (939412612945 / 1000000000000) (939413513528 / 1000000000000)); [lra|exact H4|lra|lra]. }
  assert (778799291255 / 1000000000000 <= exp (- / 4) <= 778802277697 / 1000000000000) as H2.
  { replace (- / 4) with (2 * (- / 8)) by lra.
    apply (exp_doubled_bounds (882496057360 / 1000000000000) (882497749400 / 1000000000000)); [lra|exact H3|lra|lra]. }
  assert (606528336059 / 1000000000000 <= exp (- / 2) <= 606532987747 / 1000000000000) as H1.
  { replace (- / 2) with (2 * (- / 4)) by lra.
    apply (exp_doubled_bounds (778799291255 / 1000000000000) (778802277697 / 1000000000000)); [lra|exact H2|lra|lra]. }
  assert (367876622442 / 1000000000000 <= exp (-1) <= 367882265226 / 1000000000000) as H0.
  { replace (-1) with (2 * (- / 2)) by lra.
    apply (exp_doubled_bounds (606528336059 / 1000000000000) (606532987747 / 1000000000000)); [lra|exact H1|lra|lra]. }
  lra.
Qed.
End ExpBounds.

Section LongTermMemoryClaims.
Import SupabaseLongTermMemory.
Local Open Scope R_scope.

Lemma ensureInitialized_initialized rejects s :
  initialized s = true → ensureInitialized rejects s = (Returned tt, s).
Proof.
  intros Hi. unfold ensureInitialized, mbind, M_bind, bind, gets. simpl.
  by rewrite Hi.
Qed.

(** What [strengthenPattern] leaves in the map, and in the database when
    the update is accepted. *)
Lemma strengthenPattern_found rejects now s s1 patternId pattern amount context :
  ensureInitialized rejects s = (Returned tt, s1) →
  patterns s1 !! patternId = Some pattern →
  let pattern' := strengthened now amount context pattern in
  let out := strengthenPattern rejects now patternId amount context s in
  patterns out.2 !! patternId = Some pattern'
  ∧ (out.1 = Returned tt →
     ∀ row, row ∈ DatabaseService.patterns (dbService out.2) →
            Pattern.id row = Pattern.id pattern' → row = pattern').
Proof.
  intros Hinit Hfound pattern' out.
  assert (out = db (DatabaseService.updatePattern rejects pattern')
                  (set_patterns (<[patternId := pattern']> (patterns s1)) s1))
    as ->.
  { unfold out, strengthenPattern, mbind, M_bind.
    unfold bind at 1. rewrite Hinit.
    unfold bind at 1. unfold gets at 1. by rewrite Hfound. }
  unfold db, zoom, DatabaseService.updatePattern, DatabaseService.request.
  simpl. destruct (rejects _); simpl.
  - split; [apply lookup_insert_eq|done].
  - split; [apply lookup_insert_eq|]. intros _ row Hrow Hid.
    apply list_elem_of_fmap in Hrow as (row' & -> & _).
    case_decide as Hrow'; [done|by destruct Hrow'].
Qed.





(** C8.  A pattern of weight 0.5 last accessed exactly 30 days before the
    call, strengthened by 0.3 with no emotional context: the decay factor
    is [exp(-1)], which is 0.3679 to four decimals; the decayed weight is
    0.184 and the new weight [min(1, decayed + 0.3)] is 0.484, both to
    three decimals.  The call leaves the pattern with that weight in the
    map. *)
Theorem strengthenPattern_thirty_days (rejects : nat → bool) (now : Z)
    (s : t) (patternId : string) (pattern : Pattern.t) :
  initialized s = true →
  patterns s !! patternId = Some pattern →
  Pattern.weight pattern = Number.Num (1 / 2) →
  Pattern.lastAccessed pattern = (now - 30 * 24 * 60 * 60 * 1000)%Z →
  let decayFactor :=
    exp (- IZR (now - Pattern.lastAccessed pattern) / IZR halfLifeMillis) in
  let decayed := 1 / 2 * decayFactor in
  let out := strengthenPattern rejects now patternId (3 / 10) None s in
  decayFactor = exp (-1)
  ∧ Rabs (decayFactor - 3679 / 10000) < 1 / 20000
  ∧ Rabs (decayed - 184 / 1000) < 1 / 2000
  ∧ ∃ pattern',
      patterns out.2 !! patternId = Some pattern'
      ∧ Pattern.weight pattern' = Number.Num (Rmin 1 (decayed + 3 / 10))
      ∧ Rabs (Rmin 1 (decayed + 3 / 10) - 484 / 1000) < 1 / 2000.
Proof.
  intros Hinit Hfound Hw Hlast decayFactor decayed out.
  pose proof exp_minus_1_bounds as [Hlo Hhi].
  assert (decayFactor = exp (-1)) as He.
  { unfold decayFactor. rewrite Hlast. f_equal.
    replace (now - (now - 30 * 24 * 60 * 60 * 1000))%Z with 2592000000%Z by lia.
    change halfLifeMillis with 2592000000%Z. lra. }
  split; [done|]. unfold decayed. rewrite He.
  split; [apply Rabs_def1; lra|]. split; [apply Rabs_def1; lra|].
  destruct (strengthenPattern_found rejects now s s patternId pattern (3 / 10) None)
    as (Hmap & _); [by apply ensureInitialized_initialized|done|].
  eexists. split; [exact Hmap|].
  assert (Pattern.weight (strengthened now (3 / 10) None pattern)
          = Number.Num (Rmin 1 (1 / 2 * exp (-1) + 3 / 10))) as ->.
  { unfold strengthened. simpl. fold decayFactor. rewrite He, Hw. simpl.
    do 2 f_equal. lra. }
  split; [done|]. rewrite Rmin_right by lra. apply Rabs_def1; lra.
Qed.

Lemma strengthenPattern_thirty_days_witness :
  let s := mk {[ "p" := joyful_pattern ]} true joyful_db in
  initialized s = true
  ∧ patterns s !! "p" = Some joyful_pattern
  ∧ Pattern.weight joyful_pattern = Number.Num (1 / 2)
  ∧ Pattern.lastAccessed joyful_pattern
    = (2592000000 - 30 * 24 * 60 * 60 * 1000)%Z
  ∧ ∃ pattern' w',
      patterns (strengthenPattern accepts_all 2592000000 "p" (3 / 10) None s).2
        !! "p" = Some pattern'
      ∧ Pattern.weight pattern' = Number.Num w'
      ∧ Rabs (w' - 484 / 1000) < 1 / 2000.
Proof.
  assert (patterns (mk {[ "p" := joyful_pattern ]} true joyful_db) !! "p"
          = Some joyful_pattern) as Hfound by apply lookup_singleton_eq.
  split; [done|]. split; [done|]. split; [done|]. split; [done|].
  destruct (strengthenPattern_thirty_days accepts_all 2592000000
              (mk {[ "p" := joyful_pattern ]} true joyful_db) "p" joyful_pattern
              eq_refl Hfound eq_refl eq_refl)
    as (_ & _ & _ & pattern' & Hmap & Hw & Habs).
  by eexists pattern', _.
Defined.

(** [findSimilarPatterns] only reads the database. *)
Lemma findSimilarPatterns_reads_only rejects embedding threshold context s :
  DatabaseService.patterns
    (dbService (findSimilarPatterns rejects embedding threshold context s).2)
  = DatabaseService.patterns (dbService s).
Proof.
  unfold findSimilarPatterns, ensureInitialized, db, zoom,
    DatabaseService.loadPatterns, DatabaseService.findSimilarFacts,
    DatabaseService.findPatternsWithFacts, DatabaseService.request,
    mbind, M_bind, bind, mret, M_ret, ret, gets, modify.
  destruct (initialized s); simpl.
  - destruct (rejects _); [done|]. simpl. by destruct (rejects _).
  - destruct (rejects _); [done|]. simpl.
    destruct (rejects _); [done|]. simpl. by destruct (rejects _).
Qed.

Lemma rescale_joyful_weight :
  Pattern.weight (rescale joyful_context joyful_pattern) = Number.Num (5 / 8).
Proof.
  unfold rescale, calculateEmotionalSimilarity, joyful_context, entries.
  simpl. f_equal. lra.
Qed.

Lemma strengthened_at_once pattern w :
  Pattern.weight pattern = Number.Num w →
  w <= 1 →
  Pattern.weight
    (strengthened (Pattern.lastAccessed pattern) 0 None pattern)
  = Number.Num w.
Proof.
  intros Hw Hle. unfold strengthened. simpl. rewrite Hw. simpl.
  rewrite Z.sub_diag. replace (- 0 / IZR halfLifeMillis) with 0 by (unfold Rdiv; lra).
  rewrite exp_0, Rmin_right by lra. f_equal. lra.
Qed.

(** C6: what the code does.  The database holds one pattern of weight
    1/2 and a joyful signature.  [findSimilarPatterns] with a joyful
    context returns it with the rescaled weight 5/8, leaves the database
    as it was, and stores the rescaled copy in the in-process map; a
    [strengthenPattern] of that id by 0 at the same instant then writes
    the weight 5/8 to the database. *)
Theorem findSimilarPatterns_caches_rescaled_weight :
  let rescaled := rescale joyful_context joyful_pattern in
  let out := findSimilarPatterns accepts_all [] (85 / 100) (Some joyful_context)
               (new joyful_db) in
  let out' := strengthenPattern accepts_all 0 "p" 0 None out.2 in
  Pattern.weight joyful_pattern = Number.Num (1 / 2)
  ∧ Pattern.weight rescaled = Number.Num (5 / 8)
  ∧ out.1 = Returned [rescaled]
  ∧ DatabaseService.patterns (dbService out.2) = [joyful_pattern]
  ∧ patterns out.2 !! "p" = Some rescaled
  ∧ out'.1 = Returned tt
  ∧ Pattern.weight <$> DatabaseService.patterns (dbService out'.2)
    = [Number.Num (5 / 8)].
Proof.
  intros rescaled out out'.
  split; [done|]. split; [apply rescale_joyful_weight|].
  split; [done|]. split; [done|].
  assert (patterns out.2 !! "p" = Some rescaled) as Hmap
    by apply lookup_insert_eq.
  split; [done|]. split; [done|].
  change (Pattern.weight <$> DatabaseService.patterns (dbService out'.2))
    with [Pattern.weight (strengthened (Pattern.lastAccessed rescaled) 0 None rescaled)].
  unfold rescaled.
  by rewrite (strengthened_at_once _ (5 / 8) rescale_joyful_weight ltac:(lra)).
Qed.
End LongTermMemoryClaims.

(** * Further properties *)

(** ** Working memory: eviction order, counters, sampling *)

Section WorkingMemoryMore.
Import LRUWorkingMemory.

Lemma hits_evictIfFull s :
  hits (metrics (evictIfFull s)) = hits (metrics s)
  ∧ misses (metrics (evictIfFull s)) = misses (metrics s).
Proof.
  unfold evictIfFull, evictOldest, evictByWeight. case_decide; [|done].
  by destruct (evictionStrategy s) eqn:?, (facts s) eqn:?.
Qed.

Lemma evictions_evictIfFull s :
  (1 ≤ maxSize s)%Z →
  evictions (metrics (evictIfFull s))
  = if bool_decide (maxSize s ≤ Z.of_nat (length (facts s)))%Z
    then S (evictions (metrics s)) else evictions (metrics s).
Proof.
  intros Hpos. unfold evictIfFull. case_bool_decide as Hfull.
  - rewrite decide_True by done. unfold evictOldest, evictByWeight.
    destruct (facts s) eqn:E; [simpl in Hfull; lia|].
    by destruct (evictionStrategy s).
  - by rewrite decide_False.
Qed.

(** What one [addFact] does to the buffer and the counters of a memory that
    is within its capacity. *)
Lemma addFact_effect fact s :
  (1 ≤ maxSize s)%Z →
  let full := bool_decide (maxSize s ≤ Z.of_nat (length (facts s)))%Z in
  length (facts (addFact fact s))
    = (if full then length (facts s) else S (length (facts s)))
  ∧ evictions (metrics (addFact fact s))
    = (if full then S (evictions (metrics s)) else evictions (metrics s))
  ∧ hits (metrics (addFact fact s)) = S (hits (metrics s))
  ∧ misses (metrics (addFact fact s)) = misses (metrics s).
Proof.
  intros Hpos full.
  destruct (hits_evictIfFull s) as (Hh & Hm).
  pose proof (evictions_evictIfFull s Hpos) as He. fold full in He.
  split; [|by unfold addFact; simpl; rewrite He, Hh, Hm].
  rewrite facts_addFact, length_app. simpl. unfold full.
  case_bool_decide as Hfull.
  - rewrite length_facts_evictIfFull by done. lia.
  - unfold evictIfFull. rewrite decide_False by done. lia.
Qed.

(** X1.  Recency eviction.  Under strategy [lru] with a capacity of at
    least 1, after any sequence of [addFact] calls on a new memory the
    buffer holds the most recently added facts, as many as the capacity
    allows, in insertion order. *)
Theorem lru_keeps_most_recent (h : loc → Fact.t) (capacity : nat) (fs : list loc) :
  (1 ≤ capacity)%nat →
  getFacts (addFacts fs (new h (Z.of_nat capacity) Lru))
  = drop (length fs - capacity) fs.
Proof.
  intros Hpos.
  assert (∀ s, evictionStrategy s = Lru → maxSize s = Z.of_nat capacity →
               (length (facts s) ≤ capacity)%nat →
               facts (addFacts fs s)
               = drop (length (facts s ++ fs) - capacity) (facts s ++ fs)) as Hgen.
  { unfold addFacts. induction fs as [|f fs IH]; intros s Hs Hm Hlen; simpl.
    { rewrite app_nil_r. replace (length (facts s) - capacity)%nat with 0%nat by lia.
      done. }
    rewrite IH;
      [|by rewrite evictionStrategy_addFact|by rewrite maxSize_addFact|].
    2: { pose proof (addFact_step_capacity f s) as H. rewrite Hm in H. lia. }
    rewrite facts_addFact. unfold evictIfFull. rewrite Hm, Hs.
    case_decide as Hfull.
    - rewrite facts_evictOldest.
      destruct (facts s) as [|x xs] eqn:E; [simpl in Hfull; lia|].
      simpl in Hfull, Hlen. simpl. rewrite drop_0, <-app_assoc. simpl.
      set (l := xs ++ f :: fs).
      assert (capacity ≤ length l)%nat
        by (unfold l; rewrite length_app; simpl; lia).
      by replace (S (length l) - capacity)%nat
        with (S (length l - capacity)) by lia.
    - by rewrite <-app_assoc. }
  unfold getFacts. rewrite Hgen; simpl; [done..|lia].
Qed.

Lemma lru_keeps_most_recent_witness :
  (1 ≤ 3)%nat
  ∧ getFacts (addFacts [0; 1; 2; 3]%nat (new heap_ABCD (Z.of_nat 3) Lru))
    = drop (length [0; 1; 2; 3]%nat - 3) [0; 1; 2; 3]%nat.
Proof.
  split; [lia|]. apply (lru_keeps_most_recent heap_ABCD 3 [0; 1; 2; 3]%nat). lia.
Defined.

(** X2.  Counters.  After [n] calls of [addFact] on a new memory of
    capacity [c ≥ 1], under either strategy: the buffer holds [min n c]
    facts, [n - c] evictions were counted (none while [n ≤ c]), every call
    was counted as a hit and none as a miss. *)
Theorem addFact_counters (h : loc → Fact.t) (capacity : nat)
    (strategy : EvictionStrategy) (fs : list loc) :
  (1 ≤ capacity)%nat →
  let s := addFacts fs (new h (Z.of_nat capacity) strategy) in
  length (getFacts s) = (length fs `min` capacity)%nat
  ∧ evictions (metrics s) = (length fs - capacity)%nat
  ∧ hits (metrics s) = length fs
  ∧ misses (metrics s) = 0%nat.
Proof.
  intros Hpos.
  assert (∀ s, maxSize s = Z.of_nat capacity →
               (length (facts s) ≤ capacity)%nat →
               length (facts (addFacts fs s))
                 = ((length (facts s) + length fs) `min` capacity)%nat
               ∧ evictions (metrics (addFacts fs s))
                 = (evictions (metrics s)
                    + (length (facts s) + length fs - capacity))%nat
               ∧ hits (metrics (addFacts fs s)) = (hits (metrics s) + length fs)%nat
               ∧ misses (metrics (addFacts fs s)) = misses (metrics s)) as Hgen.
  { unfold addFacts. induction fs as [|f fs IH]; intros s Hm Hlen; simpl.
    { repeat split; lia. }
    destruct (addFact_effect f s) as (H1 & H2 & H3 & H4); [lia|].
    rewrite Hm in H1, H2.
    destruct (IH (addFact f s)) as (I1 & I2 & I3 & I4).
    { by rewrite maxSize_addFact. }
    { rewrite H1. case_bool_decide; lia. }
    rewrite I1, I2, I3, I4, H1, H2, H3, H4.
    case_bool_decide; repeat split; lia. }
  intros s. unfold s, getFacts.
  destruct (Hgen (new h (Z.of_nat capacity) strategy)) as (H1 & H2 & H3 & H4);
    [done|simpl; lia|].
  simpl in *. by rewrite H1, H2, H3, H4.
Qed.

Lemma addFact_counters_witness :
  let s := addFacts [0; 1; 2; 3]%nat (new heap_ABCD (Z.of_nat 3) Weight) in
  (1 ≤ 3)%nat ∧ evictions (metrics s) = (length [0; 1; 2; 3]%nat - 3)%nat.
Proof.
  split; [lia|].
  apply (addFact_counters heap_ABCD 3 Weight [0; 1; 2; 3]%nat). lia.
Defined.

Lemma findIndex_lt h k fs index :
  findIndex h k fs = Some index → (index < length fs)%nat.
Proof.
  intros (l1 & x & l2 & -> & <- & _)%findIndex_Some.
  rewrite length_app. simpl. lia.
Qed.

Lemma facts_consolidate s : facts (consolidate s) = facts s.
Proof.
  rewrite consolidate_unfold.
  destruct (Math_max_list (weights s)); [|done].
  case_decide; [apply normalize_fold|done].
Qed.

Lemma maxSize_normalize_fold mw ls : ∀ s,
  maxSize (foldl (normalize mw) s ls) = maxSize s.
Proof. induction ls as [|x ls IH]; intros s; simpl; [done|by rewrite IH]. Qed.

Lemma run_call_capacity c s :
  (1 ≤ maxSize s)%Z →
  (Z.of_nat (length (facts s)) ≤ maxSize s)%Z →
  maxSize (run_call c s) = maxSize s
  ∧ (Z.of_nat (length (facts (run_call c s))) ≤ maxSize s)%Z.
Proof.
  intros Hpos Hlen. destruct c as [fact|k item|k| | | |]; unfold run_call.
  - split; [apply maxSize_addFact|by apply addFact_step_capacity].
  - unfold update. destruct (factMap s !! k); [|done].
    destruct (findIndex (heap s) k (facts s)) as [index|] eqn:Hi; [|done].
    apply findIndex_lt in Hi.
    destruct (evictionStrategy s); simpl; (split; [done|]).
    + rewrite length_app, length_delete, length_insert; simpl; [lia|].
      apply lookup_lt_is_Some_2. by rewrite length_insert.
    + by rewrite length_insert.
  - split; [done|]. simpl.
    pose proof (length_filter (λ f, Fact.id (heap s f) ≠ k) (facts s)). lia.
  - split; [by unfold evictOldest; destruct (facts s)|].
    rewrite facts_evictOldest, length_drop. lia.
  - split; [by unfold evictByWeight; destruct (facts s)|].
    rewrite facts_evictByWeight.
    pose proof (sublist_length _ _ (sublist_delete (facts s)
                  (minWeightIndex (heap s) (facts s)))). lia.
  - split; [done|simpl; lia].
  - rewrite facts_consolidate. split; [|done].
    rewrite consolidate_unfold. destruct (Math_max_list (weights s)); [|done].
    case_decide; [|done]. apply maxSize_normalize_fold.
Qed.

(** X3.  Capacity under every call.  For a capacity of at least 1, after
    any sequence of calls on a new memory ([addFact], [update], [delete],
    [evictOldest], [evictByWeight], [clear], [consolidate], with any
    arguments) the buffer holds at most [capacity] facts. *)
Theorem capacity_under_every_call (h : loc → Fact.t) (capacity : Z)
    (strategy : EvictionStrategy) (cs : list call) :
  (1 ≤ capacity)%Z →
  (Z.of_nat (length (getFacts (run_calls cs (new h capacity strategy))))
   ≤ capacity)%Z.
Proof.
  intros Hpos.
  assert (∀ s, (1 ≤ maxSize s)%Z → (Z.of_nat (length (facts s)) ≤ maxSize s)%Z →
               (Z.of_nat (length (facts (run_calls cs s))) ≤ maxSize s)%Z) as Hgen.
  { unfold run_calls. induction cs as [|c cs IH]; intros s Hp Hl; [done|]. simpl.
    destruct (run_call_capacity c s Hp Hl) as (Hm & Hl').
    rewrite <-Hm. apply IH; by rewrite Hm. }
  apply (Hgen (new h capacity strategy)); simpl; lia.
Qed.

Lemma capacity_under_every_call_witness :
  (1 ≤ 2)%Z
  ∧ (Z.of_nat (length (getFacts (run_calls
       [AddFact 0%nat; AddFact 1%nat; Update "A" 2%nat; Consolidate; AddFact 3%nat]
       (new heap_ABCD 2 Lru)))) ≤ 2)%Z.
Proof.
  split; [lia|]. apply (capacity_under_every_call heap_ABCD 2 Lru). lia.
Defined.

(** The sort of [getSampleByWeight] permutes the buffer into descending
    order of weight. *)
Lemma insert_desc_Permutation h x sorted : insert_desc h x sorted ≡ₚ x :: sorted.
Proof.
  induction sorted as [|y ys IH]; simpl; [done|].
  case_decide; [|done]. by rewrite IH, Permutation_swap.
Qed.

Lemma sort_desc_Permutation h fs : sort_desc h fs ≡ₚ fs.
Proof.
  unfold sort_desc. induction fs as [|f fs IH]; simpl; [done|].
  by rewrite insert_desc_Permutation, IH.
Qed.

Lemma insert_desc_descending h x sorted :
  descending h sorted → descending h (insert_desc h x sorted).
Proof.
  unfold descending. induction 1 as [|y ys Hys IH Hy]; simpl.
  { repeat constructor. }
  case_decide as Hlt.
  - constructor; [done|]. rewrite insert_desc_Permutation.
    constructor; [by apply Qclt_le_weak|done].
  - apply Qcnot_lt_le in Hlt. constructor; [by constructor|].
    constructor; [done|]. eapply Forall_impl; [exact Hy|].
    intros z Hz. simpl in *. by eapply Qcle_trans.
Qed.

Lemma sort_desc_descending h fs : descending h (sort_desc h fs).
Proof.
  unfold sort_desc. induction fs as [|f fs IH]; simpl; [constructor|].
  by apply insert_desc_descending.
Qed.

Lemma getSampleByWeight_descending n s :
  descending (heap s) (getSampleByWeight n s).
Proof.
  unfold getSampleByWeight.
  pose proof (sort_desc_descending (heap s) (facts s)) as Hsorted.
  unfold descending in *.
  rewrite <-(take_drop n (sort_desc (heap s) (facts s))) in Hsorted.
  by apply StronglySorted_app_1_l in Hsorted.
Qed.

(** X4.  Sample by weight.  [getSampleByWeight(n)] returns [min n size]
    facts in descending order of weight; together with the facts it leaves
    out they are the facts of the buffer, and no fact left out is heavier
    than a fact returned.  For [n] at least the size of the buffer it
    returns all the facts. *)
Theorem getSampleByWeight_heaviest_first (n : nat) (s : t) :
  let sample := getSampleByWeight n s in
  descending (heap s) sample
  ∧ length sample = (n `min` length (getFacts s))%nat
  ∧ (∃ rest, sample ++ rest ≡ₚ getFacts s
             ∧ ∀ x y, x ∈ sample → y ∈ rest →
                      Fact.weight (heap s y) ≤ Fact.weight (heap s x))
  ∧ ((length (getFacts s) ≤ n)%nat → sample ≡ₚ getFacts s).
Proof.
  intros sample. unfold sample, getSampleByWeight, getFacts.
  pose proof (sort_desc_descending (heap s) (facts s)) as Hsorted.
  pose proof (sort_desc_Permutation (heap s) (facts s)) as Hperm.
  set (sorted := sort_desc (heap s) (facts s)) in *.
  unfold descending in *. rewrite <-(take_drop n sorted) in Hsorted.
  split; [by apply StronglySorted_app_1_l in Hsorted|].
  split; [by rewrite length_take, Hperm|]. split.
  - exists (drop n sorted). split; [by rewrite take_drop|].
    intros x y Hx Hy. by apply (StronglySorted_app_1_elem_of _ _ _ _ _ Hsorted).
  - intros Hn. rewrite take_ge; [done|]. by rewrite Hperm.
Qed.

(** Sorting reads the object store through the comparisons only. *)
Lemma insert_desc_ext h h' x sorted :
  (∀ y, y ∈ sorted →
        (Fact.weight (h' x) < Fact.weight (h' y)
         ↔ Fact.weight (h x) < Fact.weight (h y))) →
  insert_desc h' x sorted = insert_desc h x sorted.
Proof.
  induction sorted as [|y ys IH]; intros Hext; simpl; [done|].
  assert (Fact.weight (h' x) < Fact.weight (h' y)
          ↔ Fact.weight (h x) < Fact.weight (h y)) as Hy by (apply Hext; left).
  rewrite IH by (intros z Hz; apply Hext; by right).
  destruct (decide (Fact.weight (h x) < Fact.weight (h y))) as [Hlt|Hge].
  - by rewrite decide_True by by apply Hy.
  - by rewrite decide_False by (intros ?; by apply Hge, Hy).
Qed.

Lemma sort_desc_ext h h' fs :
  (∀ x y, x ∈ fs → y ∈ fs →
          (Fact.weight (h' x) < Fact.weight (h' y)
           ↔ Fact.weight (h x) < Fact.weight (h y))) →
  sort_desc h' fs = sort_desc h fs.
Proof.
  unfold sort_desc. induction fs as [|f fs IH]; intros Hext; simpl; [done|].
  rewrite IH by (intros x y Hx Hy; apply Hext; by right).
  apply insert_desc_ext. intros y Hy. apply Hext; [left|].
  right. by rewrite <-(sort_desc_Permutation h fs).
Qed.

(** X5.  [consolidate] keeps the ranking up to ties.  When no fact object
    occurs twice in the buffer: the sample that [getSampleByWeight(n)]
    returned before [consolidate()] is still in descending order of weight
    afterwards, and the sample it returns afterwards carries the same
    weights, position by position. *)
Theorem consolidate_keeps_ranking (n : nat) (s : t) :
  NoDup (facts s) →
  let s' := consolidate s in
  descending (heap s') (getSampleByWeight n s)
  ∧ (λ f, Fact.weight (heap s' f)) <$> getSampleByWeight n s'
    = (λ f, Fact.weight (heap s' f)) <$> getSampleByWeight n s.
Proof.
  intros Hnd s'.
  assert (getSampleByWeight n s' = getSampleByWeight n s) as Heq.
  { unfold s', getSampleByWeight. rewrite facts_consolidate. f_equal.
    rewrite consolidate_unfold.
    destruct (Math_max_list (weights s)) as [m|]; [|done].
    case_decide as Hpos; [|done].
    apply sort_desc_ext. intros x y Hx Hy.
    rewrite !normalize_fold_heap by done. rewrite !decide_True by done.
    unfold normalized. simpl. unfold Qcdiv.
    symmetry. apply Qcmult_lt_mono_pos_r. by apply Qcinv_pos. }
  split; [|by rewrite Heq].
  rewrite <-Heq. apply getSampleByWeight_descending.
Qed.

Lemma consolidate_keeps_ranking_witness :
  let s := addFacts [0; 1; 2]%nat (new heap_ABCD 3 Lru) in
  NoDup (facts s)
  ∧ descending (heap (consolidate s)) (getSampleByWeight 2 s).
Proof.
  assert (NoDup (facts (addFacts [0; 1; 2]%nat (new heap_ABCD 3 Lru)))) as Hnd
    by by apply (bool_decide_unpack _).
  split; [done|]. by apply (consolidate_keeps_ranking 2 _ Hnd).
Defined.

Lemma filter_all {A} (P : A → Prop) `{!∀ x, Decision (P x)} (l : list A) :
  Forall P l → filter P l = l.
Proof.
  induction 1 as [|x l Hx _ IH]; [done|].
  by rewrite filter_cons_True, IH.
Qed.

(** X6.  [delete(id)].  In any state: afterwards no fact of the buffer has
    that id and [retrieve(id)] finds nothing, the facts of other ids stay
    in the buffer in their order, and the other keys of the map are
    untouched.  When the id was in neither the buffer nor the map, the
    buffer and the map are unchanged and a miss is counted. *)
Theorem delete_removes_id (k : string) (s : t) :
  let s' := delete_ k s in
  (retrieve k s').1 = None
  ∧ (k ∉ ids_of (heap s') (facts s'))
  ∧ facts s' = filter (λ f, Fact.id (heap s f) ≠ k) (facts s)
  ∧ (∀ k', k' ≠ k → factMap s' !! k' = factMap s !! k')
  ∧ (factMap s !! k = None → k ∉ ids_of (heap s) (facts s) →
     facts s' = facts s ∧ factMap s' = factMap s
     ∧ misses (metrics s') = S (misses (metrics s))).
Proof.
  intros s'. unfold s', delete_. simpl.
  split; [apply lookup_delete_eq|]. split; [|split; [done|split]].
  - unfold ids_of. intros (l & Hk & Hl)%list_elem_of_fmap.
    by apply list_elem_of_filter in Hl as (Hne & _).
  - intros k' Hne. by apply lookup_delete_ne.
  - intros Hmap Hbuf. rewrite Hmap. simpl. split; [|split; [|done]].
    + apply filter_all, Forall_forall. intros l Hl <-.
      apply Hbuf. by apply (list_elem_of_fmap_2 (λ l, Fact.id (heap s l))).
    + by apply delete_id.
Qed.

(** X7.  [update(id, item)].  For an id that is not in the map the call
    throws, leaves the buffer and the map as they were and counts a miss.
    For an id in the map of a memory whose map and buffer agree, and an
    item of that id, the call returns with the item in the map under the
    id and the buffer as long as before; under strategy [lru] the item is
    then the newest fact of the buffer. *)
Theorem update_known_and_unknown (k : string) (item : loc) (s : t) :
  (factMap s !! k = None →
   ∃ s', update k item s = inl s'
         ∧ facts s' = facts s ∧ factMap s' = factMap s
         ∧ misses (metrics s') = S (misses (metrics s)))
  ∧ (consistent s → is_Some (factMap s !! k) → Fact.id (heap s item) = k →
     ∃ s', update k item s = inr s'
           ∧ factMap s' !! k = Some item
           ∧ length (facts s') = length (facts s)
           ∧ item ∈ facts s'
           ∧ (evictionStrategy s = Lru → last (facts s') = Some item)).
Proof.
  split.
  - intros Hnone. unfold update. rewrite Hnone. by eexists.
  - intros (Hnd & Hm) [old Hold] Hid. unfold update. rewrite Hold.
    destruct (findIndex (heap s) k (facts s)) as [index|] eqn:Hfind.
    2: { apply findIndex_None in Hfind. apply Hm in Hold as (Hin & Hk).
         exfalso. apply Hfind. rewrite <-Hk.
         by apply (list_elem_of_fmap_2 (λ l, Fact.id (heap s l))). }
    apply findIndex_Some in Hfind as (l1 & x & l2 & Hfs & Hlen & Hx).
    assert (<[index := item]> (facts s) = l1 ++ item :: l2) as Hins.
    { rewrite Hfs, <-Hlen. rewrite insert_app_r_alt by lia.
      by replace (length l1 - length l1)%nat with 0%nat by lia. }
    eexists. split; [done|].
    destruct (evictionStrategy s); simpl; rewrite Hins.
    + rewrite <-Hlen, delete_middle. split; [apply lookup_insert_eq|].
      split; [rewrite Hfs, !length_app; simpl; lia|].
      split; [|intros _; apply last_snoc].
      apply elem_of_app. right. left.
    + split; [apply lookup_insert_eq|].
      split; [by rewrite Hfs, !length_app|].
      split; [|done]. apply elem_of_app. right. left.
Qed.

Lemma update_known_and_unknown_witness :
  let s := addFacts [0; 1; 2]%nat (new heap_ABCD 3 Lru) in
  factMap s !! "D" = None
  ∧ consistent s ∧ is_Some (factMap s !! "A") ∧ Fact.id (heap s 0%nat) = "A"
  ∧ ∃ s', update "A" 0%nat s = inr s' ∧ factMap s' !! "A" = Some 0%nat.
Proof.
  assert (reachable (addFacts [0; 1; 2]%nat (new heap_ABCD 3 Lru))) as Hr.
  { apply (reachable_call _ (AddFact 2%nat)).
    - apply (reachable_call _ (AddFact 1%nat)).
      + apply (reachable_call _ (AddFact 0%nat)); [constructor|].
        apply not_elem_of_nil.
      + by apply (bool_decide_unpack _).
    - by apply (bool_decide_unpack _). }
  apply reachable_consistent in Hr.
  assert (is_Some (factMap (addFacts [0; 1; 2]%nat (new heap_ABCD 3 Lru)) !! "A"))
    as Hsome by (by eexists).
  split; [done|]. split; [done|]. split; [done|]. split; [done|].
  destruct (update_known_and_unknown "A" 0%nat
              (addFacts [0; 1; 2]%nat (new heap_ABCD 3 Lru)))
    as (_ & Hknown).
  destruct (Hknown Hr Hsome eq_refl) as (s' & Hs' & Hmap & _).
  by exists s'.
Defined.

Lemma delete_removes_id_witness :
  let s := new heap_ABCD 3 Lru in
  factMap s !! "A" = None ∧ ("A" ∉ ids_of (heap s) (facts s))
  ∧ facts (delete_ "A" s) = facts s.
Proof.
  assert ("A" ∉ ids_of (heap (new heap_ABCD 3 Lru)) (facts (new heap_ABCD 3 Lru)))
    as Hbuf by apply not_elem_of_nil.
  split; [done|]. split; [done|].
  destruct (delete_removes_id "A" (new heap_ABCD 3 Lru)) as (_ & _ & _ & _ & H).
  by destruct (H eq_refl Hbuf) as (? & _).
Defined.
End WorkingMemoryMore.

(** ** Emotional state: clamp, decay, persistence *)

Section EmotionalMore.

(** Unfolds the calls of the emotional memories down to the state
    function. *)
Ltac unfold_emotional :=
  unfold SupabaseEmotionalMemory.updateState,
    SupabaseEmotionalMemory.decayEmotions, SupabaseEmotionalMemory.store,
    EmotionalService.processFact, EmotionalService.applyEmotionalDecay,
    mbind, M_bind, mret, M_ret, bind, ret, modify, gets, zoom, remote_insert,
    remote_response;
  simpl.

(** X8.  The clamp.  [clampValue] leaves exactly the values of [-1, 1]
    unchanged, is idempotent and monotone, and is the same function in
    [EmotionalService] and [SupabaseEmotionalMemory]. *)
Theorem clampValue_properties (v w : Qc) :
  (EmotionalService.clampValue v = v ↔ within_bounds v)
  ∧ EmotionalService.clampValue (EmotionalService.clampValue v)
    = EmotionalService.clampValue v
  ∧ (v ≤ w → EmotionalService.clampValue v ≤ EmotionalService.clampValue w)
  ∧ SupabaseEmotionalMemory.clampValue v = EmotionalService.clampValue v.
Proof.
  assert (∀ x, within_bounds x → EmotionalService.clampValue x = x) as Hfix.
  { intros x [Hlo Hhi]. unfold EmotionalService.clampValue, Math_max, Math_min.
    destruct (decide (1 ≤ x)) as [Hge|_].
    - rewrite decide_True by done. by apply Qcle_antisym.
    - by rewrite decide_True. }
  split; [|split; [|split; [|done]]].
  - split; [|apply Hfix]. intros <-. apply clamp_within_bounds.
  - apply Hfix, clamp_within_bounds.
  - intros Hvw. unfold EmotionalService.clampValue, Math_max, Math_min.
    repeat case_decide; unfold Qcle in *; simpl in *; lra.
Qed.

Lemma clampValue_properties_witness :
  Q2Qc (1 # 2) ≤ Q2Qc 3
  ∧ EmotionalService.clampValue (Q2Qc (1 # 2)) ≤ EmotionalService.clampValue (Q2Qc 3).
Proof.
  split; [done|].
  by apply (clampValue_properties (Q2Qc (1 # 2)) (Q2Qc 3)).
Defined.

(** Moves the order of [Qc] to [Q], where [lra] and [nra] work. *)
Ltac to_Q :=
  unfold within_bounds, away_from_zero, toward_zero, Qcle, Qclt in *;
  simpl in *; rewrite ?Qred_correct in *.

Lemma decay_step_away x rate :
  within_bounds x → 0 ≤ rate → rate ≤ 1 →
  away_from_zero x (EmotionalService.clampValue (x + x * (1 - rate))).
Proof.
  intros Hx H0 H1. unfold EmotionalService.clampValue, Math_max, Math_min.
  repeat case_decide; to_Q; split; intros; nra.
Qed.

(** X9.  [applyEmotionalDecay(rate)] as written.  The decayed quadrant
    [q * (1 - rate)] is added to the current state and clamped, so for a
    state in [-1, 1] and a rate in [0, 1] no component moves toward zero:
    each stays where it is or moves away from zero, within [-1, 1].  The
    state returned is the state kept. *)
Theorem applyEmotionalDecay_moves_away (decayRate : Qc) (s : EmotionalService.t) :
  in_range (EmotionalService.currentState s) →
  0 ≤ decayRate → decayRate ≤ 1 →
  let out := EmotionalService.applyEmotionalDecay decayRate s in
  out.1 = Returned (EmotionalService.currentState out.2)
  ∧ in_range (EmotionalService.currentState out.2)
  ∧ componentwise away_from_zero (EmotionalService.currentState s)
                                 (EmotionalService.currentState out.2).
Proof.
  intros (Hj & Hc & Ha & Hs) H0 H1 out. split; [done|]. split.
  - repeat split; apply clamp_within_bounds.
  - repeat split; by apply decay_step_away.
Qed.

Lemma applyEmotionalDecay_moves_away_witness :
  let s := EmotionalService.mk (mkQuadrant (Q2Qc (1 # 2)) 0 0 0) (mkRemote [] 0) in
  in_range (EmotionalService.currentState s)
  ∧ 0 ≤ Q2Qc (1 # 10) ∧ Q2Qc (1 # 10) ≤ 1
  ∧ componentwise away_from_zero (EmotionalService.currentState s)
      (EmotionalService.currentState
         (EmotionalService.applyEmotionalDecay (Q2Qc (1 # 10)) s).2).
Proof.
  assert (in_range (mkQuadrant (Q2Qc (1 # 2)) 0 0 0)) as Hr by (by repeat split).
  split; [done|]. split; [done|]. split; [done|].
  by apply (applyEmotionalDecay_moves_away (Q2Qc (1 # 10))
              (EmotionalService.mk (mkQuadrant (Q2Qc (1 # 2)) 0 0 0) (mkRemote [] 0))
              Hr).
Defined.

Lemma scale_step_toward x rate :
  0 ≤ rate → rate ≤ 1 → toward_zero x (x * rate).
Proof. intros H0 H1. to_Q. split; intros; split; nra. Qed.

(** X10.  [decayEmotions(rate)] with a rate in [0, 1] moves every component
    toward zero and never past it, whether the store accepts the new state
    or not; a rate of 1 changes nothing and a rate of 0 resets the state
    to neutral. *)
Theorem decayEmotions_moves_toward_zero (rejects : nat → bool) (rate : Qc)
    (s : SupabaseEmotionalMemory.t) :
  0 ≤ rate → rate ≤ 1 →
  let s' := (SupabaseEmotionalMemory.decayEmotions rejects rate s).2 in
  componentwise toward_zero (SupabaseEmotionalMemory.currentState s)
                             (SupabaseEmotionalMemory.currentState s')
  ∧ (rate = 1 → SupabaseEmotionalMemory.currentState s'
                = SupabaseEmotionalMemory.currentState s)
  ∧ (rate = 0 → SupabaseEmotionalMemory.currentState s' = mkQuadrant 0 0 0 0).
Proof.
  intros H0 H1 s'.
  assert (SupabaseEmotionalMemory.currentState s'
          = scaled (SupabaseEmotionalMemory.currentState s) rate) as ->.
  { unfold s'. unfold_emotional. by destruct (rejects _). }
  split; [repeat split; by apply scale_step_toward|]. split.
  - intros ->. unfold scaled. rewrite !Qcmult_1_r.
    by destruct (SupabaseEmotionalMemory.currentState s).
  - intros ->. unfold scaled. by rewrite !Qcmult_0_r.
Qed.

Lemma decayEmotions_moves_toward_zero_witness :
  0 ≤ Q2Qc (1 # 10) ∧ Q2Qc (1 # 10) ≤ 1
  ∧ componentwise toward_zero
      (SupabaseEmotionalMemory.currentState SupabaseEmotionalMemory.new)
      (SupabaseEmotionalMemory.currentState
         (SupabaseEmotionalMemory.decayEmotions accepts_all (Q2Qc (1 # 10))
            SupabaseEmotionalMemory.new).2).
Proof.
  split; [done|]. split; [done|].
  by apply (decayEmotions_moves_toward_zero accepts_all (Q2Qc (1 # 10))
              SupabaseEmotionalMemory.new).
Defined.

(** One call of [processFact]. *)
Lemma processFact_cases rejects fact s :
  let newState := absorbed (EmotionalService.currentState s)
                    (Fact.emotionalImpact fact) in
  let db := EmotionalService.dbService s in
  EmotionalService.processFact rejects fact s
  = if rejects (requests db)
    then (Thrown "StoreError",
          EmotionalService.mk (EmotionalService.currentState s)
            (mkRemote (rows db) (S (requests db))))
    else (Returned newState,
          EmotionalService.mk newState
            (mkRemote (rows db ++ [newState]) (S (requests db)))).
Proof. unfold_emotional. by destruct (rejects _). Qed.

(** X11.  [processFact] keeps memory and database in step.  After any
    sequence of [processFact] calls on a new service, whichever of them
    the database rejected, the state in memory is the last state stored, or
    the neutral state when none was stored; a rejected call throws and
    changes neither. *)
Theorem processFact_state_is_last_stored (rejects : nat → bool)
    (facts : list Fact.t) (fact : Fact.t) :
  let s := run_service_calls rejects (ProcessFact <$> facts) in
  last (rows (EmotionalService.dbService s))
  = (if decide (rows (EmotionalService.dbService s) = []) then None
     else Some (EmotionalService.currentState s))
  ∧ (rows (EmotionalService.dbService s) = [] →
     EmotionalService.currentState s = mkQuadrant 0 0 0 0)
  ∧ (rejects (requests (EmotionalService.dbService s)) = true →
     let out := EmotionalService.processFact rejects fact s in
     out.1 = Thrown "StoreError"
     ∧ EmotionalService.currentState out.2 = EmotionalService.currentState s
     ∧ rows (EmotionalService.dbService out.2) = rows (EmotionalService.dbService s)).
Proof.
  intros s.
  assert (∀ s0 : EmotionalService.t,
            (rows (EmotionalService.dbService s0) = [] →
             EmotionalService.currentState s0 = mkQuadrant 0 0 0 0) →
            (rows (EmotionalService.dbService s0) ≠ [] →
             last (rows (EmotionalService.dbService s0))
             = Some (EmotionalService.currentState s0)) →
            let s1 := foldl (λ s c, run_service_call rejects c s) s0
                        (ProcessFact <$> facts) in
            (rows (EmotionalService.dbService s1) = [] →
             EmotionalService.currentState s1 = mkQuadrant 0 0 0 0)
            ∧ (rows (EmotionalService.dbService s1) ≠ [] →
               last (rows (EmotionalService.dbService s1))
               = Some (EmotionalService.currentState s1))) as Hgen.
  { induction facts as [|f fs IH]; intros s0 Hnil Hlast; [done|]. simpl.
    apply IH; rewrite processFact_cases; destruct (rejects _); simpl; try done.
    - intros Hrows. by apply app_nil in Hrows as [_ ?].
    - intros _. apply last_snoc. }
  destruct (Hgen EmotionalService.new) as (Hnil & Hlast); [done|done|].
  fold (run_service_calls rejects (ProcessFact <$> facts)) in Hnil, Hlast.
  fold s in Hnil, Hlast. split; [|split; [done|]].
  - case_decide as Hrows; [by rewrite Hrows|by apply Hlast].
  - intros Hrej out. unfold out. rewrite processFact_cases, Hrej. done.
Qed.

Lemma processFact_state_is_last_stored_witness :
  let s := run_service_calls rejects_first
             (ProcessFact <$> [heap_moods 0%nat; heap_moods 1%nat]) in
  rows (EmotionalService.dbService s) = [EmotionalService.currentState s]
  ∧ last (rows (EmotionalService.dbService s))
    = (if decide (rows (EmotionalService.dbService s) = []) then None
       else Some (EmotionalService.currentState s)).
Proof.
  split; [done|].
  apply (processFact_state_is_last_stored rejects_first
           [heap_moods 0%nat; heap_moods 1%nat] (heap_moods 0%nat)).
Defined.

(** One call of [updateState]. *)
Lemma updateState_cases rejects impact s :
  let q := absorbed (SupabaseEmotionalMemory.currentState s) impact in
  let db := SupabaseEmotionalMemory.supabase s in
  SupabaseEmotionalMemory.updateState rejects impact s
  = (Returned tt,
     SupabaseEmotionalMemory.mk q
       (if rejects (requests db)
        then mkRemote (rows db) (S (requests db))
        else mkRemote (rows db ++ [q]) (S (requests db)))).
Proof. unfold_emotional. by destruct (rejects _). Qed.

Lemma decayEmotions_cases rejects rate s :
  let q := scaled (SupabaseEmotionalMemory.currentState s) rate in
  let db := SupabaseEmotionalMemory.supabase s in
  SupabaseEmotionalMemory.decayEmotions rejects rate s
  = (Returned tt,
     SupabaseEmotionalMemory.mk q
       (if rejects (requests db)
        then mkRemote (rows db) (S (requests db))
        else mkRemote (rows db ++ [q]) (S (requests db)))).
Proof. unfold_emotional. by destruct (rejects _). Qed.

(** X12.  [SupabaseEmotionalMemory] does not notice a rejected store.
    Every [updateState] and [decayEmotions] call returns, whether its
    request is rejected or not.  After any sequence of such calls on a new
    memory: one request was sent per call and at most one row stored per
    call; when the request of the last call was accepted the last row is
    the state in memory; and a call whose request is rejected leaves the
    new state in memory and no row for it. *)
Theorem emotional_memory_store_unchecked (rejects : nat → bool)
    (cs : list memory_call) (c : memory_call) :
  let s := run_memory_calls rejects cs in
  let s' := run_memory_call rejects c s in
  (∀ s0, match c with
         | UpdateState impact =>
             (SupabaseEmotionalMemory.updateState rejects impact s0).1
         | DecayEmotions rate =>
             (SupabaseEmotionalMemory.decayEmotions rejects rate s0).1
         end = Returned tt)
  ∧ requests (SupabaseEmotionalMemory.supabase s) = length cs
  ∧ (length (rows (SupabaseEmotionalMemory.supabase s)) ≤ length cs)%nat
  ∧ (rejects (length cs) = false →
     last (rows (SupabaseEmotionalMemory.supabase s'))
     = Some (SupabaseEmotionalMemory.currentState s'))
  ∧ (rejects (length cs) = true →
     rows (SupabaseEmotionalMemory.supabase s')
     = rows (SupabaseEmotionalMemory.supabase s)
     ∧ SupabaseEmotionalMemory.currentState s'
       = match c with
         | UpdateState impact =>
             absorbed (SupabaseEmotionalMemory.currentState s) impact
         | DecayEmotions rate =>
             scaled (SupabaseEmotionalMemory.currentState s) rate
         end).
Proof.
  intros s s'.
  split.
  { intros s0. destruct c; by rewrite ?updateState_cases, ?decayEmotions_cases. }
  assert (∀ s0 : SupabaseEmotionalMemory.t,
            let s1 := foldl (λ s c, run_memory_call rejects c s) s0 cs in
            requests (SupabaseEmotionalMemory.supabase s1)
            = (requests (SupabaseEmotionalMemory.supabase s0) + length cs)%nat
            ∧ (length (rows (SupabaseEmotionalMemory.supabase s1))
               ≤ length (rows (SupabaseEmotionalMemory.supabase s0)) + length cs)%nat)
    as Hgen.
  { induction cs as [|c0 cs0 IH]; intros s0; simpl; [lia|].
    destruct (IH (run_memory_call rejects c0 s0)) as (Hr & Hl).
    rewrite Hr. split.
    - destruct c0; simpl;
        rewrite ?updateState_cases, ?decayEmotions_cases; simpl;
        destruct (rejects _); simpl; lia.
    - etransitivity; [exact Hl|].
      destruct c0; simpl;
        rewrite ?updateState_cases, ?decayEmotions_cases; simpl;
        destruct (rejects _); simpl; rewrite ?length_app; simpl; lia. }
  destruct (Hgen SupabaseEmotionalMemory.new) as (Hr & Hl). simpl in Hr, Hl.
  fold (run_memory_calls rejects cs) in Hr, Hl. fold s in Hr, Hl.
  split; [done|]. split; [done|].
  unfold s'. destruct c; simpl;
    rewrite ?updateState_cases, ?decayEmotions_cases; simpl; rewrite Hr;
    (split; intros ->; simpl; [apply last_snoc|done]).
Qed.

Lemma emotional_memory_store_unchecked_witness :
  let s' := run_memory_call rejects_first (UpdateState (mkQuadrant 1 0 0 0))
              (run_memory_calls rejects_first []) in
  rejects_first (length (@nil memory_call)) = true
  ∧ rows (SupabaseEmotionalMemory.supabase s') = []
  ∧ SupabaseEmotionalMemory.currentState s'
    = absorbed (mkQuadrant 0 0 0 0) (mkQuadrant 1 0 0 0).
Proof.
  split; [done|].
  destruct (emotional_memory_store_unchecked rejects_first []
              (UpdateState (mkQuadrant 1 0 0 0))) as (_ & _ & _ & _ & H).
  by apply H.
Defined.
End EmotionalMore.

(** ** Sleep cycle: what one run can do *)

Section SleepCycleMore.
Import CognitiveSystem.

Lemma absorbed_in_range q impact : in_range (absorbed q impact).
Proof. repeat split; apply clamp_within_bounds. Qed.

Lemma replay_loop_bounds rejects sample : ∀ s,
  in_range (SupabaseEmotionalMemory.currentState (emotionalMemory s)) →
  ∃ r s', for_of sample (λ fact,
            impact ← gets (λ s, Fact.emotionalImpact
                                  (LRUWorkingMemory.heap (workingMemory s) fact));
            zoom emotionalMemory set_emotionalMemory
              (SupabaseEmotionalMemory.updateState rejects
                 (reduceEmotionalImpact impact))) s = (r, s')
    ∧ in_range (SupabaseEmotionalMemory.currentState (emotionalMemory s'))
    ∧ workingMemory s' = workingMemory s
    ∧ (requests (SupabaseEmotionalMemory.supabase (emotionalMemory s'))
       ≤ requests (SupabaseEmotionalMemory.supabase (emotionalMemory s))
         + length sample)%nat.
Proof.
  induction sample as [|fact sample IH]; intros s Hs; simpl.
  { exists (Returned tt), s. split; [done|]. split; [done|]. split; [done|lia]. }
  unfold bind at 1. rewrite replay_one.
  match goal with |- context [for_of sample ?body ?s1] =>
    destruct (IH s1) as (r & s' & H0 & H1 & H2 & H3);
      [apply absorbed_in_range|] end.
  exists r, s'. split; [done|]. simpl in *. split; [done|]. split; [done|lia].
Qed.

(** X13.  One sleep cycle.  Whether [processSleepCycle] returns or throws:
    it sends at most [sleepCycleFactCount] (10) requests however many facts
    the buffer holds, an emotional state within [-1, 1] stays within
    [-1, 1], and the buffer of the working memory holds the same facts in
    the same order. *)
Theorem processSleepCycle_bounded (rejects : nat → bool) (s : CognitiveSystem.t) :
  in_range (SupabaseEmotionalMemory.currentState (emotionalMemory s)) →
  let out := processSleepCycle rejects s in
  in_range (SupabaseEmotionalMemory.currentState (emotionalMemory out.2))
  ∧ (requests (SupabaseEmotionalMemory.supabase (emotionalMemory out.2))
     ≤ requests (SupabaseEmotionalMemory.supabase (emotionalMemory s)) + 10)%nat
  ∧ LRUWorkingMemory.getFacts (workingMemory out.2)
    = LRUWorkingMemory.getFacts (workingMemory s).
Proof.
  intros Hs.
  set (sample := LRUWorkingMemory.getSampleByWeight config.sleepCycleFactCount
                   (workingMemory s)).
  assert (length sample ≤ 10)%nat as Hlen.
  { unfold sample, LRUWorkingMemory.getSampleByWeight. rewrite length_take.
    unfold config.sleepCycleFactCount. lia. }
  destruct (replay_loop_bounds rejects sample s Hs) as (r & s1 & Hloop & H1 & H2 & H3).
  intros out.
  assert (out.2 = match r with
                  | Returned _ =>
                      set_workingMemory
                        (LRUWorkingMemory.consolidate (workingMemory s1)) s1
                  | Thrown _ => s1
                  end) as ->.
  { unfold out, processSleepCycle, mbind, M_bind. unfold bind at 1.
    unfold gets at 1. fold sample. unfold bind at 1.
    unfold mbind, M_bind in Hloop. rewrite Hloop. by destruct r. }
  destruct r as [[]|e]; simpl.
  - split; [done|]. split; [lia|].
    unfold LRUWorkingMemory.getFacts. by rewrite facts_consolidate, H2.
  - split; [done|]. split; [lia|]. by rewrite H2.
Qed.

Lemma processSleepCycle_bounded_witness :
  in_range (SupabaseEmotionalMemory.currentState (emotionalMemory two_moods))
  ∧ LRUWorkingMemory.getFacts (workingMemory (processSleepCycle accepts_all two_moods).2)
    = LRUWorkingMemory.getFacts (workingMemory two_moods).
Proof.
  assert (in_range (SupabaseEmotionalMemory.currentState (emotionalMemory two_moods)))
    as Hr by (by repeat split).
  split; [done|].
  by apply (processSleepCycle_bounded accepts_all two_moods Hr).
Defined.
End SleepCycleMore.

(** ** Sleep-cycle timer *)

Section TimerMore.
Import CognitiveSystemTimer.

Lemma timer_held_step c s : timer_held s → timer_held (run_timer_call c s).
Proof.
  unfold timer_held. intros H. destruct c as [hours|]; simpl.
  - unfold startSleepCycle. destruct (sleepCycle s) eqn:E; [by rewrite E|].
    simpl. rewrite H. eexists. by rewrite insert_empty.
  - unfold stopSleepCycle. destruct (sleepCycle s) as [handle|] eqn:E.
    + simpl. destruct H as [p ->]. by rewrite delete_singleton_eq.
    + by rewrite E.
Qed.

Lemma timer_held_calls cs : ∀ s,
  timer_held s → timer_held (foldl (λ s c, run_timer_call c s) s cs).
Proof.
  induction cs as [|c cs IH]; intros s H; [done|].
  simpl. by apply IH, timer_held_step.
Qed.

(** X14.  Start and stop are idempotent and leak no timer.  After any
    sequence of [startSleepCycle] and [stopSleepCycle] calls on a new
    system at most one interval timer is active, and it is the one the
    field [sleepCycle] holds; after [stopSleepCycle] none is active; after
    [startSleepCycle] one is held; a second [startSleepCycle] in a row
    changes nothing, whatever its period, nor does a second
    [stopSleepCycle]. *)
Theorem sleep_timer_no_leak (cs : list timer_call) (hours hours' : Z) :
  let s := foldl (λ s c, run_timer_call c s) new cs in
  timer_held s
  ∧ intervals (stopSleepCycle s) = ∅
  ∧ sleepCycle (stopSleepCycle s) = None
  ∧ is_Some (sleepCycle (startSleepCycle hours s))
  ∧ startSleepCycle hours' (startSleepCycle hours s) = startSleepCycle hours s
  ∧ stopSleepCycle (stopSleepCycle s) = stopSleepCycle s.
Proof.
  intros s.
  assert (timer_held s) as Hinv by (by apply timer_held_calls).
  split; [done|].
  unfold timer_held in Hinv. unfold stopSleepCycle, startSleepCycle.
  destruct (sleepCycle s) as [handle|] eqn:E; simpl.
  - destruct Hinv as [p Hp]. rewrite Hp, delete_singleton_eq, E. by simpl.
  - by rewrite E, Hinv.
Qed.
End TimerMore.

(** ** Weights, confidence and signature keys *)

Section ScoringMore.
Open Scope R_scope.

Lemma sum_of_squares_nonneg q : 0 <= sum_of_squares q.
Proof. unfold sum_of_squares. nra. Qed.

Lemma sum_of_squares_zero q :
  sum_of_squares q = 0 ↔ q = mkQuadrant 0 0 0 0.
Proof.
  unfold sum_of_squares. split.
  - intros H. destruct q as [j c a d]; simpl in *.
    assert (j = 0) as -> by nra. assert (c = 0) as -> by nra.
    assert (a = 0) as -> by nra. assert (d = 0) as -> by nra. done.
  - intros ->. simpl. lra.
Qed.

Lemma sqrt_sum_zero q : sqrt (sum_of_squares q) = 0 ↔ q = mkQuadrant 0 0 0 0.
Proof.
  rewrite <-sum_of_squares_zero. split.
  - intros H. apply sqrt_eq_0; [apply sum_of_squares_nonneg|done].
  - intros ->. apply sqrt_0.
Qed.

Lemma sqrt_ge_1 x : 1 <= x → 1 <= sqrt x.
Proof. intros H. rewrite <-sqrt_1 at 1. apply sqrt_le_1; lra. Qed.

Lemma square_ge x c : 0 <= c → c <= Rabs x → c * c <= x ^ 2.
Proof.
  intros Hc Hx. unfold Rabs in Hx. destruct (Rcase_abs x); nra.
Qed.

Lemma sum_of_squares_ge impact c :
  0 <= c →
  c <= Rabs (joy impact) ∨ c <= Rabs (calm impact)
  ∨ c <= Rabs (anger impact) ∨ c <= Rabs (sadness impact) →
  c * c <= sum_of_squares impact.
Proof.
  intros Hc H. unfold sum_of_squares.
  destruct H as [H|[H|[H|H]]]; apply (square_ge _ c Hc) in H; nra.
Qed.

(** X15.  The weight of a fact, [calculateFactWeight]: it lies between 0
    and 1 for every impact; it is 0 for the neutral impact (0, 0, 0, 0);
    and it is 1 as soon as one component is 1 or more in magnitude. *)
Theorem calculateFactWeight_bounds (impact : EmotionalQuadrant R) :
  let weight := CognitiveSystemScoring.calculateFactWeight impact in
  0 <= weight <= 1
  ∧ (impact = mkQuadrant 0 0 0 0 → weight = 0)
  ∧ (1 <= Rabs (joy impact) ∨ 1 <= Rabs (calm impact)
     ∨ 1 <= Rabs (anger impact) ∨ 1 <= Rabs (sadness impact) →
     weight = 1).
Proof.
  intros weight. unfold weight, CognitiveSystemScoring.calculateFactWeight.
  fold (sum_of_squares impact).
  pose proof (sum_of_squares_nonneg impact) as Hnn.
  pose proof (sqrt_pos (sum_of_squares impact)) as Hpos.
  split; [|split].
  - split; [apply Rmin_glb; lra|apply Rmin_l].
  - intros Hz. apply sqrt_sum_zero in Hz. rewrite Hz. apply Rmin_right. lra.
  - intros H. apply Rmin_left. apply sqrt_ge_1.
    apply (sum_of_squares_ge impact 1) in H; lra.
Qed.

(** X16.  The confidence of an analysis, [calculateConfidence]: it lies
    between 0.5 and 1 for every impact; it is 0.5 for the neutral impact;
    and it is 1 as soon as one component is 0.5 or more in magnitude. *)
Theorem calculateConfidence_bounds (impact : EmotionalQuadrant R) :
  let confidence := EmotionalServiceScoring.calculateConfidence impact in
  5 / 10 <= confidence <= 1
  ∧ (impact = mkQuadrant 0 0 0 0 → confidence = 5 / 10)
  ∧ (5 / 10 <= Rabs (joy impact) ∨ 5 / 10 <= Rabs (calm impact)
     ∨ 5 / 10 <= Rabs (anger impact) ∨ 5 / 10 <= Rabs (sadness impact) →
     confidence = 1).
Proof.
  intros confidence.
  unfold confidence, EmotionalServiceScoring.calculateConfidence,
    EmotionalServiceScoring.calculateIntensity.
  fold (sum_of_squares impact).
  pose proof (sum_of_squares_nonneg impact) as Hnn.
  pose proof (sqrt_pos (sum_of_squares impact)) as Hpos.
  pose proof (sqrt_sqrt _ Hnn) as Hsq.
  split; [|split].
  - unfold Rmin. destruct (Rle_dec _ _); lra.
  - intros Hz. apply sqrt_sum_zero in Hz. rewrite Hz.
    rewrite Rmin_right by lra. lra.
  - intros H. apply (sum_of_squares_ge impact (5 / 10)) in H; [|lra].
    rewrite Rmin_left; [lra|]. nra.
Qed.

Close Scope R_scope.

Lemma getEmotionalSignatureKey_key_of signature :
  CognitiveSystemScoring.getEmotionalSignatureKey signature
  = key_of (above_threshold signature).
Proof.
  unfold CognitiveSystemScoring.getEmotionalSignatureKey, above_threshold.
  destruct (decide (CognitiveSystemScoring.neutralThreshold < joy signature)) as [H1|H1];
    [rewrite (bool_decide_eq_true_2 _ H1)|rewrite (bool_decide_eq_false_2 _ H1)];
  (destruct (decide (CognitiveSystemScoring.neutralThreshold < calm signature)) as [H2|H2];
    [rewrite (bool_decide_eq_true_2 _ H2)|rewrite (bool_decide_eq_false_2 _ H2)]);
  (destruct (decide (CognitiveSystemScoring.neutralThreshold < anger signature)) as [H3|H3];
    [rewrite (bool_decide_eq_true_2 _ H3)|rewrite (bool_decide_eq_false_2 _ H3)]);
  (destruct (decide (CognitiveSystemScoring.neutralThreshold < sadness signature)) as [H4|H4];
    [rewrite (bool_decide_eq_true_2 _ H4)|rewrite (bool_decide_eq_false_2 _ H4)]);
  reflexivity.
Qed.

Lemma key_of_inj (b1 b2 b3 b4 c1 c2 c3 c4 : bool) :
  key_of [b1; b2; b3; b4] = key_of [c1; c2; c3; c4] →
  [b1; b2; b3; b4] = [c1; c2; c3; c4].
Proof.
  destruct b1, b2, b3, b4, c1, c2, c3, c4; vm_compute; congruence.
Qed.

(** X17.  The key of an emotional signature, [getEmotionalSignatureKey]:
    two signatures get the same key exactly when the same components are
    above the threshold 0.1, and the key is ["neutral"] exactly when none
    is. *)
Theorem getEmotionalSignatureKey_groups (signature signature' : EmotionalQuadrant Qc) :
  (CognitiveSystemScoring.getEmotionalSignatureKey signature
   = CognitiveSystemScoring.getEmotionalSignatureKey signature'
   ↔ above_threshold signature = above_threshold signature')
  ∧ (CognitiveSystemScoring.getEmotionalSignatureKey signature = "neutral"
     ↔ above_threshold signature = [false; false; false; false]).
Proof.
  rewrite !getEmotionalSignatureKey_key_of. split.
  - split; [|by intros ->]. apply key_of_inj.
  - change "neutral" with (key_of [false; false; false; false]).
    split; [|by intros ->]. apply key_of_inj.
Qed.
End ScoringMore.

(** ** Several facts at once *)

Section AggregateMore.
Import EmotionalServiceAggregate.

Lemma count_S n :
  Q2Qc (inject_Z (Z.of_nat (S n))) = Q2Qc (inject_Z (Z.of_nat n)) + 1.
Proof.
  apply Qc_is_canon. simpl. rewrite !Qred_correct.
  rewrite Nat2Z.inj_succ. unfold Z.succ. by rewrite inject_Z_plus.
Qed.

Lemma count_nonneg n : 0 ≤ Q2Qc (inject_Z (Z.of_nat n)).
Proof.
  unfold Qcle. simpl. rewrite !Qred_correct.
  unfold Qle. simpl. lia.
Qed.

Lemma count_pos n : 0 < Q2Qc (inject_Z (Z.of_nat (S n))).
Proof.
  rewrite count_S. pose proof (count_nonneg n) as H.
  revert H. generalize (Q2Qc (inject_Z (Z.of_nat n))). intros c H.
  unfold Qcle, Qclt in *. simpl in *. rewrite ?Qred_correct in *. lra.
Qed.

Lemma sum_bounds impacts : ∀ acc k,
  Forall in_range impacts →
  componentwise (λ _ x, - k ≤ x ∧ x ≤ k) acc acc →
  componentwise (λ _ x, - (k + Q2Qc (inject_Z (Z.of_nat (length impacts)))) ≤ x
                        ∧ x ≤ k + Q2Qc (inject_Z (Z.of_nat (length impacts))))
                acc (foldl sum_step acc impacts).
Proof.
  induction impacts as [|q impacts IH]; intros acc k Hall Hacc.
  { simpl. change (Q2Qc (inject_Z (Z.of_nat 0))) with 0.
    by rewrite Qcplus_0_r. }
  apply Forall_cons in Hall as [Hq Hall].
  cbn [foldl length]. rewrite count_S.
  specialize (IH (sum_step acc q) (k + 1) Hall).
  replace (k + (Q2Qc (inject_Z (Z.of_nat (length impacts))) + 1))
    with (k + 1 + Q2Qc (inject_Z (Z.of_nat (length impacts)))) by ring.
  apply IH. clear IH.
  destruct Hacc as (Hj & Hc & Ha & Hs), Hq as (Qj & Qc' & Qa & Qs).
  unfold componentwise, sum_step, within_bounds in *. simpl.
  unfold Qcle in *. simpl in *. rewrite ?Qred_correct in *.
  repeat split; lra.
Qed.

Lemma div_within_bounds x n :
  0 < n → - n ≤ x → x ≤ n → within_bounds (x / n).
Proof.
  intros Hn Hl Hu. split.
  - replace (-1) with (- n / n).
    + by apply Qcdiv_le_mono.
    + unfold Qcdiv. replace (- n * / n) with (- (n / n)) by (unfold Qcdiv; ring).
      by rewrite Qcdiv_diag.
  - rewrite <-(Qcdiv_diag n Hn). by apply Qcdiv_le_mono.
Qed.

Lemma div_1 x : (0 + x) / Q2Qc (inject_Z (Z.of_nat 1)) = x.
Proof.
  change (Q2Qc (inject_Z (Z.of_nat 1))) with 1.
  unfold Qcdiv. rewrite Qcplus_0_l. change (/ 1) with 1. apply Qcmult_1_r.
Qed.

(** The aggregate of one impact: [(0 + x) / 1] in each component. *)
Lemma calculateAggregateImpact_one q : calculateAggregateImpact [q] = q.
Proof.
  unfold calculateAggregateImpact. simpl. rewrite !div_1. by destruct q.
Qed.

(** X18.  The aggregate of several impacts, [calculateAggregateImpact],
    for a list that is not empty: when every impact is within [-1, 1] so
    is the aggregate; and the aggregate of one impact is that impact. *)
Theorem calculateAggregateImpact_in_range (impacts : list (EmotionalQuadrant Qc))
    (q : EmotionalQuadrant Qc) :
  impacts ≠ [] →
  Forall in_range impacts →
  in_range (calculateAggregateImpact impacts)
  ∧ calculateAggregateImpact [q] = q.
Proof.
  intros Hne Hall. split; [|apply calculateAggregateImpact_one].
  unfold calculateAggregateImpact. fold sum_step.
  destruct (sum_bounds impacts (mkQuadrant 0 0 0 0) 0 Hall)
    as (Hj & Hc & Ha & Hs); [by repeat split|].
  rewrite Qcplus_0_l in Hj, Hc, Ha, Hs.
  assert (0 < Q2Qc (inject_Z (Z.of_nat (length impacts)))) as Hpos.
  { destruct impacts; [done|]. apply count_pos. }
  destruct Hj, Hc, Ha, Hs.
  split; [|split; [|split]]; cbn [joy calm anger sadness];
    by apply div_within_bounds.
Qed.

Lemma calculateAggregateImpact_in_range_witness :
  in_range (calculateAggregateImpact
              [mkQuadrant 1 0 0 0; mkQuadrant 0 (-1) 0 0]).
Proof.
  apply (calculateAggregateImpact_in_range
           [mkQuadrant 1 0 0 0; mkQuadrant 0 (-1) 0 0] (mkQuadrant 0 0 0 0)).
  - done.
  - apply Forall_cons; split; [by repeat split|].
    apply Forall_cons; split; [by repeat split|constructor].
Defined.

(** X19.  A batch of one.  [processFacts] on a list that holds one fact
    does what [processFact] does on that fact: the same result, the same
    state, the same row sent to the store. *)
Theorem processFacts_of_one (rejects : nat → bool) (fact : Fact.t)
    (s : EmotionalService.t) :
  processFacts rejects [fact] s = EmotionalService.processFact rejects fact s.
Proof.
  unfold processFacts, EmotionalService.processFact.
  assert (calculateAggregateImpact (Fact.emotionalImpact <$> [fact])
          = Fact.emotionalImpact fact) as ->; [|done].
  apply calculateAggregateImpact_one.
Qed.
End AggregateMore.

(** ** Long-term memory: the map of patterns and the database *)

Section LongTermMore.
Import SupabaseLongTermMemory.
Local Open Scope R_scope.

Lemma keyed_insert m pattern :
  keyed m → keyed (<[Pattern.id pattern := pattern]> m).
Proof.
  intros Hm k p. destruct (decide (k = Pattern.id pattern)) as [->|Hne].
  - rewrite lookup_insert_eq. by intros [= ->].
  - rewrite lookup_insert_ne by done. apply Hm.
Qed.

Lemma keyed_cache_all ps : ∀ m, keyed m → keyed (cache_all ps m).
Proof.
  unfold cache_all. induction ps as [|p ps IH]; intros m Hm; [done|].
  simpl. by apply IH, keyed_insert.
Qed.

Lemma keyed_delete_all ks : ∀ m, keyed m → keyed (foldl (λ m k, delete k m) m ks).
Proof.
  induction ks as [|k ks IH]; intros m Hm; [done|].
  simpl. apply IH. intros k' p Hp.
  apply lookup_delete_Some in Hp as [_ Hp]. by apply Hm.
Qed.

Lemma lookup_delete_all ks k : ∀ m : gmap string Pattern.t,
  foldl (λ m k, delete k m) m ks !! k = if decide (k ∈ ks) then None else m !! k.
Proof.
  induction ks as [|k' ks IH]; intros m; [done|].
  simpl. rewrite IH. destruct (decide (k = k')) as [->|Hne].
  - rewrite lookup_delete_eq. rewrite (decide_True (P := k' ∈ k' :: ks)) by left.
    by destruct (decide _).
  - rewrite lookup_delete_ne by done.
    destruct (decide (k ∈ ks)) as [Hin|Hnin].
    + by rewrite (decide_True (P := k ∈ k' :: ks)) by (by right).
    + rewrite (decide_False (P := k ∈ k' :: ks)); [done|].
      intros [->|H]%elem_of_cons; done.
Qed.

Lemma cache_all_keeps ps : ∀ (m : gmap string Pattern.t) k,
  is_Some (m !! k) → is_Some (cache_all ps m !! k).
Proof.
  unfold cache_all. induction ps as [|p ps IH]; intros m k Hk; [done|].
  simpl. apply IH. destruct (decide (k = Pattern.id p)) as [->|Hne].
  - by rewrite lookup_insert_eq.
  - by rewrite lookup_insert_ne.
Qed.

Lemma lookup_cache_all ps : ∀ (m : gmap string Pattern.t) row,
  row ∈ ps → is_Some (cache_all ps m !! Pattern.id row).
Proof.
  induction ps as [|p ps IH]; intros m row Hrow.
  { by apply elem_of_nil in Hrow. }
  apply elem_of_cons in Hrow as [->|Hrow].
  - apply (cache_all_keeps ps). by rewrite lookup_insert_eq.
  - by apply (IH (<[Pattern.id p := p]> m)).
Qed.

Ltac unfold_long_term :=
  unfold db, zoom, DatabaseService.loadPatterns, DatabaseService.storePattern,
    DatabaseService.updatePattern, DatabaseService.findSimilarFacts,
    DatabaseService.findPatternsWithFacts, LongTermConsolidation.removePatterns,
    DatabaseService.request, mbind, M_bind, bind, mret, M_ret, ret, gets, modify.

Lemma ensureInitialized_uninitialized rejects s :
  initialized s = false →
  ensureInitialized rejects s
  = let db := dbService s in
    let db' := DatabaseService.mk (DatabaseService.patterns db)
                 (DatabaseService.find_similar_facts db)
                 (S (DatabaseService.requests db)) in
    if rejects (DatabaseService.requests db)
    then (Thrown "StoreError", set_dbService db' s)
    else (Returned tt,
          mk (cache_all (DatabaseService.patterns db) (patterns s)) true db').
Proof.
  intros Hi. unfold ensureInitialized. unfold_long_term. simpl. rewrite Hi.
  by destruct (rejects _).
Qed.

Lemma ensureInitialized_inv rejects s :
  keyed (patterns s) →
  ∃ r s1, ensureInitialized rejects s = (r, s1)
    ∧ keyed (patterns s1)
    ∧ (initialized s = true → s1 = s)
    ∧ (r = Returned tt → initialized s1 = true).
Proof.
  intros Hk. destruct (initialized s) eqn:Hi.
  - exists (Returned tt), s. by rewrite ensureInitialized_initialized.
  - rewrite ensureInitialized_uninitialized by done. simpl.
    destruct (rejects _); eexists _, _; (split; [done|]); simpl.
    + done.
    + split; [by apply keyed_cache_all|done].
Qed.

Lemma run_pattern_call_inv rejects c s :
  keyed (patterns s) →
  ∃ r s', run_pattern_call rejects c s = (r, s')
    ∧ keyed (patterns s')
    ∧ (initialized s = true → initialized s' = true)
    ∧ (r = Returned tt → initialized s' = true).
Proof.
  intros Hk.
  destruct (ensureInitialized_inv rejects s Hk) as (r1 & s1 & E1 & K1 & I1 & R1).
  assert (initialized s = true → initialized s1 = true) as I1'.
  { intros Hi. by rewrite (I1 Hi). }
  destruct c as [pattern|embedding threshold context|now patternId amount context|];
    unfold run_pattern_call, storePattern, findSimilarPatterns, strengthenPattern,
      LongTermConsolidation.consolidate, mbind, M_bind;
    unfold bind at 1; try unfold bind at 1; rewrite E1;
    (destruct r1 as [[]|e]; [specialize (R1 eq_refl)|by eexists _, _]).
  - unfold_long_term. simpl.
    destruct (rejects _); eexists _, _; (split; [done|]); simpl; [done|].
    split; [by apply keyed_insert|done].
  - unfold_long_term. simpl.
    destruct (rejects _); simpl; [by eexists _, _|].
    destruct (rejects _); simpl; [by eexists _, _|].
    eexists _, _. split; [done|]. simpl. split; [|done].
    by apply keyed_cache_all.
  - unfold bind at 1. unfold gets at 1.
    destruct (patterns s1 !! patternId) as [pattern|] eqn:Hfound.
    + unfold_long_term. simpl.
      assert (keyed (<[patternId := strengthened now amount context pattern]>
                       (patterns s1))) as K2.
      { replace patternId
          with (Pattern.id (strengthened now amount context pattern)).
        - by apply keyed_insert.
        - rewrite <-(K1 _ _ Hfound). unfold strengthened. by destruct context. }
      destruct (rejects _); by eexists _, _.
    + by eexists _, _.
  - unfold_long_term. simpl. case_decide; simpl.
    + destruct (rejects _); eexists _, _; (split; [done|]); simpl; [done|].
      split; [by apply keyed_delete_all|done].
    + eexists _, _. split; [done|]. simpl. split; [by apply keyed_delete_all|done].
Qed.

(** X20.  The map is a cache keyed by id.  Every call on the patterns
    ([storePattern], [findSimilarPatterns], [strengthenPattern],
    [consolidate]), whether it returns or throws, keeps each pattern of
    the map under its own id; it never takes back the initialisation; and
    when it returns the memory is initialised. *)
Theorem pattern_cache_keyed (rejects : nat → bool) (c : pattern_call) (s : t) :
  keyed (patterns s) →
  let out := run_pattern_call rejects c s in
  keyed (patterns out.2)
  ∧ (initialized s = true → initialized out.2 = true)
  ∧ (out.1 = Returned tt → initialized out.2 = true).
Proof.
  intros Hk out.
  destruct (run_pattern_call_inv rejects c s Hk) as (r & s' & E & H).
  unfold out. by rewrite E.
Qed.

Lemma pattern_cache_keyed_witness :
  keyed (patterns (new joyful_db))
  ∧ keyed (patterns (run_pattern_call accepts_all (StorePattern joyful_pattern)
                       (new joyful_db)).2).
Proof.
  assert (keyed (patterns (new joyful_db))) as Hk.
  { intros k p Hp. simpl in Hp. by rewrite lookup_empty in Hp. }
  split; [done|].
  by apply (pattern_cache_keyed accepts_all (StorePattern joyful_pattern)
              (new joyful_db) Hk).
Defined.

(** X21.  An unknown id.  [strengthenPattern] on an id that the map of an
    initialised memory does not hold returns without an error, sends no
    request and changes nothing. *)
Theorem strengthenPattern_unknown_id (rejects : nat → bool) (now : Z)
    (patternId : string) (amount : R) (emotionalContext : option EmotionalContext)
    (s : t) :
  initialized s = true →
  patterns s !! patternId = None →
  strengthenPattern rejects now patternId amount emotionalContext s
  = (Returned tt, s).
Proof.
  intros Hi Hnone. unfold strengthenPattern, mbind, M_bind.
  unfold bind at 1. rewrite ensureInitialized_initialized by done.
  unfold bind, gets. by rewrite Hnone.
Qed.

Lemma strengthenPattern_unknown_id_witness :
  strengthenPattern accepts_all 0 "q" 1 None two_patterns = (Returned tt, two_patterns).
Proof.
  by apply (strengthenPattern_unknown_id accepts_all 0 "q" 1 None two_patterns).
Defined.

(** X22.  The map is changed before the database.  When the database
    rejects the update of [strengthenPattern], the call throws, the rows
    of the database are as before, and the map already holds the
    strengthened pattern. *)
Theorem strengthenPattern_rejected_update (rejects : nat → bool) (now : Z)
    (patternId : string) (pattern : Pattern.t) (amount : R)
    (emotionalContext : option EmotionalContext) (s : t) :
  initialized s = true →
  patterns s !! patternId = Some pattern →
  rejects (DatabaseService.requests (dbService s)) = true →
  let out := strengthenPattern rejects now patternId amount emotionalContext s in
  out.1 = Thrown "StoreError"
  ∧ patterns out.2 !! patternId
    = Some (strengthened now amount emotionalContext pattern)
  ∧ DatabaseService.patterns (dbService out.2)
    = DatabaseService.patterns (dbService s).
Proof.
  intros Hi Hfound Hrej out.
  assert (out = db (DatabaseService.updatePattern rejects
                      (strengthened now amount emotionalContext pattern))
                  (set_patterns
                     (<[patternId := strengthened now amount emotionalContext pattern]>
                        (patterns s)) s)) as ->.
  { unfold out, strengthenPattern, mbind, M_bind.
    unfold bind at 1. rewrite ensureInitialized_initialized by done.
    unfold bind at 1. unfold gets at 1. by rewrite Hfound. }
  unfold_long_term. simpl. rewrite Hrej. simpl.
  split; [done|]. split; [apply lookup_insert_eq|done].
Qed.

Lemma strengthenPattern_rejected_update_witness :
  let out := strengthenPattern rejects_first 0 "weak" 1 None two_patterns in
  out.1 = Thrown "StoreError"
  ∧ patterns out.2 !! "weak" = Some (strengthened 0 1 None weak_pattern).
Proof.
  assert (patterns two_patterns !! "weak" = Some weak_pattern) as Hfound
    by apply lookup_insert_eq.
  destruct (strengthenPattern_rejected_update rejects_first 0 "weak" weak_pattern
              1 None two_patterns eq_refl Hfound eq_refl) as (H1 & H2 & _).
  by split.
Defined.

(** X23.  [storePattern] writes the database first.  On an initialised
    memory: when the database rejects the upsert the call throws and the
    map and the rows are as before; when it accepts, the map holds the
    pattern under its id, the database holds it, every row with that id
    is the pattern, and the rows with other ids are as before. *)
Theorem storePattern_write_through (rejects : nat → bool) (pattern : Pattern.t)
    (s : t) :
  initialized s = true →
  let out := storePattern rejects pattern s in
  let before := DatabaseService.patterns (dbService s) in
  let after := DatabaseService.patterns (dbService out.2) in
  if rejects (DatabaseService.requests (dbService s))
  then out.1 = Thrown "StoreError" ∧ patterns out.2 = patterns s ∧ after = before
  else out.1 = Returned tt
       ∧ patterns out.2 = <[Pattern.id pattern := pattern]> (patterns s)
       ∧ pattern ∈ after
       ∧ (∀ row, row ∈ after → Pattern.id row = Pattern.id pattern → row = pattern)
       ∧ filter (λ row, Pattern.id row ≠ Pattern.id pattern) after
         = filter (λ row, Pattern.id row ≠ Pattern.id pattern) before.
Proof.
  intros Hi out before after.
  assert (out = bind (db (DatabaseService.storePattern rejects pattern))
                  (λ storedPattern, modify (λ s, set_patterns
                     (<[Pattern.id storedPattern := storedPattern]> (patterns s)) s))
                  s) as Hout.
  { unfold out, storePattern, mbind, M_bind.
    unfold bind at 1. by rewrite ensureInitialized_initialized. }
  unfold after, before. rewrite Hout. clear out before after Hout.
  unfold_long_term. simpl. destruct (rejects _); simpl; [done|].
  split; [done|]. split; [done|].
  generalize (DatabaseService.patterns (dbService s)). intros rows.
  case_decide as Hin.
  - apply list_elem_of_fmap in Hin as (row0 & Hid & Hrow0).
    split; [|split].
    + apply list_elem_of_fmap. exists row0. split; [|done].
      by rewrite decide_True.
    + intros row (row' & -> & _)%list_elem_of_fmap. by case_decide.
    + clear. induction rows as [|row rows IH]; [done|].
      rewrite fmap_cons, !filter_cons.
      assert (Pattern.id row = Pattern.id pattern
              ∨ Pattern.id row ≠ Pattern.id pattern) as [Hd|Hd]
        by (destruct (decide (Pattern.id row = Pattern.id pattern)); auto).
      * rewrite (decide_True (P := Pattern.id row = Pattern.id pattern)) by done.
        rewrite (decide_False (P := Pattern.id pattern ≠ Pattern.id pattern))
          by (by intros H; apply H).
        rewrite (decide_False (P := Pattern.id row ≠ Pattern.id pattern))
          by (by intros H; apply H).
        done.
      * rewrite (decide_False (P := Pattern.id row = Pattern.id pattern)) by done.
        rewrite (decide_True (P := Pattern.id row ≠ Pattern.id pattern)) by done.
        rewrite (decide_True (P := Pattern.id row ≠ Pattern.id pattern)) by done.
        by rewrite IH.
  - split; [|split].
    + apply elem_of_app. right. by apply list_elem_of_singleton.
    + intros row [Hrow|Hrow%list_elem_of_singleton]%elem_of_app Hid; [|done].
      destruct Hin. apply list_elem_of_fmap. by exists row.
    + rewrite filter_app. rewrite filter_cons.
      rewrite decide_False by (by intros H; apply H).
      by rewrite filter_nil, app_nil_r.
Qed.

Lemma storePattern_write_through_witness :
  patterns (storePattern accepts_all strong_pattern two_patterns).2
  = <["strong" := strong_pattern]> (patterns two_patterns).
Proof.
  by destruct (storePattern_write_through accepts_all strong_pattern two_patterns
                 eq_refl) as (_ & H & _).
Defined.

Lemma elem_of_patternsToRemove m k :
  keyed m →
  k ∈ LongTermConsolidation.patternsToRemove m
  ↔ ∃ pattern, m !! k = Some pattern ∧ weak_weight (Pattern.weight pattern).
Proof.
  intros Hk. unfold LongTermConsolidation.patternsToRemove.
  rewrite list_elem_of_fmap. split.
  - intros (p & -> & Hp). apply list_elem_of_filter in Hp as [Hw Hp].
    apply list_elem_of_fmap in Hp as ([k' p'] & -> & Hp).
    apply elem_of_map_to_list in Hp. simpl in *.
    exists p'. by rewrite (Hk _ _ Hp).
  - intros (p & Hp & Hw). exists p. split; [by rewrite (Hk _ _ Hp)|].
    apply list_elem_of_filter. split; [done|].
    apply list_elem_of_fmap. exists (k, p). split; [done|].
    by apply elem_of_map_to_list.
Qed.

Lemma consolidate_initialized rejects s :
  initialized s = true →
  LongTermConsolidation.consolidate rejects s
  = let toRemove := LongTermConsolidation.patternsToRemove (patterns s) in
    let db := dbService s in
    let kept := foldl (λ m k, delete k m) (patterns s) toRemove in
    if decide (0 < length toRemove)%nat
    then if rejects (DatabaseService.requests db)
         then (Thrown "StoreError",
               set_dbService
                 (DatabaseService.mk (DatabaseService.patterns db)
                    (DatabaseService.find_similar_facts db)
                    (S (DatabaseService.requests db))) s)
         else (Returned tt,
               mk kept true
                 (DatabaseService.mk
                    (filter (λ row, Pattern.id row ∉ toRemove)
                            (DatabaseService.patterns db))
                    (DatabaseService.find_similar_facts db)
                    (S (DatabaseService.requests db))))
    else (Returned tt, s).
Proof.
  intros Hi. unfold LongTermConsolidation.consolidate, mbind, M_bind.
  unfold bind at 1. rewrite ensureInitialized_initialized by done.
  destruct s as [m i d]. simpl in Hi. subst i.
  unfold_long_term. simpl. case_decide as Hlen; simpl.
  - by destruct (rejects _).
  - destruct (LongTermConsolidation.patternsToRemove m); simpl in *; [done|lia].
Qed.

Lemma kept_not_weak w : kept_weight w ↔ ¬ weak_weight w.
Proof.
  unfold kept_weight, weak_weight. destruct w as [x|]; simpl; [|tauto].
  split; [lra|]. intros H. destruct (Rlt_le_dec (2 / 10) x); tauto.
Qed.

(** X24.  [consolidate] prunes the weak patterns.  On an initialised
    memory whose map is keyed by id: when the call returns, the map holds
    exactly the patterns it held with a weight above 0.2 (or a weight that
    is not a number, which fails the comparison), and the database exactly
    the rows whose id is not that of a pattern of weight 0.2 or less in
    the map; when it throws, the map and the rows are as before; and when
    no pattern of the map weighs 0.2 or less, the call returns, sends no
    request and changes nothing. *)
Theorem consolidate_prunes (rejects : nat → bool) (s : t) :
  keyed (patterns s) →
  initialized s = true →
  let out := LongTermConsolidation.consolidate rejects s in
  let weak k := ∃ pattern, patterns s !! k = Some pattern
                           ∧ weak_weight (Pattern.weight pattern) in
  (out.1 = Returned tt →
     (∀ k pattern, patterns out.2 !! k = Some pattern
                   ↔ patterns s !! k = Some pattern
                     ∧ kept_weight (Pattern.weight pattern))
     ∧ (∀ row, row ∈ DatabaseService.patterns (dbService out.2)
               ↔ row ∈ DatabaseService.patterns (dbService s)
                 ∧ ¬ weak (Pattern.id row)))
  ∧ (out.1 ≠ Returned tt →
     patterns out.2 = patterns s
     ∧ DatabaseService.patterns (dbService out.2)
       = DatabaseService.patterns (dbService s))
  ∧ ((∀ k, ¬ weak k) → out = (Returned tt, s)).
Proof.
  intros Hk Hi out weak.
  pose proof (λ k, elem_of_patternsToRemove (patterns s) k Hk) as Hrem.
  assert (∀ k pattern,
            foldl (λ m k, delete k m) (patterns s)
                  (LongTermConsolidation.patternsToRemove (patterns s)) !! k
            = Some pattern
            ↔ patterns s !! k = Some pattern
              ∧ kept_weight (Pattern.weight pattern))
    as Hkept.
  { intros k p. rewrite lookup_delete_all, kept_not_weak. case_decide as Hin.
    - apply Hrem in Hin as (p' & Hp' & Hw'). split; [done|].
      intros [Hp Hw]. rewrite Hp in Hp'. by injection Hp' as ->.
    - split; [|by intros [? _]]. intros Hp. split; [done|].
      intros Hw. destruct Hin. apply Hrem. by exists p. }
  unfold out. rewrite consolidate_initialized by done. simpl.
  case_decide as Hlen.
  - destruct (rejects _); simpl.
    + split; [done|]. split; [done|].
      intros Hnone. exfalso.
      destruct (LongTermConsolidation.patternsToRemove (patterns s))
        as [|k ks] eqn:E; [simpl in Hlen; lia|].
      apply (Hnone k). apply Hrem. by left.
    + split; [|split; [done|]].
      * intros _. split; [done|]. intros row.
        rewrite list_elem_of_filter. split.
        -- intros [Hnin Hrow]. split; [done|]. intros Hw. apply Hnin.
           by apply Hrem.
        -- intros [Hrow Hw]. split; [|done]. intros Hin. apply Hw.
           by apply Hrem.
      * intros Hnone. exfalso.
        destruct (LongTermConsolidation.patternsToRemove (patterns s))
          as [|k ks] eqn:E; [simpl in Hlen; lia|].
        apply (Hnone k). apply Hrem. by left.
  - assert (LongTermConsolidation.patternsToRemove (patterns s) = []) as E.
    { destruct (LongTermConsolidation.patternsToRemove (patterns s)); [done|].
      simpl in Hlen. lia. }
    split; [|done]. intros _. split.
    + intros k p. rewrite <-Hkept, E. done.
    + intros row. split; [|by intros [? _]]. intros Hrow. split; [done|].
      intros Hw. apply Hrem in Hw. rewrite E in Hw.
      by apply elem_of_nil in Hw.
Qed.

Lemma consolidate_prunes_witness :
  keyed (patterns two_patterns)
  ∧ ∀ row, row ∈ DatabaseService.patterns
                   (dbService (LongTermConsolidation.consolidate accepts_all
                                 two_patterns).2)
           → row ∈ DatabaseService.patterns (dbService two_patterns).
Proof.
  assert (keyed (patterns two_patterns)) as Hk.
  { intros k p. simpl. destruct (decide (k = "weak")) as [->|Hne].
    - rewrite lookup_insert_eq. by intros [= <-].
    - rewrite lookup_insert_ne by done.
      destruct (decide (k = "strong")) as [->|Hne'].
      + rewrite lookup_singleton_eq. by intros [= <-].
      + by rewrite lookup_singleton_ne. }
  split; [done|].
  destruct (consolidate_prunes accepts_all two_patterns Hk eq_refl) as (H & _).
  intros row Hrow.
  assert ((LongTermConsolidation.consolidate accepts_all two_patterns).1
          = Returned tt) as Hret.
  { rewrite consolidate_initialized by done. simpl.
    by destruct (decide _). }
  by apply (H Hret).
Defined.

Lemma decay_factor_le_1 now lastAccessed :
  (lastAccessed ≤ now)%Z →
  0 < exp (- IZR (now - lastAccessed) / IZR halfLifeMillis) <= 1.
Proof.
  intros Hle. split; [apply exp_pos|].
  assert (0 <= IZR (now - lastAccessed)) as Hdt by (apply IZR_le; lia).
  assert (0 < IZR halfLifeMillis) as Hhl by (by apply IZR_lt).
  assert (- IZR (now - lastAccessed) / IZR halfLifeMillis <= 0) as Hx.
  { unfold Rdiv. pose proof (Rinv_0_lt_compat _ Hhl). nra. }
  destruct Hx as [Hx|Hx].
  - left. rewrite <-exp_0. by apply exp_increasing.
  - rewrite Hx, exp_0. lra.
Qed.

(** X25.  Decay alone never adds weight.  [strengthenPattern] with
    amount 0 and no emotional context, on a pattern of the map with a
    weight that is not negative and a last access that is not in the
    future: the map then holds the pattern with a weight between 0 and
    its old weight, the time of the call as its last access, and the same
    id, facts and emotional signature. *)
Theorem strengthenPattern_pure_decay (rejects : nat → bool) (now : Z)
    (patternId : string) (pattern : Pattern.t) (w : R) (s : t) :
  initialized s = true →
  patterns s !! patternId = Some pattern →
  Pattern.weight pattern = Number.Num w →
  0 <= w →
  (Pattern.lastAccessed pattern ≤ now)%Z →
  let out := strengthenPattern rejects now patternId 0 None s in
  ∃ pattern' w',
    patterns out.2 !! patternId = Some pattern'
    ∧ Pattern.weight pattern' = Number.Num w'
    ∧ 0 <= w' <= w
    ∧ Pattern.lastAccessed pattern' = now
    ∧ Pattern.id pattern' = Pattern.id pattern
    ∧ Pattern.facts pattern' = Pattern.facts pattern
    ∧ Pattern.emotionalSignature pattern' = Pattern.emotionalSignature pattern.
Proof.
  intros Hi Hfound Hw H0 Hla out.
  destruct (strengthenPattern_found rejects now s s patternId pattern 0 None
              (ensureInitialized_initialized rejects s Hi) Hfound) as [Hmap _].
  exists (strengthened now 0 None pattern). eexists.
  split; [done|]. unfold strengthened. simpl. rewrite Hw. simpl.
  split; [reflexivity|]. split; [|done].
  pose proof (decay_factor_le_1 now (Pattern.lastAccessed pattern) Hla) as [He0 He1].
  revert He0 He1.
  generalize (exp (- IZR (now - Pattern.lastAccessed pattern) / IZR halfLifeMillis)).
  intros e He0 He1. unfold Rmin. destruct (Rle_dec _ _); nra.
Qed.

Lemma strengthenPattern_pure_decay_witness :
  ∃ pattern' w',
    patterns (strengthenPattern accepts_all 5 "weak" 0 None two_patterns).2 !! "weak"
    = Some pattern'
    ∧ Pattern.weight pattern' = Number.Num w'
    ∧ w' <= 1 / 10.
Proof.
  assert (patterns two_patterns !! "weak" = Some weak_pattern) as Hfound
    by apply lookup_insert_eq.
  assert (0 <= 1 / 10) as Hw by lra.
  assert (Pattern.lastAccessed weak_pattern ≤ 5)%Z as Hla by (simpl; lia).
  destruct (strengthenPattern_pure_decay accepts_all 5 "weak" weak_pattern
              (1 / 10) two_patterns eq_refl Hfound eq_refl Hw Hla)
    as (pattern' & w' & Hmap & Hw' & [_ Hle] & _).
  by exists pattern', w'.
Defined.

Lemma get_set_eq d v q : get d (set d v q) = v.
Proof. by destruct d. Qed.

Lemma get_set_ne d e v q : d ≠ e → get d (set e v q) = get d q.
Proof. by destruct d, e. Qed.

Lemma set_in_range e v q : Rwithin_bounds v → Rin_range q → Rin_range (set e v q).
Proof. intros Hv (Hj & Hc & Ha & Hs). by destruct e; (split; [|split; [|split]]). Qed.

Lemma get_in_range d q : Rin_range q → Rwithin_bounds (get d q).
Proof. intros (Hj & Hc & Ha & Hs). by destruct d. Qed.

Lemma updateEmotionalSignature_snoc signature context e v :
  updateEmotionalSignature signature (context ++ [(e, v)])
  = set e ((get e signature + v) / 2) (updateEmotionalSignature signature context).
Proof. unfold updateEmotionalSignature. by rewrite foldl_app. Qed.

(** X26.  The new signature, [updateEmotionalSignature]: a dimension that
    the context does not name keeps its value; a dimension the context
    names once gets the mean of its old value and the value of the
    context; and when the signature and the values of the context are
    within [-1, 1], so is the new signature. *)
Theorem updateEmotionalSignature_mean (signature : EmotionalQuadrant R)
    (context : EmotionalContext) :
  NoDup context.*1 →
  (∀ d, d ∉ context.*1 →
        get d (updateEmotionalSignature signature context) = get d signature)
  ∧ (∀ d v, (d, v) ∈ context →
            get d (updateEmotionalSignature signature context)
            = (get d signature + v) / 2)
  ∧ (Rin_range signature → context_in_range context →
     Rin_range (updateEmotionalSignature signature context)).
Proof.
  induction context as [|[e v] context IH] using rev_ind; intros Hnd.
  { split; [done|]. split; [|done]. intros d v Hin. by apply elem_of_nil in Hin. }
  rewrite fmap_app in Hnd. apply NoDup_app in Hnd as (Hnd & Hne & _).
  destruct (IH Hnd) as (IH1 & IH2 & IH3).
  rewrite updateEmotionalSignature_snoc. split; [|split].
  - intros d Hd. rewrite fmap_app in Hd.
    rewrite get_set_ne.
    + apply IH1. intros Hin. apply Hd, elem_of_app. by left.
    + intros ->. apply Hd, elem_of_app. right. by left.
  - intros d w [Hin|Hin]%elem_of_app.
    + rewrite get_set_ne; [by apply IH2|].
      intros ->. apply (Hne e); [|by left].
      apply list_elem_of_fmap. by exists (e, w).
    + apply list_elem_of_singleton in Hin. injection Hin as -> ->.
      apply get_set_eq.
  - intros Hs Hc. apply Forall_app in Hc as [Hc Hv].
    apply Forall_cons in Hv as [Hv _]. simpl in Hv.
    apply set_in_range; [|by apply IH3].
    pose proof (get_in_range e signature Hs) as He.
    unfold Rwithin_bounds in *. lra.
Qed.

Lemma updateEmotionalSignature_mean_witness :
  get Joy (updateEmotionalSignature (mkQuadrant 1 0 0 0) [(Joy, 0); (Calm, 1)])
  = (get Joy (mkQuadrant 1 0 0 0) + 0) / 2.
Proof.
  assert (NoDup [(Joy, 0); (Calm, 1)].*1) as Hnd.
  { simpl. apply NoDup_cons. split.
    - by intros [=]%list_elem_of_singleton.
    - apply NoDup_singleton. }
  destruct (updateEmotionalSignature_mean (mkQuadrant 1 0 0 0)
              [(Joy, 0); (Calm, 1)] Hnd) as (_ & H & _).
  apply H. by left.
Defined.

Lemma similarity_sum_bounds signature context : ∀ acc k,
  Rin_range signature → context_in_range context →
  - k <= acc <= k →
  - (k + INR (length context))
  <= foldl (λ sum '(emotion, value), sum + value * get emotion signature)
           acc context
  <= k + INR (length context).
Proof.
  induction context as [|[e v] context IH]; intros acc k Hs Hc Hacc.
  { simpl. lra. }
  apply Forall_cons in Hc as [Hv Hc]. simpl in Hv.
  cbn [foldl length]. rewrite S_INR.
  replace (k + (INR (length context) + 1)) with (k + 1 + INR (length context))
    by ring.
  apply IH; [done..|].
  pose proof (get_in_range e signature Hs) as He.
  unfold Rwithin_bounds in *. nra.
Qed.

(** X27.  The emotional similarity, [calculateEmotionalSimilarity], of a
    context that is not empty with a pattern, when the values of the
    context and the signature of the pattern are within [-1, 1]: it is a
    number within [-1, 1]; so the weight that [findSimilarPatterns] gives a
    pattern of weight [w >= 0] is between 0 and [2 * w]. *)
Theorem calculateEmotionalSimilarity_bounds (context : EmotionalContext)
    (pattern : Pattern.t) (w : R) :
  context ≠ [] →
  context_in_range context →
  Rin_range (Pattern.emotionalSignature pattern) →
  Pattern.weight pattern = Number.Num w →
  0 <= w →
  (∃ similarity,
     calculateEmotionalSimilarity context pattern = Number.Num similarity
     ∧ -1 <= similarity <= 1)
  ∧ (∃ w', Pattern.weight (rescale context pattern) = Number.Num w'
           ∧ 0 <= w' <= 2 * w).
Proof.
  intros Hne Hc Hs Hw H0.
  assert (∃ similarity,
            calculateEmotionalSimilarity context pattern = Number.Num similarity
            ∧ -1 <= similarity <= 1) as (sim & Hsim & Hb).
  { unfold calculateEmotionalSimilarity.
    pose proof (similarity_sum_bounds (Pattern.emotionalSignature pattern)
                  context 0 0 Hs Hc ltac:(lra)) as Hsum.
    assert (0 < INR (length context)) as Hn.
    { destruct context; [done|]. apply lt_0_INR. simpl. lia. }
    destruct (length context) as [|n] eqn:Hlen.
    { by destruct context. }
    eexists. split; [reflexivity|].
    revert Hsum Hn. generalize (INR (S n)).
    generalize (foldl (λ sum '(emotion, value),
                         sum + value * get emotion (Pattern.emotionalSignature pattern))
                      0 context).
    intros total m Hsum Hn. unfold Rdiv.
    pose proof (Rinv_0_lt_compat _ Hn) as Hinv.
    assert (m * / m = 1) as Hone by (apply Rinv_r; lra).
    split; nra. }
  split; [by exists sim|].
  unfold rescale. simpl. rewrite Hsim, Hw. simpl.
  eexists. split; [reflexivity|]. split; nra.
Qed.

Lemma calculateEmotionalSimilarity_bounds_witness :
  ∃ similarity,
    calculateEmotionalSimilarity joyful_context joyful_pattern
    = Number.Num similarity
    ∧ similarity <= 1.
Proof.
  assert (context_in_range joyful_context) as Hc.
  { unfold context_in_range, joyful_context, entries, Rwithin_bounds. simpl.
    repeat (apply Forall_cons; split; [simpl; lra|]). constructor. }
  assert (Rin_range (Pattern.emotionalSignature joyful_pattern)) as Hs.
  { unfold Rin_range, Rwithin_bounds. simpl. lra. }
  assert (0 <= 1 / 2) as Hw by lra.
  assert (joyful_context ≠ []) as Hne by done.
  destruct (calculateEmotionalSimilarity_bounds joyful_context joyful_pattern
              (1 / 2) Hne Hc Hs eq_refl Hw) as [(sim & Hsim & [_ H]) _].
  by exists sim.
Defined.

(** X28.  The patterns are loaded once.  When [ensureInitialized]
    returns, the memory is initialised, every row of the database has its
    id in the map if the memory was not initialised before, and a further
    call returns at once: no request, no change, whatever the database
    would answer.  When it throws, the
    memory is still not initialised and the map is as before, so the load
    is tried again by the next call.  One call sends at most one
    request. *)
Theorem ensureInitialized_loads_once (rejects rejects' : nat → bool) (s : t) :
  let out := ensureInitialized rejects s in
  (out.1 = Returned tt →
     initialized out.2 = true
     ∧ ensureInitialized rejects' out.2 = (Returned tt, out.2)
     ∧ (initialized s = false →
        ∀ row, row ∈ DatabaseService.patterns (dbService s) →
               is_Some (patterns out.2 !! Pattern.id row)))
  ∧ (out.1 ≠ Returned tt → initialized out.2 = false ∧ patterns out.2 = patterns s)
  ∧ (DatabaseService.requests (dbService out.2)
     ≤ DatabaseService.requests (dbService s) + 1)%nat.
Proof.
  intros out. unfold out. destruct (initialized s) eqn:Hi.
  - rewrite ensureInitialized_initialized by done. simpl.
    split; [|split; [done|lia]]. intros _. split; [done|].
    split; [by apply ensureInitialized_initialized|done].
  - rewrite ensureInitialized_uninitialized by done. simpl.
    destruct (rejects _); simpl.
    + split; [done|]. split; [done|lia].
    + split; [|split; [done|lia]]. intros _. split; [done|].
      split; [by apply ensureInitialized_initialized|].
      intros _ row Hrow. by apply lookup_cache_all.
Qed.
End LongTermMore.

(** ** Sensory context memory *)

Section SensoryMore.
Import SensoryContextMemory.

Lemma cleanExpiredFacts_fresh h now s : fresh_at h now (cleanExpiredFacts h now s).
Proof.
  split; intros fact Hin; simpl in Hin; by apply list_elem_of_filter in Hin as [? _].
Qed.

(** X29.  [updateContext] at clean-up time [now].  Afterwards every recent
    fact is younger than the retention time and every fact of the
    contextual memory younger than twice that; the new fact is among the
    recent facts exactly when it is itself younger than the retention
    time, and in the contextual memory only if it weighs more than 0.5 or
    was there before; the recent facts are the old ones and the new one
    in their order, less those dropped; the retention time and the input
    type are unchanged. *)
Theorem updateContext_effect (h : nat → Fact.t) (updated now : Z) (fact : nat)
    (s : SensoryContextMemory.t) :
  let s' := updateContext h updated now fact s in
  fresh_at h now s'
  ∧ (fact ∈ recentFacts (context s')
     ↔ (now - Fact.timestamp (h fact) < retentionTime s)%Z)
  ∧ (fact ∈ contextualMemory (context s') →
     heavy h fact ∨ fact ∈ contextualMemory (context s))
  ∧ recentFacts (context s') `sublist_of` recentFacts (context s) ++ [fact]
  ∧ lastUpdated (context s') = updated
  ∧ retentionTime s' = retentionTime s
  ∧ type (context s') = type (context s).
Proof.
  intros s'. split; [apply cleanExpiredFacts_fresh|].
  unfold s', updateContext, cleanExpiredFacts. simpl.
  split; [|split; [|split; [|done]]].
  - rewrite list_elem_of_filter, elem_of_app, list_elem_of_singleton.
    split; [by intros [? _]|]. intros H. split; [done|by right].
  - intros [_ Hin]%list_elem_of_filter. unfold heavy.
    case_decide as Hw; [|by right].
    apply elem_of_app in Hin as [Hin|Hin]; [by right|by left].
  - apply sublist_filter.
Qed.

Lemma run_context_call_heavy h c s :
  (0 ≤ retentionTime s)%Z → heavy_kept h s →
  heavy_kept h (run_context_call h c s)
  ∧ retentionTime (run_context_call h c s) = retentionTime s
  ∧ type (context (run_context_call h c s)) = type (context s).
Proof.
  intros Hr [Hc Hrc]. split; [|by destruct c].
  destruct c as [now|updated now fact|updated]; simpl.
  - split; intros fact.
    + intros [_ Hin]%list_elem_of_filter. by apply Hc.
    + intros [Hage Hin]%list_elem_of_filter Hw.
      apply list_elem_of_filter. split; [lia|by apply Hrc].
  - unfold updateContext, cleanExpiredFacts. simpl. split; intros f.
    + intros [_ Hin]%list_elem_of_filter.
      case_decide as Hw; [|by apply Hc].
      apply elem_of_app in Hin as [Hin|Hin%list_elem_of_singleton];
        [by apply Hc|by subst].
    + intros [Hage Hin]%list_elem_of_filter Hf.
      apply list_elem_of_filter. split; [lia|].
      apply elem_of_app in Hin as [Hin|Hin%list_elem_of_singleton].
      * case_decide; [apply elem_of_app; left|]; by apply Hrc.
      * subst f. rewrite decide_True by done. apply elem_of_app. right.
        by apply list_elem_of_singleton.
  - split; intros fact Hin; by apply elem_of_nil in Hin.
Qed.

(** X30.  The contextual memory holds the heavy facts.  For a memory made
    with a retention time that is not negative, after any sequence of
    [getContext], [updateContext] and [clearContext] calls over one store
    of facts: every fact of the contextual memory weighs more than 0.5,
    every recent fact that weighs more than 0.5 is in the contextual
    memory, and the retention time and the input type are those the
    memory was made with. *)
Theorem contextualMemory_holds_heavy (h : nat → Fact.t) (inputType : SensoryInputType)
    (retention created : Z) (cs : list context_call) :
  (0 ≤ retention)%Z →
  let s := foldl (λ s c, run_context_call h c s) (new inputType retention created) cs in
  heavy_kept h s ∧ retentionTime s = retention ∧ type (context s) = inputType.
Proof.
  intros Hr.
  assert (∀ s0, (0 ≤ retentionTime s0)%Z → heavy_kept h s0 →
            let s := foldl (λ s c, run_context_call h c s) s0 cs in
            heavy_kept h s ∧ retentionTime s = retentionTime s0
            ∧ type (context s) = type (context s0)) as Hgen.
  { induction cs as [|c cs IH]; intros s0 H0 Hk; [done|]. simpl.
    destruct (run_context_call_heavy h c s0 H0 Hk) as (Hk' & Hr' & Ht').
    destruct (IH (run_context_call h c s0)) as (Hk2 & Hr2 & Ht2);
      [by rewrite Hr'|done|].
    split; [done|]. by rewrite Hr2, Ht2. }
  apply Hgen; [done|].
  split; intros fact Hin; by apply elem_of_nil in Hin.
Qed.

Lemma contextualMemory_holds_heavy_witness :
  heavy_kept heap_timed
    (foldl (λ s c, run_context_call heap_timed c s) (new read_text 1000 0)
           [UpdateContext 50 50 0%nat; UpdateContext 150 150 1%nat; GetContext 1050]).
Proof.
  assert (0 ≤ 1000)%Z as Hr by lia.
  by destruct (contextualMemory_holds_heavy heap_timed read_text 1000 0
                 [UpdateContext 50 50 0%nat; UpdateContext 150 150 1%nat;
                  GetContext 1050] Hr) as [H _].
Defined.
End SensoryMore.
